(** * wedmake: guarded-task experiment runner

    A shallow embedding of [src/wedmakefile_parser.py] and
    [src/py_runtime.py]: the specification grammar (variables, dependency
    clauses, guards, tasks), the experiment-instance state, the predicate
    evaluator and the lock-protected scheduler operations, followed by the
    properties established about them.

    Conventions.
    - A Python [str] is a list of characters; a character is an 8-bit code
      point ([ascii]).
    - Python dictionaries whose iteration order is observable are
      insertion-ordered association lists ([pydict]); the lock table, whose
      order is never observed, is a [gmap].
    - Code that may raise returns in [result]; methods of the experiment
      instance run in the state monad [M] over the instance, whose outcomes
      are a normal return, an uncaught exception, or a thread blocked forever
      on a lock. *)

From Stdlib Require Import ZArith Ascii String Lia Bool.
From stdpp Require Import base option list strings gmap sorting.

Set Default Proof Using "Type".
Local Open Scope Z_scope.

(* ===================================================================== *)
(** * Python strings *)
(* ===================================================================== *)

Abbreviation str := (list ascii).

(** A string literal of the source. *)
Definition py (x : string) : str := list_ascii_of_string x.

Definition chr_eqb (a b : ascii) : bool := Ascii.eqb a b.

(** The double-quote character. *)
Definition dquote : ascii := "034"%char.

Module PyStr.

(** The empty string. *)
Definition empty : str := [].

(** [c in s] for a one-character [c]. *)
Definition contains (c : ascii) (s : str) : bool := existsb (chr_eqb c) s.

(** [s.find(c)]: index of the first occurrence, [-1] when there is none. *)
Fixpoint find (c : ascii) (s : str) : Z :=
  match s with
  | [] => -1
  | a :: s' =>
      if chr_eqb c a then 0
      else let r := find c s' in if r <? 0 then -1 else r + 1
  end.

(** [s.rfind(c)]: index of the last occurrence, [-1] when there is none. *)
Fixpoint rfind (c : ascii) (s : str) : Z :=
  match s with
  | [] => -1
  | a :: s' =>
      let r := rfind c s' in
      if 0 <=? r then r + 1
      else if chr_eqb c a then 0 else -1
  end.

(** Clamping of a slice bound, as Python does: negative bounds count from
    the end, and every bound is brought back into [0, len]. *)
Definition clamp (len i : Z) : Z :=
  if i <? 0 then Z.max 0 (len + i) else Z.min i len.

(** [s[lo:hi]]; an omitted bound is [None]. *)
Definition slice (s : str) (lo hi : option Z) : str :=
  let len := Z.of_nat (length s) in
  let l := match lo with Some i => clamp len i | None => 0 end in
  let h := match hi with Some i => clamp len i | None => len end in
  take (Z.to_nat (h - l)) (drop (Z.to_nat l) s).

(** Python's [str.isspace] on one 8-bit character: the set [\s] of [re]
    for [str] patterns. *)
Definition isspace (a : ascii) : bool :=
  let n := N_of_ascii a in
  ((9 <=? n) && (n <=? 13) || (28 <=? n) && (n <=? 32)
   || (n =? 133) || (n =? 160))%N.

Fixpoint lstrip (s : str) : str :=
  match s with
  | a :: s' => if isspace a then lstrip s' else s
  | [] => []
  end.

(** [s.strip()] *)
Definition strip (s : str) : str := rev (lstrip (rev (lstrip s))).

(** [s.split(c)[0]]: the text before the first [c] (all of [s] when [c]
    does not occur). *)
Fixpoint split_first (c : ascii) (s : str) : str :=
  match s with
  | [] => []
  | a :: s' => if chr_eqb c a then [] else a :: split_first c s'
  end.

Fixpoint take_word (s : str) : str :=
  match s with
  | [] => []
  | a :: s' => if isspace a then [] else a :: take_word s'
  end.

(** [s.split()[0]]: the first whitespace-delimited word; [None] stands for
    the [IndexError] raised when [s] holds no word. *)
Definition split_ws_first (s : str) : option str :=
  match lstrip s with
  | [] => None
  | w => Some (take_word w)
  end.

(** [a < b] on strings: lexicographic on code points. *)
Fixpoint ltb (a b : str) : bool :=
  match a, b with
  | [], [] => false
  | [], _ :: _ => true
  | _ :: _, [] => false
  | x :: a', y :: b' =>
      if (N_of_ascii x <? N_of_ascii y)%N then true
      else if (N_of_ascii y <? N_of_ascii x)%N then false
      else ltb a' b'
  end.

Definition leb (a b : str) : bool := negb (ltb b a).

End PyStr.

(* ===================================================================== *)
(** * Regular expressions, as [re.fullmatch] runs them *)
(* ===================================================================== *)

Module Re.

(** An item of a bracketed set. *)
Inductive citem :=
| IChar (c : ascii)                 (* a single character *)
| IRange (lo hi : ascii).           (* lo-hi *)

(** Character sets. *)
Inductive cclass :=
| CDot                              (* .   any character but newline *)
| CSpace                            (* \s *)
| CChar (c : ascii)                 (* a literal or escaped character *)
| CSet (items : list citem).        (* [...] *)

Definition in_item (i : citem) (a : ascii) : bool :=
  match i with
  | IChar x => chr_eqb a x
  | IRange lo hi =>
      ((N_of_ascii lo <=? N_of_ascii a) && (N_of_ascii a <=? N_of_ascii hi))%N
  end.

Definition in_class (c : cclass) (a : ascii) : bool :=
  match c with
  | CDot => negb (chr_eqb a "010")
  | CSpace => PyStr.isspace a
  | CChar x => chr_eqb a x
  | CSet items => existsb (fun i => in_item i a) items
  end.

(** The patterns of the source use concatenation, alternation, capturing
    groups, and greedy repetition of a character set only. *)
Inductive regex :=
| REps
| RClass (c : cclass)
| RSeq (r1 r2 : regex)
| RAlt (r1 r2 : regex)
| RRep (c : cclass) (lo : nat) (hi : option nat)   (* c{lo,hi}; hi = None: unbounded *)
| RGroup (i : nat) (r : regex).                    (* i-th entry of groups() *)

(** A literal text. *)
Definition RLit (x : string) : regex :=
  foldr (fun a r => RSeq (RClass (CChar a)) r) REps (py x).

Definition groups := list (option str).

Section Backtracking.
Context {A : Type}.

(** Greedy repetition: take one more character whenever allowed, and
    fall back to stopping here when the rest then fails. *)
Fixpoint rep_bt (c : cclass) (lo : nat) (hi : option nat) (s : str)
    (k : str → option A) : option A :=
  let stop := match lo with O => k s | S _ => None end in
  match s with
  | [] => stop
  | a :: s' =>
      if in_class c a && negb (bool_decide (hi = Some O)) then
        match rep_bt c (Nat.pred lo) (Nat.pred <$> hi) s' k with
        | Some r => Some r
        | None => stop
        end
      else stop
  end.
End Backtracking.

(** The backtracking matcher: [k] is what remains to be matched after [r];
    the first alternative is tried first. *)
Fixpoint bt (r : regex) (s : str) (g : groups)
    (k : str → groups → option groups) : option groups :=
  match r with
  | REps => k s g
  | RClass c =>
      match s with
      | a :: s' => if in_class c a then k s' g else None
      | [] => None
      end
  | RSeq r1 r2 => bt r1 s g (fun s' g' => bt r2 s' g' k)
  | RAlt r1 r2 =>
      match bt r1 s g k with
      | Some x => Some x
      | None => bt r2 s g k
      end
  | RRep c lo hi => rep_bt c lo hi s (fun s' => k s' g)
  | RGroup i r =>
      bt r s g (fun s' g' =>
        k s' (<[i := Some (take (length s - length s') s)]> g'))
  end.

(** [re.fullmatch(r, s)] for a pattern with [n] groups: [None], or the
    tuple [groups()] of the match. *)
Definition fullmatch (n : nat) (r : regex) (s : str) : option groups :=
  bt r s (replicate n None)
     (fun s' g => match s' with [] => Some g | _ => None end).

End Re.

(* ===================================================================== *)
(** * Exceptions and fallible code *)
(* ===================================================================== *)

Inductive exn :=
| SyntaxError (msg : str)
| RuntimeError (msg : str)
| KeyError (key : str)
| IndexError
| TypeError
| EvalError (source : str).   (* [eval] left the modelled fragment of Python *)

Definition result (A : Type) : Type := exn + A.
Definition Ok {A} (a : A) : result A := inr a.
Definition Err {A} (e : exn) : result A := inl e.

Definition rbind {A B} (x : result A) (f : A → result B) : result B :=
  match x with
  | inl e => inl e
  | inr a => f a
  end.

Declare Scope result_scope.
Delimit Scope result_scope with R.
Notation "x ← y ; z" := (rbind y (fun x => z))
  (at level 20, y at level 100, z at level 200, only parsing) : result_scope.

(** A list comprehension whose element expression may raise: the first
    exception ends it. *)
Fixpoint rmap {A B} (f : A → result B) (l : list A) : result (list B) :=
  match l with
  | [] => Ok []
  | a :: l' => (b ← f a; bs ← rmap f l'; Ok (b :: bs))%R
  end.

(* ===================================================================== *)
(** * wedmakefile_parser.py *)
(* ===================================================================== *)

Import Re.
Infix "+>" := RSeq (at level 60, right associativity).

(** ** class Variable *)

Module Variable_.

Record t := mk { _identifier : str }.

#[global] Instance eq_dec : EqDecision t.
Proof. solve_decision. Defined.
#[global] Instance countable : Countable t.
Proof. apply (inj_countable' _identifier mk). by intros []. Defined.

Definition alpha : cclass := CSet [IRange "a" "z"; IRange "A" "Z"].
Definition alnum : cclass := CSet [IRange "a" "z"; IRange "A" "Z"; IRange "0" "9"].
Definition word : cclass :=
  CSet [IChar "_"; IRange "a" "z"; IRange "A" "Z"; IRange "0" "9"].

(** [IDENTIFIER = r"[a-zA-Z][_a-zA-Z0-9]{0,62}[a-zA-Z0-9]|[a-zA-Z]"] *)
Definition IDENTIFIER : regex :=
  RAlt (RClass alpha +> RRep word 0 (Some 62%nat) +> RClass alnum)
       (RClass alpha).

(** [VALUE = r".{0,2048}"] *)
Definition VALUE : regex := RRep CDot 0 (Some 2048%nat).

Definition is_valid_identifier (identifier : str) : bool :=
  bool_decide (is_Some (fullmatch 0 IDENTIFIER identifier)).

Definition validate_identifier (identifier : str) : result str :=
  if is_valid_identifier identifier then Ok identifier
  else Err (SyntaxError (py
    "A variable identifier must have at most 64 alphanumeric and underscore characters, necessarily starting with an alphabetic character and not ending with an underscore character.")).

Definition is_valid_value (value : str) : bool :=
  bool_decide (is_Some (fullmatch 0 VALUE value)).

Definition validate_value (value : str) : result str :=
  if is_valid_value value then Ok value
  else Err (SyntaxError (py
    "A value assigned to a variable must have at most 2048 characters, except newlines.")).

(** [Variable(identifier)] *)
Definition init (identifier : str) : result t :=
  (i ← validate_identifier identifier; Ok (mk i))%R.

(** [__lt__] and [__eq__] *)
Definition lt (self other : t) : bool :=
  PyStr.ltb (_identifier self) (_identifier other).
Definition eq (self other : t) : bool :=
  bool_decide (_identifier self = _identifier other).

Definition identifier (self : t) : str := _identifier self.

Definition namespace (self : t) : str :=
  if PyStr.contains "_" (_identifier self)
  then PyStr.slice (_identifier self) None (Some (PyStr.rfind "_" (_identifier self)))
  else PyStr.empty.

End Variable_.

(** [sorted(l)] on variables: ordered by [__lt__]. *)
Definition Variable_le (v w : Variable_.t) : Prop := Variable_.lt w v = false.
Global Instance Variable_le_dec v w : Decision (Variable_le v w).
Proof. unfold Variable_le. apply _. Defined.

Definition sorted (l : list Variable_.t) : list Variable_.t := merge_sort Variable_le l.

(** [v in l] on a list of variables, by [__eq__]. *)
Definition Variable_in (v : Variable_.t) (l : list Variable_.t) : bool :=
  existsb (Variable_.eq v) l.

(** ** class Dependency *)

Module Dependency.

Record t := mk { _clause : str }.

Definition quoted_value : regex :=
  RAlt (RClass (CChar "'") +> Variable_.VALUE +> RClass (CChar "'"))
       (RClass (CChar dquote) +> Variable_.VALUE +> RClass (CChar dquote)).

(** [\$(IDENTIFIER)\s*=\s*('VALUE'|"VALUE")] *)
Definition EQUALITY_CLAUSE : regex :=
  RClass (CChar "$") +> RGroup 0 Variable_.IDENTIFIER +> RRep CSpace 0 None
  +> RLit "=" +> RRep CSpace 0 None +> RGroup 1 quoted_value.

(** [\$(IDENTIFIER)\s*!=\s*('VALUE'|"VALUE")] *)
Definition INEQUALITY_CLAUSE : regex :=
  RClass (CChar "$") +> RGroup 0 Variable_.IDENTIFIER +> RRep CSpace 0 None
  +> RLit "!=" +> RRep CSpace 0 None +> RGroup 1 quoted_value.

Definition bracketed : regex :=
  RClass (CChar "[") +> RRep CDot 1 None +> RClass (CChar "]").

(** [\$(IDENTIFIER)\s+in\s+(\[.+\])] *)
Definition MEMBERSHIP_CLAUSE : regex :=
  RClass (CChar "$") +> RGroup 0 Variable_.IDENTIFIER +> RRep CSpace 1 None
  +> RLit "in" +> RRep CSpace 1 None +> RGroup 1 bracketed.

(** [\$(IDENTIFIER)\s+not\s+in\s+(\[.+\])] *)
Definition NOMEMBERSHIP_CLAUSE : regex :=
  RClass (CChar "$") +> RGroup 0 Variable_.IDENTIFIER +> RRep CSpace 1 None
  +> RLit "not" +> RRep CSpace 1 None +> RLit "in" +> RRep CSpace 1 None
  +> RGroup 1 bracketed.

Definition is_equality_clause (clause : str) : bool :=
  bool_decide (is_Some (fullmatch 2 EQUALITY_CLAUSE clause)).
Definition is_inequality_clause (clause : str) : bool :=
  bool_decide (is_Some (fullmatch 2 INEQUALITY_CLAUSE clause)).
Definition is_membership_clause (clause : str) : bool :=
  bool_decide (is_Some (fullmatch 2 MEMBERSHIP_CLAUSE clause)).
Definition is_nomembership_clause (clause : str) : bool :=
  bool_decide (is_Some (fullmatch 2 NOMEMBERSHIP_CLAUSE clause)).

Definition validate_clause (clause : str) : result str :=
  if is_equality_clause clause || is_inequality_clause clause
     || is_membership_clause clause || is_nomembership_clause clause
  then Ok clause
  else Err (SyntaxError (py "Invalid dependency clause.")).

(** [Dependency(clause)] *)
Definition init (clause : str) : result t :=
  (c ← validate_clause clause; Ok (mk c))%R.

Definition clause (self : t) : str := _clause self.

(** [on_variable]. When no form matches the method falls off its end and
    returns [None], on which every caller then fails; that is the
    [TypeError] here. [split()[0]] raises [IndexError] on a blank text. *)
Definition on_variable (self : t) : result Variable_.t :=
  let c := _clause self in
  if is_equality_clause c then
    Variable_.init (PyStr.slice (PyStr.strip (PyStr.split_first "=" c)) (Some 1) None)
  else if is_inequality_clause c then
    Variable_.init (PyStr.slice (PyStr.strip (PyStr.split_first "!" c)) (Some 1) None)
  else if is_membership_clause c then
    match PyStr.split_ws_first c with
    | Some w => Variable_.init (PyStr.slice w (Some 1) None)
    | None => Err IndexError
    end
  else if is_nomembership_clause c then
    match PyStr.split_ws_first c with
    | Some w => Variable_.init (PyStr.slice w (Some 1) None)
    | None => Err IndexError
    end
  else Err TypeError.

End Dependency.

(** ** class Guard *)

(** The [clauses] argument, as the YAML loader delivers it: one clause or a
    list of clauses. *)
Inductive clauses_arg :=
| Scalar (clause : str)
| ClauseList (clauses : list str).

Module Guard.

Record t := mk { _dependencies : list Dependency.t }.

Definition validate_dependencies (dependencies : list Dependency.t)
    : result (list Dependency.t) :=
  if bool_decide (length dependencies ≤ 256)%nat then Ok dependencies
  else Err (SyntaxError (py "A guard must have at most 256 dependencies.")).

(** [clauses if isinstance(clauses, list) else [clauses]] *)
Definition clause_list (clauses : clauses_arg) : list str :=
  match clauses with
  | ClauseList l => l
  | Scalar c => [c]
  end.

(** [Guard(clauses)] *)
Definition init (clauses : clauses_arg) : result t :=
  (ds ← rmap Dependency.init (clause_list clauses);
   ds' ← validate_dependencies ds;
   Ok (mk ds'))%R.

Definition dependencies (self : t) : list Dependency.t := _dependencies self.

(** [on_variables(namespace=None)] *)
Definition on_variables (self : t) (namespace : option str)
    : result (list Variable_.t) :=
  (vs ← rmap Dependency.on_variable (_dependencies self);
   Ok (sorted (filter
         (fun variable => namespace = None ∨ Some (Variable_.namespace variable) = namespace)
         (elements (list_to_set (C := gset Variable_.t) vs)))))%R.

End Guard.

(** ** class Task *)

Module Task.

Record t := mk { _name : str; _guard : Guard.t; _bash_script : str }.

(** [NAME = r"[a-zA-Z][_a-zA-Z0-9]{0,62}[a-zA-Z0-9]|[a-zA-Z]"] *)
Definition NAME : regex :=
  RAlt (RClass Variable_.alpha +> RRep Variable_.word 0 (Some 62%nat)
        +> RClass Variable_.alnum)
       (RClass Variable_.alpha).

Definition is_valid_name (name : str) : bool :=
  bool_decide (is_Some (fullmatch 0 NAME name)).

Definition validate_name (name : str) : result str :=
  if is_valid_name name then Ok name
  else Err (SyntaxError (py
    "A task name must have at most 64 alphanumeric and underscore characters, necessarily starting with an alphabetic character and not ending with an underscore character.")).

(** [Task(name, guard, bash_script)] *)
Definition init (name : str) (guard : Guard.t) (bash_script : str) : result t :=
  (n ← validate_name name; Ok (mk n guard bash_script))%R.

Definition name (self : t) : str := _name self.
Definition guard (self : t) : Guard.t := _guard self.
Definition bash_script (self : t) : str := _bash_script self.

End Task.

(** ** class WEDMakefile *)


(** The document [yaml.load] returns. *)
Record yaml_task := { y_name : str; y_guard : clauses_arg; y_bash : str }.
Record yaml_doc := {
  y_initial_guard : clauses_arg;
  y_final_guard : clauses_arg;
  y_tasks : list yaml_task
}.

Module WEDMakefile.

Record t := mk {
  _initial_guard : Guard.t;
  _final_guard : Guard.t;
  _tasks : list Task.t
}.

(** [WEDMakefile(path)], from the parsed document of the file. *)
Definition init (wedmakefile : yaml_doc) : result t :=
  (ig ← Guard.init (y_initial_guard wedmakefile);
   fg ← Guard.init (y_final_guard wedmakefile);
   ts ← rmap (fun task =>
                g ← Guard.init (y_guard task);
                Task.init (y_name task) g (y_bash task))
             (y_tasks wedmakefile);
   Ok (mk ig fg ts))%R.

Definition initial_guard (self : t) : Guard.t := _initial_guard self.
Definition final_guard (self : t) : Guard.t := _final_guard self.
Definition tasks (self : t) : list Task.t := _tasks self.

(** [variables(namespace=None)] *)
Definition variables (self : t) (namespace : option str)
    : result (list Variable_.t) :=
  (iv ← Guard.on_variables (_initial_guard self) None;
   fv ← Guard.on_variables (_final_guard self) None;
   tv ← rmap (fun task => Guard.on_variables (Task.guard task) None) (_tasks self);
   Ok (sorted (filter
         (fun variable => namespace = None ∨ Some (Variable_.namespace variable) = namespace)
         (elements (list_to_set (C := gset Variable_.t) (iv ++ fv ++ concat tv))))))%R.

End WEDMakefile.

(* ===================================================================== *)
(** * py_runtime.py *)
(* ===================================================================== *)

(** ** Insertion-ordered dictionaries *)

Definition pydict (V : Type) : Type := list (str * V).

Module PyDict.
Section Dict.
Context {V : Type}.

(** [d.get(k)] *)
Fixpoint get (d : pydict V) (k : str) : option V :=
  match d with
  | [] => None
  | (k', v) :: d' => if decide (k' = k) then Some v else get d' k
  end.

(** [d[k] = v]: an existing key keeps its place, a new one goes last. *)
Fixpoint setitem (d : pydict V) (k : str) (v : V) : pydict V :=
  match d with
  | [] => [(k, v)]
  | (k', v') :: d' =>
      if decide (k' = k) then (k', v) :: d' else (k', v') :: setitem d' k v
  end.

(** [d.update(other)] *)
Definition update (d other : pydict V) : pydict V :=
  foldl (fun acc kv => setitem acc kv.1 kv.2) d other.

Definition keys (d : pydict V) : list str := d.*1.
End Dict.
End PyDict.

(** ** class PyExperimentInstanceState *)

(** The permission strings ["rw"] and ["ro"] (the only two that
    [from_bash_script] lets through). *)
Inductive permission := rw | ro.

Global Instance permission_eq_dec : EqDecision permission.
Proof. solve_decision. Defined.

Module PyExperimentInstanceState.

(** A [dict] subclass: the inherited mapping from identifier to value, and
    the attribute [_permission]. *)
Record t := mk {
  items : pydict str;
  _permission : pydict permission
}.

(** [PyExperimentInstanceState()] *)
Definition init : t := mk [] [].

(** [self.get(k, default)] *)
Definition get (self : t) (k : str) (default : str) : str :=
  match PyDict.get (items self) k with
  | Some v => v
  | None => default
  end.

Definition is_readonly (self : t) (variable_identifier : str) : bool :=
  bool_decide (default rw (PyDict.get (_permission self) variable_identifier) = ro).

Definition is_readwrite (self : t) (variable_identifier : str) : bool :=
  negb (is_readonly self variable_identifier).

Definition update (self other : t) : t :=
  mk (PyDict.update (items self) (items other))
     (PyDict.update (_permission self) (_permission other)).

(** [d[k]], which raises [KeyError] on a missing key. *)
Definition perm_at (self : t) (k : str) : result permission :=
  match PyDict.get (_permission self) k with
  | Some p => Ok p
  | None => Err (KeyError k)
  end.

Fixpoint diff_loop (self other : t) (todo : pydict str) (diff_state : t) : result t :=
  match todo with
  | [] => Ok diff_state
  | (variable_identifier, variable_value) :: todo' =>
      (changed ←
         (if bool_decide (PyDict.get (items other) variable_identifier ≠ Some variable_value)
          then Ok true
          else (po ← perm_at other variable_identifier;
                ps ← perm_at self variable_identifier;
                Ok (bool_decide (po ≠ ps))));
       if (changed : bool) then
         (ps ← perm_at self variable_identifier;
          diff_loop self other todo'
            (mk (PyDict.setitem (items diff_state) variable_identifier variable_value)
                (PyDict.setitem (_permission diff_state) variable_identifier ps)))
       else diff_loop self other todo' diff_state)%R
  end.

Definition diff (self other : t) : result t :=
  diff_loop self other (items self) init.

End PyExperimentInstanceState.

(** ** [eval] on the list text of a membership clause

    The fragment of Python expressions modelled: a list display whose
    elements are string literals in single or double quotes, holding no
    backslash, newline, carriage return, NUL or closing quote, separated
    by commas, with blanks and tabs between tokens and an optional trailing
    comma. On it [eval] returns the list of the texts between the quotes.
    Every other text is outside the fragment. *)

Module PyEval.

Inductive state :=
| BeforeItem
| InString (quote : ascii) (acc : str)
| AfterItem
| Closed.

Definition blank (a : ascii) : bool := chr_eqb a " " || chr_eqb a "009".

Definition plain (quote a : ascii) : bool :=
  negb (chr_eqb a quote || chr_eqb a "\" || chr_eqb a "010"
        || chr_eqb a "013" || chr_eqb a "000").

Fixpoint scan (st : state) (done : list str) (s : str) : option (list str) :=
  match s with
  | [] => match st with Closed => Some (rev done) | _ => None end
  | a :: s' =>
      match st with
      | BeforeItem =>
          if blank a then scan BeforeItem done s'
          else if chr_eqb a "'" || chr_eqb a dquote then scan (InString a []) done s'
          else if chr_eqb a "]" then scan Closed done s'
          else None
      | InString q acc =>
          if chr_eqb a q then scan AfterItem (rev acc :: done) s'
          else if plain q a then scan (InString q (a :: acc)) done s'
          else None
      | AfterItem =>
          if blank a then scan AfterItem done s'
          else if chr_eqb a "," then scan BeforeItem done s'
          else if chr_eqb a "]" then scan Closed done s'
          else None
      | Closed => None
      end
  end.

(** [eval(source)], where it is a list of plain string literals. *)
Definition eval_list (source : str) : result (list str) :=
  match source with
  | "["%char :: s =>
      match scan BeforeItem [] s with
      | Some l => Ok l
      | None => Err (EvalError source)
      end
  | _ => Err (EvalError source)
  end.

End PyEval.

(** ** class PyDependency *)

Module PyDependency.

(** [match.groups()[i]] *)
Definition group (g : groups) (i : nat) : result str :=
  match g !! i with
  | Some (Some s) => Ok s
  | _ => Err TypeError
  end.

(** [is_satisfied_by]: [Some b] is the Boolean returned; [None] is the
    [None] returned when the method falls off its end. *)
Definition is_satisfied_by (self : Dependency.t) (ei_state : PyExperimentInstanceState.t)
    : result (option bool) :=
  match fullmatch 2 Dependency.EQUALITY_CLAUSE (Dependency.clause self) with
  | Some equality_match =>
      (variable_identifier ← group equality_match 0;
       g1 ← group equality_match 1;
       let variable_value := PyStr.slice g1 (Some 1) (Some (-1)) in
       if bool_decide (PyExperimentInstanceState.get ei_state variable_identifier PyStr.empty
                       ≠ variable_value)
       then Ok (Some false) else Ok (Some true))%R
  | None =>
  match fullmatch 2 Dependency.INEQUALITY_CLAUSE (Dependency.clause self) with
  | Some inequality_match =>
      (variable_identifier ← group inequality_match 0;
       g1 ← group inequality_match 1;
       let variable_value := PyStr.slice g1 (Some 1) (Some (-1)) in
       if bool_decide (PyExperimentInstanceState.get ei_state variable_identifier PyStr.empty
                       = variable_value)
       then Ok (Some false) else Ok (Some true))%R
  | None =>
  match fullmatch 2 Dependency.MEMBERSHIP_CLAUSE (Dependency.clause self) with
  | Some membership_match =>
      (variable_identifier ← group membership_match 0;
       variable_values ← group membership_match 1;
       values ← PyEval.eval_list variable_values;
       if bool_decide (PyExperimentInstanceState.get ei_state variable_identifier PyStr.empty
                       ∉ values)
       then Ok (Some false) else Ok (Some true))%R
  | None =>
  match fullmatch 2 Dependency.NOMEMBERSHIP_CLAUSE (Dependency.clause self) with
  | Some nomembership_match =>
      (variable_identifier ← group nomembership_match 0;
       variable_values ← group nomembership_match 1;
       values ← PyEval.eval_list variable_values;
       if bool_decide (PyExperimentInstanceState.get ei_state variable_identifier PyStr.empty
                       ∈ values)
       then Ok (Some false) else Ok (Some true))%R
  | None => Ok None
  end end end end.

(** [not x] on what [is_satisfied_by] returned: [None] is falsy. *)
Definition py_not (x : option bool) : bool :=
  match x with
  | Some b => negb b
  | None => true
  end.

End PyDependency.

(** ** class PyExperimentInstance *)

(** An operation on a [threading.Lock] of the lock table, as recorded in the
    history of the instance. *)
Inductive lock_event :=
| EvAcquire (identifier : str) (acquired : bool)   (* acquire(blocking=False) and its result *)
| EvRelease (identifier : str).

Module PyExperimentInstance.

(** The attributes read by the scheduler operations. [_variable_locks]
    maps an identifier to its lock ([true]: locked); [_ei_lock] is the
    class-level lock; [lock_history] is the history of the operations on
    the lock table, latest last. The log directory and the verbosity flag
    only steer what is printed and are left out. *)
Record t := mk {
  _wedmakefile : WEDMakefile.t;
  _state : PyExperimentInstanceState.t;
  _exceptions : list exn;
  _variable_locks : gmap str bool;
  _ei_lock : bool;
  lock_history : list lock_event
}.

(** *** The monad of its methods *)

Inductive outcome (A : Type) :=
| Returns (a : A) (self : t)
| Raises (e : exn) (self : t)
| Blocks (self : t).            (* waits forever on a lock that is held *)
Arguments Returns {A}.
Arguments Raises {A}.
Arguments Blocks {A}.

Definition M (A : Type) : Type := t → outcome A.

Definition ret {A} (a : A) : M A := fun self => Returns a self.
Definition raise {A} (e : exn) : M A := fun self => Raises e self.
Definition bind {A B} (m : M A) (f : A → M B) : M B :=
  fun self =>
    match m self with
    | Returns a self' => f a self'
    | Raises e self' => Raises e self'
    | Blocks self' => Blocks self'
    end.
Definition lift {A} (r : result A) : M A :=
  match r with
  | inl e => raise e
  | inr a => ret a
  end.
Definition read {A} (f : t → A) : M A := fun self => Returns (f self) self.
Definition modify (f : t → t) : M unit := fun self => Returns tt (f self).

Declare Scope M_scope.
Delimit Scope M_scope with M.
Notation "x ← y ; z" := (bind y (fun x => z))
  (at level 20, y at level 100, z at level 200, only parsing) : M_scope.
Notation "y ;; z" := (bind y (fun _ => z))
  (at level 100, z at level 200, only parsing, right associativity) : M_scope.
Local Open Scope M_scope.

Definition set_locks (f : gmap str bool → gmap str bool) (ev : lock_event) (self : t) : t :=
  mk (_wedmakefile self) (_state self) (_exceptions self)
     (f (_variable_locks self)) (_ei_lock self) (lock_history self ++ [ev]).
Definition set_ei_lock (b : bool) (self : t) : t :=
  mk (_wedmakefile self) (_state self) (_exceptions self)
     (_variable_locks self) b (lock_history self).
Definition set_state (s : PyExperimentInstanceState.t) (self : t) : t :=
  mk (_wedmakefile self) s (_exceptions self)
     (_variable_locks self) (_ei_lock self) (lock_history self).
Definition append_exception (e : exn) (self : t) : t :=
  mk (_wedmakefile self) (_state self) (_exceptions self ++ [e])
     (_variable_locks self) (_ei_lock self) (lock_history self).

(** *** Locks *)

(** [self._variable_locks[identifier].acquire(blocking=False)] *)
Definition acquire_nonblocking (identifier : str) : M bool :=
  fun self =>
    match _variable_locks self !! identifier with
    | None => Raises (KeyError identifier) self
    | Some true => Returns false (set_locks id (EvAcquire identifier false) self)
    | Some false =>
        Returns true (set_locks <[identifier := true]> (EvAcquire identifier true) self)
    end.

(** [self._variable_locks[identifier].release()] *)
Definition release (identifier : str) : M unit :=
  fun self =>
    match _variable_locks self !! identifier with
    | None => Raises (KeyError identifier) self
    | Some false => Raises (RuntimeError (py "release unlocked lock")) self
    | Some true =>
        Returns tt (set_locks <[identifier := false]> (EvRelease identifier) self)
    end.

(** [_ei_lock.acquire()] and [_ei_lock.release()] *)
Definition ei_lock_acquire : M unit :=
  fun self => if _ei_lock self then Blocks self else Returns tt (set_ei_lock true self).
Definition ei_lock_release : M unit :=
  fun self =>
    if _ei_lock self then Returns tt (set_ei_lock false self)
    else Raises (RuntimeError (py "release unlocked lock")) self.

(** [CSDecorator(_ei_lock)]: no [finally], so an exception of [f] leaves
    the lock held. *)
Definition CSDecorator {A} (f : M A) : M A :=
  ei_lock_acquire;; res ← f; ei_lock_release;; ret res.

(** [vars[j]] *)
Definition index (vars : list Variable_.t) (j : nat) : M Variable_.t :=
  match vars !! j with
  | Some v => ret v
  | None => raise IndexError
  end.

(** [j = 0; while j < i: locks[vars[j].identifier()].release(); j += 1],
    with [todo = i - j] iterations left. *)
Fixpoint release_while (vars : list Variable_.t) (j todo : nat) : M unit :=
  match todo with
  | O => ret tt
  | S todo' =>
      v ← index vars j;
      release (Variable_.identifier v);;
      release_while vars (S j) todo'
  end.

(** The acquisition loop that opens [is_in_final_state],
    [is_in_inconsistent_state], [is_ready_to_execute_task] and
    [execute_task]: [for (i, variable) in enumerate(vars)], from index [i]
    on. [false] is the early [return False], which [on_failure] precedes. *)
Fixpoint acquire_loop (vars : list Variable_.t) (on_failure : M unit)
    (i : nat) (rest : list Variable_.t) : M bool :=
  match rest with
  | [] => ret true
  | variable :: rest' =>
      ok ← acquire_nonblocking (Variable_.identifier variable);
      if (ok : bool) then acquire_loop vars on_failure (S i) rest'
      else release_while vars 0 i;; on_failure;; ret false
  end.

(** [for variable in vars: locks[variable.identifier()].release()] *)
Fixpoint release_all (vars : list Variable_.t) : M unit :=
  match vars with
  | [] => ret tt
  | variable :: vars' =>
      release (Variable_.identifier variable);; release_all vars'
  end.

(** *** Guard loops *)

(** [for dependency in deps: if not is_satisfied_by(...): flag = False],
    which visits every dependency. *)
Fixpoint all_satisfied_loop (deps : list Dependency.t) (flag : bool) : M bool :=
  match deps with
  | [] => ret flag
  | dependency :: deps' =>
      st ← read _state;
      r ← lift (PyDependency.is_satisfied_by dependency st);
      all_satisfied_loop deps' (if PyDependency.py_not r then false else flag)
  end.

(** [for dependency in deps: if not is_satisfied_by(...): break] with its
    [else] branch: [true] when the loop ran to its end. *)
Fixpoint no_break_loop (deps : list Dependency.t) : M bool :=
  match deps with
  | [] => ret true
  | dependency :: deps' =>
      st ← read _state;
      r ← lift (PyDependency.is_satisfied_by dependency st);
      if PyDependency.py_not r then ret false else no_break_loop deps'
  end.

(** [for task in tasks: for ...: break / else: trigger_task = True] *)
Fixpoint trigger_loop (tasks : list Task.t) (trigger_task : bool) : M bool :=
  match tasks with
  | [] => ret trigger_task
  | task :: tasks' =>
      completed ← no_break_loop (Guard.dependencies (Task.guard task));
      trigger_loop tasks' (if (completed : bool) then true else trigger_task)
  end.

(** *** Methods *)

Definition is_in_final_state : M bool :=
  CSDecorator (
    w ← read _wedmakefile;
    vars ← lift (WEDMakefile.variables w None);
    acquired ← acquire_loop vars (ret tt) 0 vars;
    if (acquired : bool) then
      is_in_final_state ← all_satisfied_loop
        (Guard.dependencies (WEDMakefile.final_guard w)) true;
      release_all vars;;
      ret is_in_final_state
    else ret false).

Definition is_in_inconsistent_state : M bool :=
  CSDecorator (
    w ← read _wedmakefile;
    vars ← lift (WEDMakefile.variables w None);
    acquired ← acquire_loop vars (ret tt) 0 vars;
    if (acquired : bool) then
      is_in_final_state ← all_satisfied_loop
        (Guard.dependencies (WEDMakefile.final_guard w)) true;
      trigger_task ← trigger_loop (WEDMakefile.tasks w) false;
      release_all vars;;
      ret (negb is_in_final_state && negb trigger_task)
    else ret false).

Definition is_ready_to_execute_task (task : Task.t) : M bool :=
  CSDecorator (
    vars ← lift (Guard.on_variables (Task.guard task) None);
    acquired ← acquire_loop vars (ret tt) 0 vars;
    if (acquired : bool) then
      is_ready_to_execute_task ← all_satisfied_loop
        (Guard.dependencies (Task.guard task)) true;
      release_all vars;;
      ret is_ready_to_execute_task
    else ret false).

(** [[task for task in tasks if self.is_ready_to_execute_task(task)]] *)
Fixpoint ready_loop (tasks : list Task.t) : M (list Task.t) :=
  match tasks with
  | [] => ret []
  | task :: tasks' =>
      ready ← is_ready_to_execute_task task;
      rest ← ready_loop tasks';
      ret (if (ready : bool) then task :: rest else rest)
  end.

Definition ready_to_execute_tasks : M (list Task.t) :=
  w ← read _wedmakefile; ready_loop (WEDMakefile.tasks w).

(** *** [execute_task] *)

Section ExecuteTask.

(** The run of the task's script: [from_bash_script] applied to the
    prelude and body of [task] and to the triples (identifier, value,
    permission) of its [on_variables]. It returns the state captured from
    the script's output, or raises. The rendering of the command line
    and the names of the log files are left out. *)
Variable from_bash_script :
  Task.t → list (str * str * permission) → result PyExperimentInstanceState.t.

Definition TaskExecutionError (task : Task.t) : exn :=
  RuntimeError (py "TaskExecutionError: Error while executing task "
                ++ Task.name task ++ py ".").

Definition UndeclaredDependency (variable_identifier : str) (task : Task.t) : exn :=
  RuntimeError (py "UndeclaredDependency: Variable " ++ variable_identifier
                ++ py " was not declared as a dependency of task "
                ++ Task.name task ++ py ".").

(** The argument triples of the script. *)
Definition script_args (st : PyExperimentInstanceState.t) (vars : list Variable_.t)
    : list (str * str * permission) :=
  (fun variable =>
     (Variable_.identifier variable,
      PyExperimentInstanceState.get st (Variable_.identifier variable) PyStr.empty,
      if PyExperimentInstanceState.is_readonly st (Variable_.identifier variable)
      then ro else rw)) <$> vars.

(** [for variable_identifier, variable_value in other_state.items()]:
    [true] when the loop ran to its end, [false] after the [break]. *)
Fixpoint undeclared_loop (task : Task.t) (vars : list Variable_.t)
    (todo : pydict str) : M bool :=
  match todo with
  | [] => ret true
  | (variable_identifier, _) :: todo' =>
      v ← lift (Variable_.init variable_identifier);
      if negb (Variable_in v vars) then
        modify (append_exception (UndeclaredDependency variable_identifier task));;
        ret false
      else undeclared_loop task vars todo'
  end.

Definition execute_task (task : Task.t) : M bool :=
  ei_lock_acquire;;
  vars ← lift (Guard.on_variables (Task.guard task) None);
  acquired ← acquire_loop vars ei_lock_release 0 vars;
  if (acquired : bool) then
    ei_lock_release;;
    satisfied ← no_break_loop (Guard.dependencies (Task.guard task));
    execute_task ←
      (if (satisfied : bool) then
         st ← read _state;
         match from_bash_script task (script_args st vars) with
         | inl _ =>
             modify (append_exception (TaskExecutionError task));;
             ret false
         | inr other_state =>
             declared ← undeclared_loop task vars
                          (PyExperimentInstanceState.items other_state);
             if (declared : bool) then
               st' ← read _state;
               _ ← lift (PyExperimentInstanceState.diff other_state st');
               ei_lock_acquire;;
               modify (fun self =>
                 set_state (PyExperimentInstanceState.update (_state self) other_state)
                           self);;
               ei_lock_release;;
               ret true
             else ret false
         end
       else ret false);
    release_all vars;;
    ret execute_task
  else ret false.

End ExecuteTask.

(** *** [__init__] *)

Definition UnsatisfiedInitialGuard (dependency : Dependency.t) : exn :=
  RuntimeError (py "UnsatisfiedInitialGuard: The initial state does not satisfy dependency "
                ++ Dependency.clause dependency ++ py ".").

(** [for dependency in initial_guard.dependencies(): if not ...: raise] *)
Fixpoint initial_guard_loop (deps : list Dependency.t)
    (st : PyExperimentInstanceState.t) : result unit :=
  match deps with
  | [] => Ok tt
  | dependency :: deps' =>
      (r ← PyDependency.is_satisfied_by dependency st;
       if PyDependency.py_not r then Err (UnsatisfiedInitialGuard dependency)
       else initial_guard_loop deps' st)%R
  end.

(** [PyExperimentInstance(wedmakefile, config_path, log, verbose)], from
    the state [config_state] that [from_bash_script] captured from the
    configuration file. Every lock of the table is created unlocked. *)
Definition init (wedmakefile : WEDMakefile.t)
    (config_state : PyExperimentInstanceState.t) : result t :=
  (_ ← initial_guard_loop
         (Guard.dependencies (WEDMakefile.initial_guard wedmakefile)) config_state;
   vars ← WEDMakefile.variables wedmakefile None;
   Ok (mk wedmakefile config_state []
          (list_to_map ((fun variable => (Variable_.identifier variable, false)) <$> vars))
          false []))%R.

End PyExperimentInstance.

(* ===================================================================== *)
(** * Worked instances *)
(* ===================================================================== *)

(** Scenario 1 of the specification, the linear pipeline: task [A] runs on
    [S = init] and leaves [S = mid] read-only; task [B] runs on [S = mid]
    and assigns [S = done]. *)
Module Pipeline.

Definition doc : yaml_doc := {|
  y_initial_guard := Scalar (py "$S = 'init'");
  y_final_guard := Scalar (py "$S = 'done'");
  y_tasks := [
    {| y_name := py "A"; y_guard := Scalar (py "$S = 'init'");
       y_bash := py "readonly S=mid" |};
    {| y_name := py "B"; y_guard := Scalar (py "$S = 'mid'");
       y_bash := py "S=done" |} ]
|}.

Definition guard_of (clause : string) : Guard.t :=
  Guard.mk [Dependency.mk (py clause)].

Definition task_A : Task.t := Task.mk (py "A") (guard_of "$S = 'init'") (py "readonly S=mid").
Definition task_B : Task.t := Task.mk (py "B") (guard_of "$S = 'mid'") (py "S=done").

(** What [WEDMakefile.init doc] returns. *)
Definition wedmakefile : WEDMakefile.t :=
  WEDMakefile.mk (guard_of "$S = 'init'") (guard_of "$S = 'done'") [task_A; task_B].

Definition state_of (value : string) (p : permission) : PyExperimentInstanceState.t :=
  PyExperimentInstanceState.mk [(py "S", py value)] [(py "S", p)].

(** The instance after task [A]: [S = mid], read-only, every lock free. *)
Definition after_A : PyExperimentInstance.t :=
  PyExperimentInstance.mk wedmakefile (state_of "mid" ro) []
    {[ py "S" := false ]} false [].

(** The same instance while another worker holds the lock of [S]. *)
Definition after_A_busy : PyExperimentInstance.t :=
  PyExperimentInstance.mk wedmakefile (state_of "mid" ro) []
    {[ py "S" := true ]} false [].

(** A script run that hands back [S = done]. *)
Definition script_done (_ : Task.t) (_ : list (str * str * permission))
    : result PyExperimentInstanceState.t :=
  Ok (state_of "done" rw).

(** A script run that hands back the read-only [S = mid] it was given, as
    the capture of a body that assigns nothing does. *)
Definition script_same (_ : Task.t) (_ : list (str * str * permission))
    : result PyExperimentInstanceState.t :=
  Ok (state_of "mid" ro).


End Pipeline.

(** Scenario 3 of the specification, the stuck workflow: [A = 1], the only
    task waits for [A = 2] and the final guard for [A = 3]. *)
Module Stuck.

Definition task_T : Task.t :=
  Task.mk (py "T") (Guard.mk [Dependency.mk (py "$A = '2'")]) (py "A=3").

Definition wedmakefile : WEDMakefile.t :=
  WEDMakefile.mk (Guard.mk [Dependency.mk (py "$A = '1'")])
                 (Guard.mk [Dependency.mk (py "$A = '3'")]) [task_T].

Definition state : PyExperimentInstanceState.t :=
  PyExperimentInstanceState.mk [(py "A", py "1")] [(py "A", rw)].

Definition instance : PyExperimentInstance.t :=
  PyExperimentInstance.mk wedmakefile state [] {[ py "A" := false ]} false [].

End Stuck.

(** Two variables [A] and [B]; the lock of [B] is held by a running task. *)
Module TwoLocks.

Definition guard : Guard.t :=
  Guard.mk [Dependency.mk (py "$B != '2'"); Dependency.mk (py "$A = '1'")].

Definition task_T : Task.t := Task.mk (py "T") guard (py "B=2").

Definition wedmakefile : WEDMakefile.t :=
  WEDMakefile.mk (Guard.mk [Dependency.mk (py "$A = '1'")])
                 (Guard.mk [Dependency.mk (py "$B = '2'")]) [task_T].

Definition state : PyExperimentInstanceState.t :=
  PyExperimentInstanceState.mk [(py "A", py "1")] [(py "A", rw)].

Definition instance : PyExperimentInstance.t :=
  PyExperimentInstance.mk wedmakefile state []
    {[ py "A" := false; py "B" := true ]} false [].

Definition script (_ : Task.t) (_ : list (str * str * permission))
    : result PyExperimentInstanceState.t :=
  Ok (PyExperimentInstanceState.mk [(py "B", py "2")] [(py "B", rw)]).

End TwoLocks.

(* ===================================================================== *)
(** * Notions used by the statements *)
(* ===================================================================== *)

(** The identifiers of a list of variables. *)
Definition identifiers (vars : list Variable_.t) : list str :=
  Variable_.identifier <$> vars.

(** The lock table after every lock of [ids] was set to [b], first to last. *)
Definition lock_all (b : bool) (ids : list str) (m : gmap str bool) : gmap str bool :=
  foldl (fun m id => <[id := b]> m) m ids.

(** The instance with another lock table and a longer lock history. *)
Definition with_locks (m : gmap str bool) (evs : list lock_event)
    (self : PyExperimentInstance.t) : PyExperimentInstance.t :=
  PyExperimentInstance.mk
    (PyExperimentInstance._wedmakefile self) (PyExperimentInstance._state self)
    (PyExperimentInstance._exceptions self) m (PyExperimentInstance._ei_lock self)
    (PyExperimentInstance.lock_history self ++ evs).

(** A guard is satisfied by a state when each of its dependencies
    evaluates to [True] on it. *)
Definition satisfied (g : Guard.t) (st : PyExperimentInstanceState.t) : Prop :=
  ∀ d, d ∈ Guard.dependencies g → PyDependency.is_satisfied_by d st = Ok (Some true).

(** The identifiers on which an acquisition was attempted, in order. *)
Definition attempts (evs : list lock_event) : list str :=
  omap (fun ev => match ev with EvAcquire id _ => Some id | EvRelease _ => None end) evs.

(** Strictly increasing in the lexicographic order of identifiers. *)
Definition increasing (ids : list str) : Prop :=
  ∀ i j a b, (i < j)%nat → ids !! i = Some a → ids !! j = Some b → PyStr.ltb a b = true.


(** The Boolean that [not is_satisfied_by(...)] tests: a dependency holds
    when its evaluation returns [True]. *)
Definition holds (st : PyExperimentInstanceState.t) (d : Dependency.t) : bool :=
  match PyDependency.is_satisfied_by d st with
  | inr (Some true) => true
  | _ => false
  end.

(** The evaluation of a dependency raises nothing. *)
Definition evaluates (st : PyExperimentInstanceState.t) (d : Dependency.t) : Prop :=
  ∃ r, PyDependency.is_satisfied_by d st = Ok r.

(** What the lock operations leave alone: the specification, the state and
    the recorded exceptions. *)
Definition same_data (self self' : PyExperimentInstance.t) : Prop :=
  PyExperimentInstance._wedmakefile self' = PyExperimentInstance._wedmakefile self
  ∧ PyExperimentInstance._state self' = PyExperimentInstance._state self
  ∧ PyExperimentInstance._exceptions self' = PyExperimentInstance._exceptions self.

(** A computation that, when it returns, has only touched locks. *)
Definition lock_only {A} (m : PyExperimentInstance.M A) : Prop :=
  ∀ self a self', m self = PyExperimentInstance.Returns a self' → same_data self self'.


(** A state as [from_bash_script] builds it: values and permissions are
    recorded for the same identifiers. *)
Definition paired (st : PyExperimentInstanceState.t) : Prop :=
  ∀ k, is_Some (PyDict.get (PyExperimentInstanceState.items st) k)
       ↔ is_Some (PyDict.get (PyExperimentInstanceState._permission st) k).

(** The variable is one of [vars]. *)
Definition declared (vars : list Variable_.t) (k : str) : Prop :=
  Variable_.mk k ∈ vars.


(** The lock operations of a refused acquisition: the locks of [before] are
    taken in order, the attempt on [v] fails, and the locks of [before] are
    released in order. *)
Definition refusal_events (before : list Variable_.t) (v : Variable_.t) : list lock_event :=
  fmap (fun id => EvAcquire id true) (identifiers before)
  ++ EvAcquire (Variable_.identifier v) false :: fmap EvRelease (identifiers before).

(** The method returns [False], having performed exactly [evs] on the lock
    table and left the lock table, the coordination lock, the state and the
    recorded exceptions as they were. *)
Definition refuses (op : PyExperimentInstance.M bool) (self : PyExperimentInstance.t)
    (evs : list lock_event) : Prop :=
  ∃ self',
    op self = PyExperimentInstance.Returns false self'
    ∧ PyExperimentInstance._variable_locks self' = PyExperimentInstance._variable_locks self
    ∧ PyExperimentInstance._ei_lock self' = PyExperimentInstance._ei_lock self
    ∧ same_data self self'
    ∧ PyExperimentInstance.lock_history self'
      = PyExperimentInstance.lock_history self ++ evs.


(** ** What a pattern denotes *)

(** [hi] allows [n] repetitions. *)
Definition within (n : nat) (hi : option nat) : Prop :=
  match hi with
  | Some h => (n ≤ h)%nat
  | None => True
  end.

(** The texts a pattern matches. *)
Fixpoint lang (r : regex) (s : str) : Prop :=
  match r with
  | REps => s = []
  | RClass c => ∃ a, s = [a] ∧ in_class c a = true
  | RSeq r1 r2 => ∃ s1 s2, s = s1 ++ s2 ∧ lang r1 s1 ∧ lang r2 s2
  | RAlt r1 r2 => lang r1 s ∨ lang r2 s
  | RRep c lo hi =>
      Forall (fun a => in_class c a = true) s ∧ (lo ≤ length s)%nat ∧ within (length s) hi
  | RGroup _ r => lang r s
  end.

(** [captures r s g g']: [r] matches the text [s] and turns the groups [g]
    into [g']. *)
Fixpoint captures (r : regex) (s : str) (g g' : groups) : Prop :=
  match r with
  | REps => s = [] ∧ g' = g
  | RClass c => (∃ a, s = [a] ∧ in_class c a = true) ∧ g' = g
  | RSeq r1 r2 =>
      ∃ s1 s2 g1, s = s1 ++ s2 ∧ captures r1 s1 g g1 ∧ captures r2 s2 g1 g'
  | RAlt r1 r2 => captures r1 s g g' ∨ captures r2 s g g'
  | RRep c lo hi =>
      (Forall (fun a => in_class c a = true) s ∧ (lo ≤ length s)%nat
       ∧ within (length s) hi) ∧ g' = g
  | RGroup i r => ∃ g1, captures r s g g1 ∧ g' = <[i := Some s]> g1
  end.


(** ** The clause forms, in the words of the specification *)

(** A run of whitespace. *)
Definition spaces (ws : str) : Prop := Forall (fun a => PyStr.isspace a = true) ws.

(** A single or a double quote. *)
Definition quote_char (q : ascii) : Prop := q = "'"%char ∨ q = dquote.

(** A literal enclosed in matching quotes. *)
Definition quoted (q : ascii) (lit : str) : str := q :: lit ++ [q].

(** [$id = 'lit'], with optional whitespace around the operator. *)
Definition equality_text (id ws1 ws2 : str) (q : ascii) (lit : str) : str :=
  "$"%char :: id ++ ws1 ++ "="%char :: ws2 ++ quoted q lit.

(** [$id != 'lit'] *)
Definition inequality_text (id ws1 ws2 : str) (q : ascii) (lit : str) : str :=
  "$"%char :: id ++ ws1 ++ "!"%char :: "="%char :: ws2 ++ quoted q lit.

(** [$id in list], with whitespace around the operator. *)
Definition membership_text (id ws1 ws2 list_text : str) : str :=
  "$"%char :: id ++ ws1 ++ py "in" ++ ws2 ++ list_text.

(** [$id not in list] *)
Definition nomembership_text (id ws1 ws2 ws3 list_text : str) : str :=
  "$"%char :: id ++ ws1 ++ py "not" ++ ws2 ++ py "in" ++ ws3 ++ list_text.

(** An element of a bracketed list: a quoted literal, with blanks around. *)
Record element := {
  e_before : str;
  e_quote : ascii;
  e_text : str;
  e_after : str
}.

Definition element_ok (e : element) : Prop :=
  Forall (fun a => PyEval.blank a = true) (e_before e)
  ∧ quote_char (e_quote e)
  ∧ Forall (fun a => PyEval.plain (e_quote e) a = true) (e_text e)
  ∧ Forall (fun a => PyEval.blank a = true) (e_after e).

Definition element_text (e : element) : str :=
  e_before e ++ quoted (e_quote e) (e_text e) ++ e_after e.

(** The elements, separated by commas. *)
Fixpoint elements_text (es : list element) : str :=
  match es with
  | [] => []
  | [e] => element_text e
  | e :: es' => element_text e ++ ","%char :: elements_text es'
  end.

(** The entire list, bracketed. *)
Definition list_text (es : list element) : str :=
  "["%char :: elements_text es ++ ["]"%char].

(** A clause of one of the four forms whose literals are quoted: [Some v]
    is the identifier it names. *)
Inductive clause_form : str → str → Prop :=
| form_equality id ws1 ws2 q lit :
    Variable_.is_valid_identifier id = true → spaces ws1 → spaces ws2 →
    quote_char q → Variable_.is_valid_value lit = true →
    clause_form (equality_text id ws1 ws2 q lit) id
| form_inequality id ws1 ws2 q lit :
    Variable_.is_valid_identifier id = true → spaces ws1 → spaces ws2 →
    quote_char q → Variable_.is_valid_value lit = true →
    clause_form (inequality_text id ws1 ws2 q lit) id
| form_membership id ws1 ws2 es :
    Variable_.is_valid_identifier id = true →
    spaces ws1 → ws1 ≠ [] → spaces ws2 → ws2 ≠ [] →
    es ≠ [] → Forall element_ok es →
    clause_form (membership_text id ws1 ws2 (list_text es)) id
| form_nomembership id ws1 ws2 ws3 es :
    Variable_.is_valid_identifier id = true →
    spaces ws1 → ws1 ≠ [] → spaces ws2 → ws2 ≠ [] → spaces ws3 → ws3 ≠ [] →
    es ≠ [] → Forall element_ok es →
    clause_form (nomembership_text id ws1 ws2 ws3 (list_text es)) id.


(** The text is empty or starts with a character outside the set [P]. *)
Definition stops (P : ascii → bool) (r : str) : Prop :=
  match r with
  | [] => True
  | a :: _ => P a = false
  end.


(** An identifier as the grammar has it: a letter, then letters, digits and
    underscores, the last of which is no underscore; 64 characters at most. *)
Definition identifier_form (id : str) : Prop :=
  ∃ a rest,
    id = a :: rest
    ∧ in_class Variable_.alpha a = true
    ∧ Forall (fun c => in_class Variable_.word c = true) rest
    ∧ (∀ z, last rest = Some z → in_class Variable_.alnum z = true)
    ∧ (length id ≤ 64)%nat.

(** A value as the grammar has it: 2048 characters at most, none of them a
    newline. *)
Definition value_form (value : str) : Prop :=
  (length value ≤ 2048)%nat ∧ "010"%char ∉ value.

(** The pattern holds no capturing group. *)
Fixpoint group_free (r : regex) : bool :=
  match r with
  | REps | RClass _ | RRep _ _ _ => true
  | RSeq r1 r2 | RAlt r1 r2 => group_free r1 && group_free r2
  | RGroup _ _ => false
  end.

(** The four patterns share their head [\$(IDENTIFIER)\s...] and differ in
    what follows it. *)
Definition clause_pattern (lo : nat) (tail : regex) : regex :=
  RClass (CChar "$") +> RGroup 0 Variable_.IDENTIFIER +> RRep CSpace lo None +> tail.

Definition equality_tail : regex :=
  RLit "=" +> RRep CSpace 0 None +> RGroup 1 Dependency.quoted_value.
Definition inequality_tail : regex :=
  RLit "!=" +> RRep CSpace 0 None +> RGroup 1 Dependency.quoted_value.
Definition membership_tail : regex :=
  RLit "in" +> RRep CSpace 1 None +> RGroup 1 Dependency.bracketed.
Definition nomembership_tail : regex :=
  RLit "not" +> RRep CSpace 1 None +> RLit "in" +> RRep CSpace 1 None
  +> RGroup 1 Dependency.bracketed.

(** The rest of a clause starts with its operator: with no whitespace and,
    where whitespace is optional, with no identifier character. *)
Definition operator_start (lo : nat) (t : str) : Prop :=
  stops PyStr.isspace t ∧ (lo = 0%nat → stops (in_class Variable_.word) t).


(** A bracketed text: at least one character between the brackets, none of
    them a newline. *)
Definition bracketed_text (body : str) : str := "["%char :: body ++ ["]"%char].

(** The clauses that the four patterns match, with the identifier they
    name. *)
Inductive clause_shape : str → str → Prop :=
| shape_equality id ws1 ws2 q lit :
    Variable_.is_valid_identifier id = true → spaces ws1 → spaces ws2 →
    quote_char q → Variable_.is_valid_value lit = true →
    clause_shape (equality_text id ws1 ws2 q lit) id
| shape_inequality id ws1 ws2 q lit :
    Variable_.is_valid_identifier id = true → spaces ws1 → spaces ws2 →
    quote_char q → Variable_.is_valid_value lit = true →
    clause_shape (inequality_text id ws1 ws2 q lit) id
| shape_membership id ws1 ws2 body :
    Variable_.is_valid_identifier id = true →
    spaces ws1 → ws1 ≠ [] → spaces ws2 → ws2 ≠ [] →
    body ≠ [] → "010"%char ∉ body →
    clause_shape (membership_text id ws1 ws2 (bracketed_text body)) id
| shape_nomembership id ws1 ws2 ws3 body :
    Variable_.is_valid_identifier id = true →
    spaces ws1 → ws1 ≠ [] → spaces ws2 → ws2 ≠ [] → spaces ws3 → ws3 ≠ [] →
    body ≠ [] → "010"%char ∉ body →
    clause_shape (nomembership_text id ws1 ws2 ws3 (bracketed_text body)) id.


(** The lock operations of a method that takes the locks of [ids], one
    after the other, and then releases them. *)
Definition lock_round (ids : list str) : list lock_event :=
  fmap (fun id => EvAcquire id true) ids ++ fmap EvRelease ids.

(** A script run that fails. *)
Definition script_failing (_ : Task.t) (_ : list (str * str * permission))
    : result PyExperimentInstanceState.t :=
  Err (RuntimeError (py "CalledProcessError")).

(** An experiment whose final guard lists a name that is no literal: the
    parser accepts the clause, and its evaluation raises. *)
Module Unquoted.

Definition task_T : Task.t :=
  Task.mk (py "T") (Guard.mk [Dependency.mk (py "$A = '1'")]) (py "A=2").

Definition wedmakefile : WEDMakefile.t :=
  WEDMakefile.mk (Guard.mk [Dependency.mk (py "$A = '1'")])
                 (Guard.mk [Dependency.mk (py "$A in [done]")]) [task_T].

Definition state : PyExperimentInstanceState.t :=
  PyExperimentInstanceState.mk [(py "A", py "1")] [(py "A", rw)].

Definition instance : PyExperimentInstance.t :=
  PyExperimentInstance.mk wedmakefile state [] {[ py "A" := false ]} false [].

End Unquoted.

(** The test of [diff] on a binding [(k, v)] of [self]: [other] binds [k]
    to another value or not at all, or with another permission. *)
Definition differs (self other : PyExperimentInstanceState.t) (k v : str) : Prop :=
  PyDict.get (PyExperimentInstanceState.items other) k ≠ Some v
  ∨ PyDict.get (PyExperimentInstanceState._permission other) k
    ≠ PyDict.get (PyExperimentInstanceState._permission self) k.

(** A dictionary holds one binding per key. *)
Definition well_keyed (st : PyExperimentInstanceState.t) : Prop :=
  NoDup (PyDict.keys (PyExperimentInstanceState.items st))
  ∧ NoDup (PyDict.keys (PyExperimentInstanceState._permission st)).

Global Instance differs_dec self other k v : Decision (differs self other k v).
Proof. unfold differs. apply _. Defined.

(* ===================================================================== *)
(** * [PyExperimentInstance.run], one worker *)
(* ===================================================================== *)

(** The loop of [run] as a single worker executes it, which is what
    [run_local] starts by default. The pause between two passes is left
    out. [fuel] bounds the number of passes: [None] is returned when it is
    used up. *)
Section Run.

Import PyExperimentInstance.
Local Open Scope M_scope.

Variable from_bash_script :
  Task.t → list (str * str * permission) → result PyExperimentInstanceState.t.

(** The numbers that [random.choice] draws, one per pass. *)
Variable draw : nat → nat.

Definition InconsistentState : exn :=
  RuntimeError (py "InconsistentState: Reached an inconsistent state.").

(** [random.choice(ready_tasks)] on the [i]-th pass. *)
Definition random_choice (i : nat) (ready_tasks : list Task.t) : M Task.t :=
  match ready_tasks !! (draw i `mod` length ready_tasks)%nat with
  | Some task => ret task
  | None => raise IndexError
  end.

(** The body of the [while] loop. *)
Definition run_body (i : nat) : M unit :=
  inconsistent ← is_in_inconsistent_state;
  (if (inconsistent : bool) then modify (append_exception InconsistentState) else ret tt);;
  ready_tasks ← ready_to_execute_tasks;
  if bool_decide (length ready_tasks ≠ 0%nat) then
    task ← random_choice i ready_tasks;
    execute_task from_bash_script task;;
    ret tt
  else ret tt.

(** [while not self.is_in_final_state() and len(self._exceptions) == 0],
    from pass [i] on, and the [return] that follows the loop. *)
Fixpoint run_loop (fuel i : nat) : M (option bool) :=
  match fuel with
  | O => ret None
  | S fuel' =>
      final ← is_in_final_state;
      continue ← (if negb final
                  then (exceptions ← read _exceptions;
                        ret (bool_decide (length exceptions = 0%nat)))
                  else ret false);
      if (continue : bool) then run_body i;; run_loop fuel' (S i)
      else (result ← is_in_final_state; ret (Some result))
  end.

Definition run (fuel : nat) : M (option bool) := run_loop fuel 0.

End Run.

(* ===================================================================== *)
(** * [PyExperimentInstanceState.from_bash_script], the capture *)
(* ===================================================================== *)

(** What [from_bash_script] does with the text that the script wrote to
    its standard output: the lines are read three by three as identifier,
    value and permission. The run of the script itself is left out. *)

(** [s.split(c)] *)
Fixpoint split (c : ascii) (s : str) : list str :=
  match s with
  | [] => [[]]
  | a :: s' =>
      if chr_eqb a c then [] :: split c s'
      else match split c s' with
           | h :: t => (a :: h) :: t
           | [] => [[a]]
           end
  end.

(** [l[0::3]] *)
Fixpoint stride3 {A} (l : list A) : list A :=
  match l with
  | [] => []
  | a :: l1 =>
      a :: match l1 with
           | _ :: _ :: l3 => stride3 l3
           | _ => []
           end
  end.

(** [zip(l[0::3], l[1::3], l[2::3])] *)
Definition triples {A} (l : list A) : list (A * A * A) :=
  zip (zip (stride3 l) (stride3 (drop 1 l))) (stride3 (drop 2 l)).

(** What the loop raises: an exception of the parser, or the
    [AssertionError] of its [assert]. *)
Inductive capture_exn :=
| Raised (e : exn)
| AssertionError.

(** [permission in ("rw", "ro")] *)
Definition parse_permission (text : str) : option permission :=
  if decide (text = py "rw") then Some rw
  else if decide (text = py "ro") then Some ro
  else None.

(** [for identifier, value, permission in zip(...)] *)
Fixpoint capture_loop (todo : list (str * str * str))
    (ei_state : PyExperimentInstanceState.t) : capture_exn + PyExperimentInstanceState.t :=
  match todo with
  | [] => inr ei_state
  | (identifier, value, permission) :: todo' =>
      match Variable_.validate_identifier identifier with
      | inl e => inl (Raised e)
      | inr identifier =>
          match Variable_.validate_value value with
          | inl e => inl (Raised e)
          | inr value =>
              match parse_permission permission with
              | None => inl AssertionError
              | Some p =>
                  capture_loop todo'
                    (PyExperimentInstanceState.mk
                       (PyDict.setitem (PyExperimentInstanceState.items ei_state)
                          identifier value)
                       (PyDict.setitem (PyExperimentInstanceState._permission ei_state)
                          identifier p))
              end
          end
      end
  end.

(** The state built from the decoded output of the script. *)
Definition capture (output : str) : capture_exn + PyExperimentInstanceState.t :=
  let variables := split "010" (PyStr.strip output) in
  capture_loop (triples variables) PyExperimentInstanceState.init.

(** The text that the capture script writes for a list of bindings: three
    lines per binding. *)
Definition permission_text (p : permission) : str :=
  match p with rw => py "rw" | ro => py "ro" end.

Definition binding_lines (b : str * str * permission) : list str :=
  [b.1.1; b.1.2; permission_text b.2].

Definition written (bindings : list (str * str * permission)) : str :=
  concat ((fun line => line ++ ["010"%char]) <$> concat (binding_lines <$> bindings)).

(** The state that holds the bindings, the later ones over the earlier
    ones. *)
Definition state_of_bindings (bindings : list (str * str * permission))
    : PyExperimentInstanceState.t :=
  foldl (fun st b =>
           PyExperimentInstanceState.mk
             (PyDict.setitem (PyExperimentInstanceState.items st) b.1.1 b.1.2)
             (PyDict.setitem (PyExperimentInstanceState._permission st) b.1.1 b.2))
        PyExperimentInstanceState.init bindings.

(** [chr(10).join(lines)] *)
Fixpoint join_lines (lines : list str) : str :=
  match lines with
  | [] => []
  | [line] => line
  | line :: lines' => line ++ "010"%char :: join_lines lines'
  end.


(* ===================================================================== *)
(** * Several workers *)
(* ===================================================================== *)

(** The four methods that take variable locks, as several threads run
    them on one instance: each lock operation is a step of its own, and the
    steps of the workers interleave. What the methods do between taking
    and releasing the locks (the evaluation of guards, the run of the
    script, the recording of exceptions) changes no lock and is one step. *)
Module Workers.

Import PyExperimentInstance.

(** A call of one of the four methods. *)
Inductive call :=
| IsInFinalState
| IsInInconsistentState
| IsReadyToExecuteTask (task : Task.t)
| ExecuteTask (task : Task.t).

(** The method is wrapped by [CSDecorator(_ei_lock)]. *)
Definition decorated (c : call) : bool :=
  match c with
  | ExecuteTask _ => false
  | _ => true
  end.

(** The variables whose locks the method takes. *)
Definition vars_of (w : WEDMakefile.t) (c : call) : result (list Variable_.t) :=
  match c with
  | IsInFinalState | IsInInconsistentState => WEDMakefile.variables w None
  | IsReadyToExecuteTask task | ExecuteTask task =>
      Guard.on_variables (Task.guard task) None
  end.

(** Where a worker is in its call. *)
Inductive pc :=
| Idle                                                   (* in no call *)
| Entering (c : call)                                    (* before [_ei_lock.acquire()] *)
| Acquiring (c : call) (vars : list Variable_.t) (i : nat)   (* the [for] loop, at index [i] *)
| Backing (c : call) (vars : list Variable_.t) (j i : nat)   (* the [while j < i] loop *)
| Holding (c : call) (vars : list Variable_.t)           (* every lock taken: the body *)
| Merging (task : Task.t) (vars : list Variable_.t)
          (other_state : PyExperimentInstanceState.t)    (* inside the merge *)
| Releasing (c : call) (vars : list Variable_.t) (k : nat).  (* the final [for] loop *)

(** One step of one worker on the shared instance. *)
Inductive worker_step : t → pc → t → pc → Prop :=
| ws_call self c :
    worker_step self Idle self (Entering c)
| ws_record self e :
    worker_step self Idle (append_exception e self) Idle
| ws_enter self c vars self' :
    ei_lock_acquire self = Returns tt self' →
    vars_of (_wedmakefile self) c = Ok vars →
    worker_step self (Entering c) self' (Acquiring c vars 0)
| ws_acquire self c vars i v self' :
    vars !! i = Some v →
    acquire_nonblocking (Variable_.identifier v) self = Returns true self' →
    worker_step self (Acquiring c vars i) self' (Acquiring c vars (S i))
| ws_refused self c vars i v self' :
    vars !! i = Some v →
    acquire_nonblocking (Variable_.identifier v) self = Returns false self' →
    worker_step self (Acquiring c vars i) self' (Backing c vars 0 i)
| ws_back self c vars j i v self' :
    (j < i)%nat → vars !! j = Some v →
    release (Variable_.identifier v) self = Returns tt self' →
    worker_step self (Backing c vars j i) self' (Backing c vars (S j) i)
| ws_back_done self c vars i self' :
    ei_lock_release self = Returns tt self' →
    worker_step self (Backing c vars i i) self' Idle
| ws_acquired_decorated self c vars :
    decorated c = true →
    worker_step self (Acquiring c vars (length vars)) self (Holding c vars)
| ws_acquired_execute self task vars self' :
    ei_lock_release self = Returns tt self' →
    worker_step self (Acquiring (ExecuteTask task) vars (length vars))
                self' (Holding (ExecuteTask task) vars)
| ws_body self c vars :
    worker_step self (Holding c vars) self (Releasing c vars 0)
| ws_body_exception self task vars e :
    worker_step self (Holding (ExecuteTask task) vars)
                (append_exception e self) (Releasing (ExecuteTask task) vars 0)
| ws_merge_enter self task vars other_state self' :
    ei_lock_acquire self = Returns tt self' →
    worker_step self (Holding (ExecuteTask task) vars) self' (Merging task vars other_state)
| ws_merge self task vars other_state self' :
    ei_lock_release
      (set_state (PyExperimentInstanceState.update (_state self) other_state) self)
    = Returns tt self' →
    worker_step self (Merging task vars other_state)
                self' (Releasing (ExecuteTask task) vars 0)
| ws_release self c vars k v self' :
    vars !! k = Some v →
    release (Variable_.identifier v) self = Returns tt self' →
    worker_step self (Releasing c vars k) self' (Releasing c vars (S k))
| ws_released_decorated self c vars self' :
    decorated c = true →
    ei_lock_release self = Returns tt self' →
    worker_step self (Releasing c vars (length vars)) self' Idle
| ws_released_execute self task vars :
    worker_step self (Releasing (ExecuteTask task) vars (length vars)) self Idle.

(** The instance and where each worker is. *)
Definition config : Type := t * list pc.

(** One step of the system: one step of one of its workers. *)
Inductive step : config → config → Prop :=
| step_worker self pcs k p self' p' :
    pcs !! k = Some p → worker_step self p self' p' →
    step (self, pcs) (self', <[k := p']> pcs).

(** The configurations that [n] workers reach from an instance on which
    none of them is in a call. *)
Definition reachable (self0 : t) (n : nat) (cfg : config) : Prop :=
  rtc step (self0, replicate n Idle) cfg.

(** The worker is running the body of [task], its script included. *)
Definition running (p : pc) (task : Task.t) (vars : list Variable_.t) : Prop :=
  p = Holding (ExecuteTask task) vars ∨ ∃ other_state, p = Merging task vars other_state.

(** The locks that a worker holds. *)
Definition owns (p : pc) : list str :=
  match p with
  | Idle | Entering _ => []
  | Acquiring _ vars i => Variable_.identifier <$> take i vars
  | Backing _ vars j i => Variable_.identifier <$> drop j (take i vars)
  | Holding _ vars | Merging _ vars _ => Variable_.identifier <$> vars
  | Releasing _ vars k => Variable_.identifier <$> drop k vars
  end.

(** The call that a worker is in, and the variables it found for it. *)
Definition pc_call (p : pc) : option (call * list Variable_.t) :=
  match p with
  | Idle | Entering _ => None
  | Acquiring c vars _ | Backing c vars _ _ | Holding c vars | Releasing c vars _ =>
      Some (c, vars)
  | Merging task vars _ => Some (ExecuteTask task, vars)
  end.

(** Every lock that a worker holds is locked, no lock is held by two
    workers, and the variables of each worker are those of its call. *)
Definition lock_invariant (w : WEDMakefile.t) (cfg : config) : Prop :=
  _wedmakefile cfg.1 = w
  ∧ (∀ k p, cfg.2 !! k = Some p →
       (∀ c vars, pc_call p = Some (c, vars) → vars_of w c = Ok vars)
       ∧ (∀ id, id ∈ owns p → _variable_locks cfg.1 !! id = Some true))
  ∧ (∀ k1 k2 p1 p2, k1 ≠ k2 → cfg.2 !! k1 = Some p1 → cfg.2 !! k2 = Some p2 →
       ∀ id, id ∈ owns p1 → id ∉ owns p2).

End Workers.

(** Two tasks on two variables of their own. *)
Module TwoTasks.

Definition task_A : Task.t :=
  Task.mk (py "A") (Guard.mk [Dependency.mk (py "$A = '1'")]) (py "A=2").
Definition task_B : Task.t :=
  Task.mk (py "B") (Guard.mk [Dependency.mk (py "$B = '1'")]) (py "B=2").

Definition wedmakefile : WEDMakefile.t :=
  WEDMakefile.mk (Guard.mk [Dependency.mk (py "$A = '1'")])
                 (Guard.mk [Dependency.mk (py "$A = '2'"); Dependency.mk (py "$B = '2'")])
                 [task_A; task_B].

Definition state : PyExperimentInstanceState.t :=
  PyExperimentInstanceState.mk [(py "A", py "1"); (py "B", py "1")]
                               [(py "A", rw); (py "B", rw)].

Definition instance : PyExperimentInstance.t :=
  PyExperimentInstance.mk wedmakefile state []
    {[ py "A" := false; py "B" := false ]} false [].

End TwoTasks.

(** ** Namespaces of guards and experiments *)

(** [sorted(l)] on strings. *)
Definition str_le (a b : str) : Prop := PyStr.ltb b a = false.
Global Instance str_le_dec a b : Decision (str_le a b).
Proof. unfold str_le. apply _. Defined.

Definition sorted_strings (l : list str) : list str := merge_sort str_le l.

(** [Guard.on_variables_namespaces] *)
Definition on_variables_namespaces (self : Guard.t) : result (list str) :=
  (vars ← Guard.on_variables self None;
   Ok (sorted_strings
         (elements (list_to_set (C := gset str) (Variable_.namespace <$> vars)))))%R.

(* ===================================================================== *)
(** * Properties *)
(* ===================================================================== *)

(** ** Strings *)

Lemma chr_eqb_true (a b : ascii) : chr_eqb a b = true ↔ a = b.
Proof. apply Ascii.eqb_eq. Qed.

Lemma chr_eqb_false (a b : ascii) : chr_eqb a b = false ↔ a ≠ b.
Proof. apply Ascii.eqb_neq. Qed.

Lemma chr_eqb_refl (a : ascii) : chr_eqb a a = true.
Proof. by apply chr_eqb_true. Qed.

Lemma contains_elem_of (c : ascii) (s : str) : PyStr.contains c s = true ↔ c ∈ s.
Proof.
  unfold PyStr.contains. rewrite existsb_exists. split.
  - intros (a & Hin & Heq). apply chr_eqb_true in Heq. subst a.
    by apply list_elem_of_In.
  - intros Hin. exists c. split; [by apply list_elem_of_In | apply chr_eqb_refl].
Qed.

Lemma contains_not_elem_of (c : ascii) (s : str) : PyStr.contains c s = false ↔ c ∉ s.
Proof.
  rewrite <- contains_elem_of. destruct (PyStr.contains c s); split; done.
Qed.

Lemma rfind_absent (c : ascii) (s : str) : c ∉ s → PyStr.rfind c s = -1.
Proof.
  induction s as [|a s IH]; intros Hn; simpl; [done|].
  apply not_elem_of_cons in Hn as [Hca Hs]. rewrite (IH Hs). simpl.
  apply chr_eqb_false in Hca. by rewrite Hca.
Qed.

Lemma rfind_last (c : ascii) (p q : str) :
  c ∉ q → PyStr.rfind c (p ++ c :: q) = Z.of_nat (length p).
Proof.
  intros Hq. induction p as [|a p IH]; simpl.
  - rewrite (rfind_absent c q Hq). simpl. by rewrite chr_eqb_refl.
  - rewrite IH. destruct (Z.leb_spec 0 (Z.of_nat (length p))); lia.
Qed.

Lemma slice_prefix (s : str) (k : nat) :
  (k ≤ length s)%nat → PyStr.slice s None (Some (Z.of_nat k)) = take k s.
Proof.
  intros Hk. unfold PyStr.slice, PyStr.clamp.
  destruct (Z.ltb_spec (Z.of_nat k) 0); [lia|].
  rewrite Z.min_l by lia. rewrite Z.sub_0_r, Nat2Z.id. done.
Qed.

(** ** Namespaces *)

(** C9. The namespace of an identifier is its prefix up to, and excluding,
    its last ['_'] character, and the empty string when the identifier
    holds no ['_']. *)
Theorem namespace_last_underscore (v : Variable_.t) :
  (∀ p q : str,
     Variable_.identifier v = p ++ "_"%char :: q → "_"%char ∉ q →
     Variable_.namespace v = p)
  ∧ ("_"%char ∉ Variable_.identifier v → Variable_.namespace v = PyStr.empty).
Proof.
  destruct v as [i]. unfold Variable_.namespace, Variable_.identifier. simpl. split.
  - intros p q -> Hq.
    assert (PyStr.contains "_" (p ++ "_"%char :: q) = true) as ->.
    { apply contains_elem_of. set_solver. }
    rewrite rfind_last by done. rewrite slice_prefix.
    + by rewrite take_app_length.
    + rewrite length_app. lia.
  - intros Hn. apply contains_not_elem_of in Hn. by rewrite Hn.
Qed.

Lemma namespace_last_underscore_witness :
  Variable_.namespace (Variable_.mk (py "WEB_HTTPD_VERSION")) = py "WEB_HTTPD"
  ∧ Variable_.namespace (Variable_.mk (py "SSHKEY")) = PyStr.empty.
Proof.
  split.
  - apply (proj1 (namespace_last_underscore (Variable_.mk (py "WEB_HTTPD_VERSION")))
             (py "WEB_HTTPD") (py "VERSION")).
    + reflexivity.
    + vm_compute. intros H. repeat (apply elem_of_cons in H as [H|H]; [discriminate H|]).
      by apply elem_of_nil in H.
  - apply (proj2 (namespace_last_underscore (Variable_.mk (py "SSHKEY")))).
    vm_compute. intros H. repeat (apply elem_of_cons in H as [H|H]; [discriminate H|]).
    by apply elem_of_nil in H.
Defined.

(** ** Dictionaries *)

Section DictFacts.
Context {V : Type}.
Implicit Types (d other : pydict V) (k : str) (v : V).

Lemma get_setitem d k v k' :
  PyDict.get (PyDict.setitem d k v) k' = if decide (k = k') then Some v else PyDict.get d k'.
Proof.
  induction d as [|[k0 v0] d IH]; simpl.
  - destruct (decide (k = k')); done.
  - destruct (decide (k0 = k)) as [->|Hne]; simpl.
    + destruct (decide (k = k')); done.
    + rewrite IH. destruct (decide (k0 = k')), (decide (k = k')); congruence.
Qed.

Lemma get_None_keys d k : PyDict.get d k = None ↔ k ∉ PyDict.keys d.
Proof.
  unfold PyDict.keys. induction d as [|[k0 v0] d IH]; simpl.
  - split; [intros _; apply not_elem_of_nil | done].
  - rewrite not_elem_of_cons. destruct (decide (k0 = k)) as [->|Hne].
    + split; [done | intros [? _]; congruence].
    + rewrite IH. split; [by split | by intros [_ ?]].
Qed.

Lemma get_is_Some_keys d k : is_Some (PyDict.get d k) ↔ k ∈ PyDict.keys d.
Proof.
  destruct (PyDict.get d k) eqn:E.
  - split; [|by eauto]. intros _. destruct (decide (k ∈ PyDict.keys d)); [done|].
    apply get_None_keys in n. congruence.
  - apply get_None_keys in E. split; [by intros [? ?] | done].
Qed.

(** After [d.update(other)] a key of [other] is bound as in [other], and
    any other key as in [d]. *)
Lemma get_update d other k :
  NoDup (PyDict.keys other) →
  PyDict.get (PyDict.update d other) k =
    match PyDict.get other k with
    | Some v => Some v
    | None => PyDict.get d k
    end.
Proof.
  unfold PyDict.update. revert d.
  induction other as [|[k0 v0] other IH]; intros d Hnd; simpl; [done|].
  apply NoDup_cons in Hnd as [Hk0 Hnd]. rewrite IH by done. simpl.
  rewrite get_setitem. destruct (decide (k0 = k)) as [->|Hne]; [|done].
  simpl in Hk0. apply get_None_keys in Hk0. by rewrite Hk0.
Qed.
End DictFacts.

(** ** Merging a delta *)

(** C1, as the code has it. Merging a delta never fails and never looks at
    the permissions held by the state: every variable of the delta ends up
    with the value and the permission of the delta, also when the state
    held it read-only, and every other variable keeps its binding. *)
Theorem update_writes_every_binding (S D : PyExperimentInstanceState.t) (k : str) :
  NoDup (PyDict.keys (PyExperimentInstanceState.items D)) →
  NoDup (PyDict.keys (PyExperimentInstanceState._permission D)) →
  let S' := PyExperimentInstanceState.update S D in
  PyDict.get (PyExperimentInstanceState.items S') k =
    match PyDict.get (PyExperimentInstanceState.items D) k with
    | Some v => Some v
    | None => PyDict.get (PyExperimentInstanceState.items S) k
    end
  ∧ PyDict.get (PyExperimentInstanceState._permission S') k =
    match PyDict.get (PyExperimentInstanceState._permission D) k with
    | Some p => Some p
    | None => PyDict.get (PyExperimentInstanceState._permission S) k
    end.
Proof.
  intros Hi Hp. simpl. split; by apply get_update.
Qed.

Lemma update_writes_every_binding_witness :
  let S := Pipeline.state_of "mid" ro in
  let D := Pipeline.state_of "done" rw in
  PyExperimentInstanceState.is_readonly S (py "S") = true
  ∧ PyDict.get (PyExperimentInstanceState.items (PyExperimentInstanceState.update S D))
      (py "S") = Some (py "done")
  ∧ PyDict.get (PyExperimentInstanceState._permission (PyExperimentInstanceState.update S D))
      (py "S") = Some rw.
Proof.
  assert (NoDup [py "S"]) as Hnd.
  { apply NoDup_singleton. }
  pose proof (update_writes_every_binding (Pipeline.state_of "mid" ro)
                (Pipeline.state_of "done" rw) (py "S") Hnd Hnd) as [Hv Hp].
  split; [reflexivity|]. split; [exact Hv | exact Hp].
Defined.

(** C1, refuted. The state holds [S = mid] read-only. A delta that assigns
    [S] is merged by [execute_task] without any error being recorded: the
    call returns [True] and the list of exceptions stays empty, both for the
    delta that re-emits the read-only binding and for one that replaces it,
    in which case the read-only binding is overwritten. *)
Lemma merge_readonly_counterexample :
  let self := Pipeline.after_A in
  PyExperimentInstanceState.is_readonly (PyExperimentInstance._state self) (py "S") = true
  ∧ (∃ self',
       PyExperimentInstance.execute_task Pipeline.script_same Pipeline.task_B self
         = PyExperimentInstance.Returns true self'
       ∧ PyExperimentInstance._exceptions self' = [])
  ∧ (∃ self',
       PyExperimentInstance.execute_task Pipeline.script_done Pipeline.task_B self
         = PyExperimentInstance.Returns true self'
       ∧ PyExperimentInstance._exceptions self' = []
       ∧ PyDict.get (PyExperimentInstanceState.items (PyExperimentInstance._state self))
           (py "S") = Some (py "mid")
       ∧ PyDict.get (PyExperimentInstanceState.items (PyExperimentInstance._state self'))
           (py "S") = Some (py "done")).
Proof.
  split; [reflexivity|]. split.
  - eexists. split; [vm_compute; reflexivity | reflexivity].
  - eexists. split; [vm_compute; reflexivity |]. repeat split; reflexivity.
Qed.

(** ** Guards *)

Lemma validate_clause_cases (c : str) :
  Dependency.validate_clause c = Ok c
  ∨ Dependency.validate_clause c = Err (SyntaxError (py "Invalid dependency clause.")).
Proof.
  unfold Dependency.validate_clause.
  destruct (_ || _ || _ || _); [by left | by right].
Qed.

Lemma rmap_Dependency_init (l : list str) :
  match rmap Dependency.init l with
  | inr ds =>
      ds = Dependency.mk <$> l ∧ Forall (fun c => Dependency.validate_clause c = Ok c) l
  | inl e =>
      e = SyntaxError (py "Invalid dependency clause.")
      ∧ ¬ Forall (fun c => Dependency.validate_clause c = Ok c) l
  end.
Proof.
  induction l as [|c l IH]; simpl; [done|].
  unfold Dependency.init at 1.
  destruct (validate_clause_cases c) as [Hc|Hc]; rewrite Hc; simpl.
  - destruct (rmap Dependency.init l) as [e|ds]; simpl.
    + destruct IH as [-> Hn]. split; [done|]. intros HF. apply Hn.
      by apply Forall_cons in HF as [_ ?].
    + destruct IH as [-> HF]. split; [done | by constructor].
  - split; [done|]. intros HF. apply Forall_cons in HF as [HF _].
    rewrite Hc in HF. discriminate HF.
Qed.

(** C6, as the code has it. [Guard(clauses)] normalises a scalar clause to
    a one-element list and builds one dependency per clause, in order. It
    raises [SyntaxError] exactly when a clause is invalid or the list holds
    more than 256 clauses; in every other case, the empty list included, it
    succeeds. So a guard holds between 0 and 256 dependencies. *)
Theorem guard_init_at_most_256 (clauses : clauses_arg) :
  let l := Guard.clause_list clauses in
  let valid := Forall (fun c => Dependency.validate_clause c = Ok c) l in
  match Guard.init clauses with
  | inr g =>
      Guard.dependencies g = Dependency.mk <$> l
      ∧ (length (Guard.dependencies g) ≤ 256)%nat ∧ valid
  | inl e =>
      (e = SyntaxError (py "Invalid dependency clause.") ∧ ¬ valid)
      ∨ (e = SyntaxError (py "A guard must have at most 256 dependencies.")
         ∧ valid ∧ (256 < length l)%nat)
  end.
Proof.
  intros l valid. unfold Guard.init. fold l.
  pose proof (rmap_Dependency_init l) as H.
  destruct (rmap Dependency.init l) as [e|ds]; simpl.
  - left. exact H.
  - destruct H as [-> HF]. unfold Guard.validate_dependencies.
    rewrite length_fmap. case_bool_decide; simpl.
    + by rewrite length_fmap.
    + right. split; [done|]. split; [done | lia].
Qed.

(** C6, refuted: a list of fewer than one clause raises nothing, and the
    guard built from it holds no dependency. *)
Lemma guard_init_empty_counterexample :
  Guard.init (ClauseList []) = Ok (Guard.mk [])
  ∧ length (Guard.dependencies (Guard.mk [])) = 0%nat.
Proof. split; reflexivity. Qed.

(** ** The lock table *)

Import PyExperimentInstance.

Lemma lock_all_lookup (b : bool) (ids : list str) (m : gmap str bool) (k : str) :
  lock_all b ids m !! k = if decide (k ∈ ids) then Some b else m !! k.
Proof.
  unfold lock_all. revert m. induction ids as [|id ids IH]; intros m; simpl.
  - destruct (decide (k ∈ [])) as [H|_]; [by apply elem_of_nil in H | done].
  - rewrite IH. destruct (decide (k ∈ ids)) as [Hin|Hnin].
    + rewrite decide_True; [done | by right].
    + destruct (decide (k = id)) as [->|Hne].
      * rewrite lookup_insert_eq. rewrite decide_True; [done | by left].

      * rewrite lookup_insert_ne by done. rewrite decide_False; [done|].
        intros [?|?]%elem_of_cons; done.
Qed.

(** Locking then unlocking locks that were free gives the table back. *)
Lemma lock_all_restore (ids : list str) (m : gmap str bool) :
  (∀ id, id ∈ ids → m !! id = Some false) →
  lock_all false ids (lock_all true ids m) = m.
Proof.
  intros Hfree. apply map_eq. intros k. rewrite !lock_all_lookup.
  destruct (decide (k ∈ ids)) as [Hin|Hnin]; [|done]. by rewrite Hfree.
Qed.

Lemma with_locks_with_locks m1 evs1 m2 evs2 self :
  with_locks m2 evs2 (with_locks m1 evs1 self) = with_locks m2 (evs1 ++ evs2) self.
Proof. unfold with_locks. simpl. by rewrite app_assoc. Qed.

Lemma set_locks_with_locks f ev self :
  set_locks f ev self = with_locks (f (_variable_locks self)) [ev] self.
Proof. done. Qed.

Lemma acquire_loop_success vars on_failure i rest self :
  NoDup (identifiers rest) →
  (∀ id, id ∈ identifiers rest → _variable_locks self !! id = Some false) →
  acquire_loop vars on_failure i rest self =
    Returns true (with_locks (lock_all true (identifiers rest) (_variable_locks self))
                    ((fun id => EvAcquire id true) <$> identifiers rest) self).
Proof.
  revert i self. induction rest as [|v rest IH]; intros i self Hnd Hfree.
  - simpl. unfold ret, with_locks. destruct self; simpl. by rewrite app_nil_r.
  - simpl in Hnd. apply NoDup_cons in Hnd as [Hv Hnd].
    cbn [acquire_loop]. unfold bind at 1. unfold acquire_nonblocking.
    rewrite (Hfree (Variable_.identifier v)) by (simpl; by left).
    rewrite set_locks_with_locks. rewrite IH; [| done |].
    + by rewrite with_locks_with_locks.
    + intros id Hid. simpl. rewrite lookup_insert_ne.
      * apply Hfree. simpl. by right.
      * intros Heq. apply Hv. by rewrite Heq.
Qed.

Lemma release_all_success vars self :
  NoDup (identifiers vars) →
  (∀ id, id ∈ identifiers vars → _variable_locks self !! id = Some true) →
  release_all vars self =
    Returns tt (with_locks (lock_all false (identifiers vars) (_variable_locks self))
                  (EvRelease <$> identifiers vars) self).
Proof.
  revert self. induction vars as [|v vars IH]; intros self Hnd Hheld.
  - simpl. unfold ret, with_locks. destruct self; simpl. by rewrite app_nil_r.
  - simpl in Hnd. apply NoDup_cons in Hnd as [Hv Hnd].
    cbn [release_all]. unfold bind at 1. unfold release.
    rewrite (Hheld (Variable_.identifier v)) by (simpl; by left).
    rewrite set_locks_with_locks. rewrite IH; [| done |].
    + by rewrite with_locks_with_locks.
    + intros id Hid. simpl. rewrite lookup_insert_ne.
      * apply Hheld. simpl. by right.
      * intros Heq. apply Hv. by rewrite Heq.
Qed.

Lemma release_while_success vars pre seg post self :
  vars = pre ++ seg ++ post →
  NoDup (identifiers seg) →
  (∀ id, id ∈ identifiers seg → _variable_locks self !! id = Some true) →
  release_while vars (length pre) (length seg) self =
    Returns tt (with_locks (lock_all false (identifiers seg) (_variable_locks self))
                  (EvRelease <$> identifiers seg) self).
Proof.
  revert pre self. induction seg as [|v seg IH]; intros pre self Hvars Hnd Hheld.
  - simpl. unfold ret, with_locks. destruct self; simpl. by rewrite app_nil_r.
  - simpl in Hnd. apply NoDup_cons in Hnd as [Hv Hnd].
    cbn [length release_while]. unfold bind at 1. unfold index.
    assert (vars !! length pre = Some v) as ->.
    { rewrite Hvars. simpl. by apply list_lookup_middle. }
    unfold ret at 1. unfold bind at 1. unfold release.
    rewrite (Hheld (Variable_.identifier v)) by (simpl; by left).
    rewrite set_locks_with_locks.
    replace (S (length pre)) with (length (pre ++ [v])) by (rewrite length_app; simpl; lia).
    rewrite (IH (pre ++ [v])); [| by rewrite <- app_assoc | done |].
    + by rewrite with_locks_with_locks.
    + intros id Hid. simpl. rewrite lookup_insert_ne.
      * apply Hheld. simpl. by right.
      * intros Heq. apply Hv. by rewrite Heq.
Qed.

(** The acquisition loop when the lock of [v] is held by someone else:
    the locks of [before] are taken, the attempt on [v] fails, and every
    lock taken so far is released. *)
Lemma acquire_loop_failure vars on_failure taken before v post self :
  vars = taken ++ before ++ v :: post →
  NoDup (identifiers (taken ++ before)) →
  (∀ id, id ∈ identifiers taken → _variable_locks self !! id = Some true) →
  (∀ id, id ∈ identifiers before → _variable_locks self !! id = Some false) →
  _variable_locks self !! Variable_.identifier v = Some true →
  acquire_loop vars on_failure (length taken) (before ++ v :: post) self =
    bind on_failure (fun _ => ret false)
      (with_locks
         (lock_all false (identifiers (taken ++ before))
            (lock_all true (identifiers before) (_variable_locks self)))
         (fmap (fun id => EvAcquire id true) (identifiers before)
          ++ EvAcquire (Variable_.identifier v) false
             :: fmap EvRelease (identifiers (taken ++ before)))
         self).
Proof.
  revert taken self. induction before as [|u before IH];
    intros taken self Hvars Hnd Htaken Hfree Hv.
  - cbn [app acquire_loop]. unfold bind at 1. unfold acquire_nonblocking.
    rewrite Hv. rewrite set_locks_with_locks. unfold bind at 1.
    rewrite app_nil_r in *.
    rewrite (release_while_success vars [] taken (v :: post)); [| done | done | done].
    by rewrite with_locks_with_locks.
  - cbn [app acquire_loop]. unfold bind at 1. unfold acquire_nonblocking.
    rewrite (Hfree (Variable_.identifier u)) by (simpl; by left).
    rewrite set_locks_with_locks.
    assert ((Variable_.identifier u ∉ identifiers taken)
            ∧ (Variable_.identifier u ∉ identifiers before)
            ∧ NoDup (identifiers ((taken ++ [u]) ++ before))) as (Hu1 & Hu2 & Hnd').
    { unfold identifiers in *. rewrite <- app_assoc. simpl.
      rewrite fmap_app in Hnd. simpl in Hnd.
      apply NoDup_app in Hnd as (Hn1 & Hn2 & Hn3).
      apply NoDup_cons in Hn3 as [Hn3 Hn4]. split_and!.
      - intros Hin. apply (Hn2 _ Hin). by left.
      - done.
      - rewrite fmap_app. simpl. apply NoDup_app. split_and!; [done | | by constructor].
        done. }
    replace (S (length taken)) with (length (taken ++ [u]))
      by (rewrite length_app; simpl; lia).
    rewrite (IH (taken ++ [u])); [| by rewrite <- app_assoc | done | | |].
    + f_equal. rewrite with_locks_with_locks. simpl.
      rewrite <- !app_assoc. simpl. done.
    + intros id Hid. simpl. unfold identifiers in Hid. rewrite fmap_app in Hid.
      apply elem_of_app in Hid as [Hid|Hid].
      * rewrite lookup_insert_ne; [by apply Htaken|].
        intros Heq. apply Hu1. by rewrite Heq.
      * simpl in Hid. apply list_elem_of_singleton in Hid as ->.
        by rewrite lookup_insert_eq.
    + intros id Hid. simpl. rewrite lookup_insert_ne.
      * apply Hfree. simpl. by right.
      * intros Heq. apply Hu2. by rewrite Heq.
    + simpl. rewrite lookup_insert_ne; [done|].
      intros Heq. rewrite <- Heq in Hv.
      rewrite (Hfree (Variable_.identifier u)) in Hv by (simpl; by left). done.
Qed.

(** ** The order on identifiers *)

Lemma N_of_ascii_inj (x y : ascii) : N_of_ascii x = N_of_ascii y → x = y.
Proof.
  intros H. rewrite <- (ascii_N_embedding x), <- (ascii_N_embedding y). by rewrite H.
Qed.

Ltac ltb_cases x y :=
  destruct (N.ltb_spec (N_of_ascii x) (N_of_ascii y));
  destruct (N.ltb_spec (N_of_ascii y) (N_of_ascii x)); try lia.

Lemma ltb_asym (a b : str) : PyStr.ltb a b = true → PyStr.ltb b a = false.
Proof.
  revert b. induction a as [|x a IH]; intros [|y b]; simpl; try done.
  ltb_cases x y; auto.
Qed.

Lemma ltb_antisym (a b : str) :
  PyStr.ltb a b = false → PyStr.ltb b a = false → a = b.
Proof.
  revert b. induction a as [|x a IH]; intros [|y b]; simpl; try done.
  ltb_cases x y; try done. intros Hab Hba.
  assert (x = y) as -> by (apply N_of_ascii_inj; lia).
  f_equal. by apply IH.
Qed.

Lemma leb_trans (a b c : str) :
  PyStr.ltb b a = false → PyStr.ltb c b = false → PyStr.ltb c a = false.
Proof.
  revert b c. induction a as [|x a IH]; intros [|y b] [|z c]; simpl; try done.
  ltb_cases y x; try done; ltb_cases z y; try done; ltb_cases z x; try done.
  apply IH.
Qed.

Global Instance Variable_le_total : Total Variable_le.
Proof.
  intros v w. unfold Variable_le, Variable_.lt.
  destruct (PyStr.ltb (Variable_._identifier w) (Variable_._identifier v)) eqn:E;
    [right | by left].
  by apply ltb_asym.
Qed.

Global Instance Variable_le_trans : Transitive Variable_le.
Proof.
  intros u v w. unfold Variable_le, Variable_.lt. intros H1 H2.
  by apply (leb_trans _ (Variable_._identifier v)).
Qed.

Lemma identifiers_NoDup (vars : list Variable_.t) :
  NoDup vars → NoDup (identifiers vars).
Proof.
  intros H. unfold identifiers. apply NoDup_fmap_2; [|done].
  intros [a] [b]. unfold Variable_.identifier. simpl. by intros ->.
Qed.

Lemma StronglySorted_increasing (vars : list Variable_.t) :
  StronglySorted Variable_le vars → NoDup vars → increasing (identifiers vars).
Proof.
  intros Hs Hnd i j a b Hij Ha Hb. unfold identifiers in Ha, Hb.
  rewrite list_lookup_fmap in Ha, Hb.
  destruct (vars !! i) as [v|] eqn:Hv; [|done].
  destruct (vars !! j) as [w|] eqn:Hw; [|done].
  simpl in Ha, Hb. injection Ha as <-. injection Hb as <-.
  assert (Variable_le v w) as Hle.
  { rewrite <- (take_drop j vars) in Hs.
    apply (StronglySorted_app_1_elem_of _ _ _ _ _ Hs).
    - apply (list_elem_of_lookup_2 _ i). by rewrite lookup_take_lt.
    - apply (list_elem_of_lookup_2 _ 0%nat). rewrite lookup_drop.
      by rewrite Nat.add_0_r. }
  unfold Variable_le, Variable_.lt in Hle. unfold Variable_.identifier.
  destruct (PyStr.ltb (Variable_._identifier v) (Variable_._identifier w)) eqn:E; [done|].
  exfalso. assert (v = w) as Heq.
  { destruct v as [x], w as [y]. simpl in *. f_equal. by apply ltb_antisym. }
  subst w. assert (i = j); [|lia]. eapply NoDup_lookup; eauto.
Qed.

Lemma sorted_facts (l : list Variable_.t) :
  NoDup l →
  NoDup (identifiers (sorted l)) ∧ increasing (identifiers (sorted l))
  ∧ ∀ v, v ∈ sorted l ↔ v ∈ l.
Proof.
  intros Hnd. unfold sorted.
  assert (NoDup (merge_sort Variable_le l)) as Hnd'.
  { by rewrite merge_sort_Permutation. }
  split_and!.
  - by apply identifiers_NoDup.
  - apply StronglySorted_increasing; [|done]. apply StronglySorted_merge_sort; apply _.
  - intros v. by rewrite merge_sort_Permutation.
Qed.

(** ** The monad of the instance methods *)

Lemma bind_returns {A B} (m : M A) (f : A → M B) self b self' :
  bind m f self = Returns b self' →
  ∃ a s1, m self = Returns a s1 ∧ f a s1 = Returns b self'.
Proof.
  unfold bind. destruct (m self) as [a s1|e s1|s1]; [eauto | done | done].
Qed.

Lemma same_data_refl self : same_data self self.
Proof. done. Qed.

Lemma same_data_trans s1 s2 s3 : same_data s1 s2 → same_data s2 s3 → same_data s1 s3.
Proof. unfold same_data. intros (?&?&?) (?&?&?). split_and!; congruence. Qed.

Lemma lock_only_ret {A} (a : A) : lock_only (ret a).
Proof. intros self a' self' [= _ <-]. apply same_data_refl. Qed.

Lemma lock_only_bind {A B} (m : M A) (f : A → M B) :
  lock_only m → (∀ a, lock_only (f a)) → lock_only (bind m f).
Proof.
  intros Hm Hf self b self' (a & s1 & H1 & H2)%bind_returns.
  eapply same_data_trans; [by eapply Hm | by eapply Hf].
Qed.

Lemma lock_only_acquire id : lock_only (acquire_nonblocking id).
Proof.
  intros self a self'. unfold acquire_nonblocking.
  destruct (_ !! _) as [[]|]; intros [= _ <-]; done.
Qed.

Lemma lock_only_release id : lock_only (release id).
Proof.
  intros self a self'. unfold release.
  destruct (_ !! _) as [[]|]; intros H; simplify_eq; done.
Qed.

Lemma lock_only_ei_acquire : lock_only ei_lock_acquire.
Proof.
  intros self a self'. unfold ei_lock_acquire.
  destruct (_ei_lock self); intros H; simplify_eq; done.
Qed.

Lemma lock_only_ei_release : lock_only ei_lock_release.
Proof.
  intros self a self'. unfold ei_lock_release.
  destruct (_ei_lock self); intros H; simplify_eq; done.
Qed.

Lemma lock_only_index vars j : lock_only (index vars j).
Proof.
  unfold index. destruct (vars !! j); [apply lock_only_ret | done].
Qed.

Lemma lock_only_release_while vars j todo : lock_only (release_while vars j todo).
Proof.
  revert j. induction todo as [|todo IH]; intros j; simpl.
  - apply lock_only_ret.
  - apply lock_only_bind; [apply lock_only_index|]. intros v.
    apply lock_only_bind; [apply lock_only_release|]. intros _. apply IH.
Qed.

Lemma lock_only_acquire_loop vars on_failure i rest :
  lock_only on_failure → lock_only (acquire_loop vars on_failure i rest).
Proof.
  intros Hf. revert i. induction rest as [|v rest IH]; intros i; simpl.
  - apply lock_only_ret.
  - apply lock_only_bind; [apply lock_only_acquire|]. intros [|]; [apply IH|].
    apply lock_only_bind; [apply lock_only_release_while|]. intros _.
    apply lock_only_bind; [done|]. intros _. apply lock_only_ret.
Qed.

Lemma lock_only_release_all vars : lock_only (release_all vars).
Proof.
  induction vars as [|v vars IH]; simpl.
  - apply lock_only_ret.
  - apply lock_only_bind; [apply lock_only_release|]. by intros _.
Qed.

(** ** The guard loops *)

Lemma holds_py_not st d r :
  PyDependency.is_satisfied_by d st = Ok r → PyDependency.py_not r = negb (holds st d).
Proof.
  intros H. unfold holds. rewrite H. unfold Ok. by destruct r as [[]|].
Qed.

Lemma all_satisfied_loop_spec deps flag self :
  match all_satisfied_loop deps flag self with
  | Returns b self' => self' = self ∧ b = flag && forallb (holds (_state self)) deps
  | Raises _ _ => ¬ Forall (evaluates (_state self)) deps
  | Blocks _ => False
  end.
Proof.
  revert flag. induction deps as [|d deps IH]; intros flag; simpl.
  - split; [done | by rewrite andb_true_r].
  - unfold bind at 1. unfold read. unfold bind at 1.
    destruct (PyDependency.is_satisfied_by d (_state self)) as [e|r] eqn:E; simpl.
    + intros HF. apply Forall_cons in HF as [[r Hr] _]. rewrite Hr in E. discriminate E.
    + specialize (IH (if PyDependency.py_not r then false else flag)).
      destruct (all_satisfied_loop deps _ self) as [b s'|e s'|s'].
      * destruct IH as [-> ->]. split; [done|].
        rewrite (holds_py_not _ _ _ E). by destruct (holds (_state self) d), flag.
      * intros HF. apply IH. by apply Forall_cons in HF as [_ ?].
      * done.
Qed.

Lemma no_break_loop_spec deps self :
  match no_break_loop deps self with
  | Returns b self' => self' = self ∧ b = forallb (holds (_state self)) deps
  | Raises _ _ => ¬ Forall (evaluates (_state self)) deps
  | Blocks _ => False
  end.
Proof.
  induction deps as [|d deps IH]; simpl; [done|].
  unfold bind at 1. unfold read. unfold bind at 1.
  destruct (PyDependency.is_satisfied_by d (_state self)) as [e|r] eqn:E; simpl.
  - intros HF. apply Forall_cons in HF as [[r Hr] _]. rewrite Hr in E. discriminate E.
  - rewrite (holds_py_not _ _ _ E). destruct (holds (_state self) d); simpl.
    + destruct (no_break_loop deps self) as [b s'|e s'|s']; [done | | done].
      intros HF. apply IH. by apply Forall_cons in HF as [_ ?].
    + done.
Qed.

Lemma trigger_loop_spec tasks trigger_task self :
  match trigger_loop tasks trigger_task self with
  | Returns b self' =>
      self' = self
      ∧ b = trigger_task
            || existsb (fun task => forallb (holds (_state self))
                                      (Guard.dependencies (Task.guard task))) tasks
  | Raises _ _ =>
      ¬ Forall (fun task => Forall (evaluates (_state self))
                              (Guard.dependencies (Task.guard task))) tasks
  | Blocks _ => False
  end.
Proof.
  revert trigger_task. induction tasks as [|task tasks IH]; intros trigger_task; simpl.
  - split; [done | by rewrite orb_false_r].
  - unfold bind at 1.
    pose proof (no_break_loop_spec (Guard.dependencies (Task.guard task)) self) as Hn.
    destruct (no_break_loop _ self) as [c s'|e s'|s']; [| | done].
    + destruct Hn as [-> ->].
      specialize (IH (if forallb (holds (_state self))
                           (Guard.dependencies (Task.guard task))
                      then true else trigger_task)).
      destruct (trigger_loop tasks _ self) as [b s'|e s'|s']; [| | done].
      * destruct IH as [-> ->]. split; [done|].
        destruct (forallb _ _), trigger_task; simpl; done.
      * intros HF. apply IH. by apply Forall_cons in HF as [_ ?].
    + intros HF. apply Hn. by apply Forall_cons in HF as [? _].
Qed.

Lemma satisfied_forallb g st :
  satisfied g st ↔ forallb (holds st) (Guard.dependencies g) = true.
Proof.
  unfold satisfied. rewrite forallb_forall. split.
  - intros H d Hd. unfold holds. rewrite H; [done | by apply list_elem_of_In].
  - intros H d Hd. apply list_elem_of_In, H in Hd. unfold holds in Hd.
    destruct (PyDependency.is_satisfied_by d st) as [e|[[]|]]; done.
Qed.

(** ** The variables of guards and experiments *)

Lemma sorted_filter_elements_facts (P : Variable_.t → Prop) `{!∀ v, Decision (P v)}
    (X : gset Variable_.t) :
  let vars := sorted (filter P (elements X)) in
  NoDup (identifiers vars) ∧ increasing (identifiers vars)
  ∧ ∀ v, v ∈ vars ↔ P v ∧ v ∈ X.
Proof.
  intros vars.
  destruct (sorted_facts (filter P (elements X))) as (H1 & H2 & H3).
  { apply NoDup_filter, NoDup_elements. }
  split_and!; [done | done |]. intros v. unfold vars. rewrite H3.
  rewrite list_elem_of_filter. by rewrite elem_of_elements.
Qed.

Lemma on_variables_facts g ns vars :
  Guard.on_variables g ns = Ok vars →
  NoDup (identifiers vars) ∧ increasing (identifiers vars).
Proof.
  unfold Guard.on_variables.
  destruct (rmap Dependency.on_variable _) as [e|vs]; simpl; [done|].
  intros [= <-].
  destruct (sorted_filter_elements_facts
              (fun variable => ns = None ∨ Some (Variable_.namespace variable) = ns)
              (list_to_set vs)) as (H1 & H2 & _).
  done.
Qed.

Lemma rmap_Ok_lookup {A B} (f : A → result B) (l : list A) (bs : list B) (a : A) :
  rmap f l = Ok bs → a ∈ l → ∃ b, f a = Ok b ∧ b ∈ bs.
Proof.
  revert bs. induction l as [|x l IH]; intros bs; simpl.
  - intros _ H. by apply elem_of_nil in H.
  - destruct (f x) as [e|b] eqn:E; simpl; [done|].
    destruct (rmap f l) as [e|bs'] eqn:E'; simpl; [done|].
    intros [= <-] [->|Hin]%elem_of_cons.
    + exists b. split; [done | by left].
    + destruct (IH bs' eq_refl Hin) as (b' & ? & ?). exists b'. split; [done | by right].
Qed.

Lemma variables_facts w vars :
  WEDMakefile.variables w None = Ok vars →
  NoDup (identifiers vars) ∧ increasing (identifiers vars)
  ∧ ∀ task tv v,
      task ∈ WEDMakefile.tasks w →
      Guard.on_variables (Task.guard task) None = Ok tv →
      v ∈ tv → v ∈ vars.
Proof.
  unfold WEDMakefile.variables.
  destruct (Guard.on_variables (WEDMakefile._initial_guard w) None) as [e|iv]; simpl; [done|].
  destruct (Guard.on_variables (WEDMakefile._final_guard w) None) as [e|fv]; simpl; [done|].
  destruct (rmap _ (WEDMakefile._tasks w)) as [e|tvs] eqn:E; simpl; [done|].
  intros [= <-].
  destruct (sorted_filter_elements_facts
              (fun variable => @None str = None ∨ Some (Variable_.namespace variable) = None)
              (list_to_set (iv ++ fv ++ concat tvs))) as (H1 & H2 & H3).
  split_and!; [done | done |]. intros task tv v Htask Htv Hv.
  apply H3. split; [by left|]. apply elem_of_list_to_set.
  destruct (rmap_Ok_lookup _ _ _ task E Htask) as (tv' & Htv' & Hin).
  rewrite Htv in Htv'. injection Htv' as <-.
  rewrite !elem_of_app. right. right. apply list_elem_of_In, in_concat.
  exists tv. split; by apply list_elem_of_In.
Qed.

(** ** Inconsistent states *)

Lemma read_returns {A} (f : t → A) self a self' :
  read f self = Returns a self' → a = f self ∧ self' = self.
Proof. unfold read. by intros [= <- <-]. Qed.

Lemma lift_returns {A} (r : result A) self a self' :
  lift r self = Returns a self' → r = Ok a ∧ self' = self.
Proof. unfold lift. destruct r; [done|]. unfold ret. by intros [= <- <-]. Qed.

Lemma ret_returns {A} (x : A) self a self' :
  ret x self = Returns a self' → a = x ∧ self' = self.
Proof. unfold ret. by intros [= <- <-]. Qed.

(** C3. Whenever [is_in_inconsistent_state] returns [True], the state
    satisfies neither the final guard nor the guard of any task. Conversely,
    when the coordination lock and every variable lock are free, so that
    every lock is acquired, and no evaluation raises, the method returns,
    its result is [True] exactly when the final guard is unsatisfied and no
    task's guard is satisfied, and it leaves every lock as it found it. *)
Theorem inconsistent_state_iff (self : PyExperimentInstance.t) :
  let w := _wedmakefile self in
  let st := _state self in
  let stuck :=
    ¬ satisfied (WEDMakefile.final_guard w) st
    ∧ ∀ task, task ∈ WEDMakefile.tasks w → ¬ satisfied (Task.guard task) st in
  (∀ self', is_in_inconsistent_state self = Returns true self' → stuck)
  ∧ (∀ vars,
       _ei_lock self = false →
       WEDMakefile.variables w None = Ok vars →
       (∀ id, id ∈ identifiers vars → _variable_locks self !! id = Some false) →
       Forall (evaluates st) (Guard.dependencies (WEDMakefile.final_guard w)) →
       Forall (fun task => Forall (evaluates st) (Guard.dependencies (Task.guard task)))
              (WEDMakefile.tasks w) →
       ∃ b self',
         is_in_inconsistent_state self = Returns b self'
         ∧ (b = true ↔ stuck)
         ∧ _variable_locks self' = _variable_locks self
         ∧ _ei_lock self' = false).
Proof.
  intros w st stuck. split.
  - intros self' H. unfold is_in_inconsistent_state, CSDecorator in H.
    apply bind_returns in H as ([] & s1 & H1 & H).
    apply bind_returns in H as (res & s2 & Hbody & H).
    apply bind_returns in H as ([] & s3 & H3 & H).
    apply ret_returns in H as [<- ->].
    apply lock_only_ei_acquire in H1 as D1.
    apply bind_returns in Hbody as (w' & s1' & Hw & Hbody).
    apply read_returns in Hw as [-> ->].
    apply bind_returns in Hbody as (vars & s1' & Hv & Hbody).
    apply lift_returns in Hv as [Hv ->].
    apply bind_returns in Hbody as (acq & s4 & Hacq & Hbody).
    apply lock_only_acquire_loop in Hacq as D4; [|apply lock_only_ret].
    destruct acq; [|by apply ret_returns in Hbody as [? _]].
    apply bind_returns in Hbody as (fin & s5 & Hfin & Hbody).
    apply bind_returns in Hbody as (trig & s6 & Htrig & Hbody).
    apply bind_returns in Hbody as ([] & s7 & _ & Hbody).
    apply ret_returns in Hbody as [Hres _].
    pose proof (all_satisfied_loop_spec
                  (Guard.dependencies (WEDMakefile.final_guard (_wedmakefile s1))) true s4) as Sf.
    rewrite Hfin in Sf. destruct Sf as [-> ->].
    pose proof (trigger_loop_spec (WEDMakefile.tasks (_wedmakefile s1)) false s4) as St.
    rewrite Htrig in St. destruct St as [-> ->].
    destruct D1 as (Dw1 & Ds1 & _), D4 as (_ & Ds4 & _).
    rewrite Ds4, Ds1 in Hres. rewrite Dw1 in Hres. fold w st in Hres.
    simpl in Hres. symmetry in Hres. apply andb_true_iff in Hres as [Hf Ht].
    apply negb_true_iff in Hf, Ht. split.
    + rewrite satisfied_forallb. by rewrite Hf.
    + intros task Htask. rewrite satisfied_forallb. intros Hsat.
      assert (existsb (fun task => forallb (holds st) (Guard.dependencies (Task.guard task)))
                (WEDMakefile.tasks w) = true) as Hex; [|by rewrite Hex in Ht].
      apply existsb_exists. exists task. split; [by apply list_elem_of_In | done].
  - intros vars Hei Hvars Hfree Hfe Hte.
    destruct (variables_facts _ _ Hvars) as (Hnd & _ & _).
    unfold is_in_inconsistent_state, CSDecorator.
    unfold bind at 1. unfold ei_lock_acquire. rewrite Hei.
    unfold bind at 1. unfold bind at 1. unfold read at 1. simpl.
    fold w. rewrite Hvars. unfold bind at 1. simpl. unfold ret at 1.
    unfold bind at 1. rewrite acquire_loop_success; [| done | done].
    unfold bind at 1.
    match goal with |- context [all_satisfied_loop ?d ?f ?s] =>
      pose proof (all_satisfied_loop_spec d f s) as Sf;
      destruct (all_satisfied_loop d f s) as [fin s5|e s5|s5] end;
      [| by destruct Sf | done].
    destruct Sf as [-> ->]. unfold bind at 1.
    match goal with |- context [trigger_loop ?d ?f ?s] =>
      pose proof (trigger_loop_spec d f s) as St;
      destruct (trigger_loop d f s) as [trig s6|e s6|s6] end;
      [| by destruct St | done].
    destruct St as [-> ->]. unfold bind at 1.
    rewrite release_all_success; [| done |].
    2:{ intros id Hid. simpl. rewrite lock_all_lookup. by rewrite decide_True. }
    unfold ret at 1. unfold bind at 1. unfold ei_lock_release. simpl.
    eexists _, _. split; [reflexivity|]. simpl. split_and!.
    + fold st. unfold stuck. rewrite andb_true_iff, !negb_true_iff.
      rewrite !satisfied_forallb.
      split.
      * intros [Hf Ht]. split; [by rewrite Hf|]. intros task Htask.
        rewrite satisfied_forallb. intros Hsat.
        assert (existsb (fun task => forallb (holds st) (Guard.dependencies (Task.guard task)))
                  (WEDMakefile.tasks w) = true) as Hex; [|by rewrite Hex in Ht].
        apply existsb_exists. exists task. split; [by apply list_elem_of_In | done].
      * intros [Hf Ht]. split; [by destruct (forallb _ _)|].
        destruct (existsb _ _) eqn:Hex; [|done]. exfalso.
        apply existsb_exists in Hex as (task & Htask & Hsat).
        apply (Ht task); [by apply list_elem_of_In|]. by apply satisfied_forallb.
    + by apply lock_all_restore.
    + done.
Qed.

Lemma inconsistent_state_iff_witness :
  ∃ self',
    is_in_inconsistent_state Stuck.instance = Returns true self'
    ∧ ¬ satisfied (WEDMakefile.final_guard Stuck.wedmakefile) Stuck.state
    ∧ ∀ task, task ∈ WEDMakefile.tasks Stuck.wedmakefile →
              ¬ satisfied (Task.guard task) Stuck.state.
Proof.
  destruct (proj2 (inconsistent_state_iff Stuck.instance) [Variable_.mk (py "A")])
    as (b & self' & Hrun & Hiff & _).
  - reflexivity.
  - vm_compute. reflexivity.
  - intros id Hid. apply list_elem_of_singleton in Hid as ->. reflexivity.
  - repeat constructor. eexists. vm_compute. reflexivity.
  - repeat constructor. eexists. vm_compute. reflexivity.
  - assert (b = true) as ->.
    { revert Hrun. vm_compute. by intros [= <- _]. }
    exists self'. split; [exact Hrun|]. by apply Hiff.
Defined.

(** ** Instantiation *)

Lemma initial_guard_loop_Ok deps st :
  initial_guard_loop deps st = Ok tt
  ↔ ∀ d, d ∈ deps → PyDependency.is_satisfied_by d st = Ok (Some true).
Proof.
  induction deps as [|d deps IH]; simpl.
  - split; [|done]. intros _ d H. by apply elem_of_nil in H.
  - destruct (PyDependency.is_satisfied_by d st) as [e|r] eqn:E; simpl.
    + split; [done|]. intros H. specialize (H d (list_elem_of_here _ _)).
      rewrite E in H. discriminate H.
    + destruct r as [[]|]; simpl.
      * rewrite IH. split.
        -- intros H d' [->|Hin]%elem_of_cons; [done | by apply H].
        -- intros H d' Hin. apply H. by right.
      * split; [done|]. intros H. specialize (H d (list_elem_of_here _ _)).
        rewrite E in H. discriminate H.
      * split; [done|]. intros H. specialize (H d (list_elem_of_here _ _)).
        rewrite E in H. discriminate H.
Qed.

Lemma initial_guard_loop_first pre d post r st :
  (∀ d', d' ∈ pre → PyDependency.is_satisfied_by d' st = Ok (Some true)) →
  PyDependency.is_satisfied_by d st = Ok r → r ≠ Some true →
  initial_guard_loop (pre ++ d :: post) st = Err (UnsatisfiedInitialGuard d).
Proof.
  intros Hpre Hd Hr. induction pre as [|d' pre IH]; simpl.
  - rewrite Hd. simpl. by destruct r as [[]|].
  - rewrite (Hpre d') by by left. simpl. apply IH. intros d'' Hin. apply Hpre. by right.
Qed.

(** C4. For an experiment whose variables can be listed, instantiation
    succeeds exactly when the configuration state satisfies every
    dependency of the initial guard, and the instance then holds that state,
    no exception and a free lock per variable. When a dependency of the
    initial guard is unsatisfied, instantiation raises
    [UnsatisfiedInitialGuard] whose message carries the clause of the first
    such dependency, and no instance is returned. *)
Theorem init_iff_initial_guard (w : WEDMakefile.t) (st : PyExperimentInstanceState.t)
    (vars : list Variable_.t) :
  WEDMakefile.variables w None = Ok vars →
  ((∃ self, PyExperimentInstance.init w st = Ok self)
   ↔ satisfied (WEDMakefile.initial_guard w) st)
  ∧ (∀ self, PyExperimentInstance.init w st = Ok self →
       _wedmakefile self = w ∧ _state self = st ∧ _exceptions self = []
       ∧ ∀ v, v ∈ vars → _variable_locks self !! Variable_.identifier v = Some false)
  ∧ (∀ pre d post r,
       Guard.dependencies (WEDMakefile.initial_guard w) = pre ++ d :: post →
       (∀ d', d' ∈ pre → PyDependency.is_satisfied_by d' st = Ok (Some true)) →
       PyDependency.is_satisfied_by d st = Ok r → r ≠ Some true →
       PyExperimentInstance.init w st
       = Err (RuntimeError
                (py "UnsatisfiedInitialGuard: The initial state does not satisfy dependency "
                 ++ Dependency.clause d ++ py "."))).
Proof.
  intros Hvars. unfold PyExperimentInstance.init. rewrite Hvars. split_and!.
  - unfold satisfied. rewrite <- initial_guard_loop_Ok.
    destruct (initial_guard_loop _ st) as [e|[]]; simpl.
    + split; [by intros [? ?] | done].
    + split; [done | eauto].
  - intros self. destruct (initial_guard_loop _ st) as [e|[]]; simpl; [done|].
    intros [= <-]. simpl. split_and!; try done.
    intros v Hv. apply elem_of_list_to_map_1'.
    + intros b (v' & [= Hid <-] & _)%list_elem_of_fmap. done.
    + apply list_elem_of_fmap. by exists v.
  - intros pre d post r Hdeps Hpre Hd Hr. rewrite Hdeps.
    by rewrite (initial_guard_loop_first pre d post r).
Qed.

Lemma init_iff_initial_guard_witness :
  (∃ self, PyExperimentInstance.init Pipeline.wedmakefile (Pipeline.state_of "init" rw)
           = Ok self)
  ∧ PyExperimentInstance.init Pipeline.wedmakefile (Pipeline.state_of "mid" ro)
    = Err (RuntimeError
             (py "UnsatisfiedInitialGuard: The initial state does not satisfy dependency $S = 'init'.")).
Proof.
  assert (WEDMakefile.variables Pipeline.wedmakefile None = Ok [Variable_.mk (py "S")])
    as Hvars by (vm_compute; reflexivity).
  split.
  - apply (proj1 (init_iff_initial_guard _ (Pipeline.state_of "init" rw) _ Hvars)).
    intros d Hd. apply list_elem_of_singleton in Hd as ->. vm_compute. reflexivity.
  - apply (proj2 (proj2 (init_iff_initial_guard _ (Pipeline.state_of "mid" ro) _ Hvars))
             [] (Dependency.mk (py "$S = 'init'")) [] (Some false)).
    + reflexivity.
    + intros d' Hd'. by apply elem_of_nil in Hd'.
    + vm_compute. reflexivity.
    + discriminate.
Defined.

(** ** Running a task *)

Lemma perm_at_Ok st k :
  is_Some (PyDict.get (PyExperimentInstanceState._permission st) k) →
  ∃ p, PyExperimentInstanceState.perm_at st k = Ok p.
Proof. unfold PyExperimentInstanceState.perm_at. intros [p ->]. by exists p. Qed.

Lemma diff_loop_Ok self other todo acc :
  paired self → paired other →
  (∀ k, k ∈ PyDict.keys todo → is_Some (PyDict.get (PyExperimentInstanceState.items self) k)) →
  ∃ d, PyExperimentInstanceState.diff_loop self other todo acc = Ok d.
Proof.
  intros Hs Ho. revert acc. induction todo as [|[k v] todo IH]; intros acc Hk; simpl.
  - by eexists.
  - assert (is_Some (PyDict.get (PyExperimentInstanceState.items self) k)) as Hin.
    { apply Hk. simpl. by left. }
    destruct (perm_at_Ok self k) as [ps Hps]; [by apply Hs|].
    assert (∀ k', k' ∈ PyDict.keys todo →
                  is_Some (PyDict.get (PyExperimentInstanceState.items self) k')) as Hk'.
    { intros k' Hin'. apply Hk. simpl. by right. }
    case_bool_decide as Hne; simpl.
    + rewrite Hps. simpl. by apply IH.
    + destruct (perm_at_Ok other k) as [po Hpo].
      { apply Ho. by rewrite Hne. }
      rewrite Hpo. simpl. rewrite Hps. simpl. case_bool_decide; simpl; by apply IH.
Qed.

Lemma diff_Ok self other :
  paired self → paired other → ∃ d, PyExperimentInstanceState.diff self other = Ok d.
Proof.
  intros Hs Ho. unfold PyExperimentInstanceState.diff. apply diff_loop_Ok; [done | done |].
  intros k Hk. by apply get_is_Some_keys.
Qed.

Lemma Variable_in_declared vars k :
  Variable_in (Variable_.mk k) vars = true ↔ declared vars k.
Proof.
  unfold Variable_in, declared. rewrite existsb_exists. split.
  - intros ([k'] & Hin & Heq). unfold Variable_.eq in Heq. simpl in Heq.
    apply bool_decide_eq_true in Heq as ->. by apply list_elem_of_In.
  - intros Hin. exists (Variable_.mk k). split; [by apply list_elem_of_In|].
    unfold Variable_.eq. by apply bool_decide_eq_true.
Qed.

Lemma Variable_init_valid k :
  Variable_.is_valid_identifier k = true → Variable_.init k = Ok (Variable_.mk k).
Proof. intros H. unfold Variable_.init, Variable_.validate_identifier. by rewrite H. Qed.

Lemma undeclared_loop_all task vars (todo : pydict str) self :
  (∀ k, k ∈ PyDict.keys todo → Variable_.is_valid_identifier k = true) →
  (∀ k, k ∈ PyDict.keys todo → declared vars k) →
  undeclared_loop task vars todo self = Returns true self.
Proof.
  induction todo as [|[k v] todo IH]; intros Hvalid Hdecl; simpl; [done|].
  unfold bind at 1. rewrite Variable_init_valid by (apply Hvalid; simpl; by left).
  simpl. unfold ret at 1.
  assert (Variable_in (Variable_.mk k) vars = true) as ->.
  { apply Variable_in_declared, Hdecl. simpl. by left. }
  simpl. apply IH; intros k' Hk'; [apply Hvalid | apply Hdecl]; simpl; by right.
Qed.


(** The instance once the locks of [vars] have been taken. *)
Lemma execute_task_acquired from_bash_script task self vars :
  Guard.on_variables (Task.guard task) None = Ok vars →
  _ei_lock self = false →
  (∀ id, id ∈ identifiers vars → _variable_locks self !! id = Some false) →
  satisfied (Task.guard task) (_state self) →
  let held := with_locks (lock_all true (identifiers vars) (_variable_locks self))
                ((fun id => EvAcquire id true) <$> identifiers vars) self in
  execute_task from_bash_script task self =
    bind (match from_bash_script task (script_args (_state self) vars) with
          | inl _ => bind (modify (append_exception (TaskExecutionError task)))
                          (fun _ => ret false)
          | inr other_state =>
              bind (undeclared_loop task vars (PyExperimentInstanceState.items other_state))
                (fun declared : bool =>
                   if declared then
                     bind (read _state) (fun st' =>
                     bind (lift (PyExperimentInstanceState.diff other_state st')) (fun _ =>
                     bind ei_lock_acquire (fun _ =>
                     bind (modify (fun self =>
                             set_state (PyExperimentInstanceState.update (_state self) other_state)
                                       self)) (fun _ =>
                     bind ei_lock_release (fun _ => ret true)))))
                   else ret false)
          end)
         (fun execute_task => bind (release_all vars) (fun _ => ret execute_task))
         held.
Proof.
  intros Hvars Hei Hfree Hsat held.
  destruct (on_variables_facts _ _ _ Hvars) as [Hnd _].
  unfold execute_task. unfold bind at 1. unfold ei_lock_acquire. rewrite Hei.
  unfold bind at 1. rewrite Hvars. simpl. unfold ret at 1.
  unfold bind at 1. rewrite acquire_loop_success; [| done | done].
  unfold bind at 1. unfold ei_lock_release at 1. simpl.
  unfold bind at 1.
  match goal with |- context [no_break_loop ?d ?s] =>
    pose proof (no_break_loop_spec d s) as Sn;
    destruct (no_break_loop d s) as [b s5|e s5|s5] end.
  - destruct Sn as [-> ->]. simpl.
    apply satisfied_forallb in Hsat. rewrite Hsat.
    unfold bind at 2. unfold read at 1. simpl.
    replace (set_ei_lock false _) with held; [done|].
    unfold held, with_locks, set_ei_lock. simpl. by rewrite Hei.
  - exfalso. apply Sn. simpl. apply Forall_forall. intros d Hd.
    exists (Some true). by apply Hsat.
  - done.
Qed.


Lemma paired_same_keys st :
  PyDict.keys (PyExperimentInstanceState.items st)
  = PyDict.keys (PyExperimentInstanceState._permission st) →
  paired st.
Proof. intros H k. rewrite !get_is_Some_keys. by rewrite H. Qed.


(** ** Non-blocking acquisition of several locks *)

Lemma acquire_loop_refused vars on_failure before v post self :
  vars = before ++ v :: post →
  NoDup (identifiers vars) →
  (∀ id, id ∈ identifiers before → _variable_locks self !! id = Some false) →
  _variable_locks self !! Variable_.identifier v = Some true →
  acquire_loop vars on_failure 0 vars self =
    bind on_failure (fun _ => ret false)
      (with_locks (_variable_locks self) (refusal_events before v) self).
Proof.
  intros Hvars Hnd Hfree Hv.
  assert (NoDup (identifiers before)) as Hnd'.
  { rewrite Hvars in Hnd. unfold identifiers in *. rewrite fmap_app in Hnd.
    by apply NoDup_app in Hnd as [? _]. }
  pose proof (acquire_loop_failure vars on_failure [] before v post self
                Hvars Hnd') as H.
  simpl in H. rewrite <- Hvars in H. rewrite H; [| | done | done].
  - by rewrite lock_all_restore.
  - intros id Hid. by apply elem_of_nil in Hid.
Qed.

Lemma attempts_acquired (l : list str) (b : bool) :
  attempts (fmap (fun id => EvAcquire id b) l) = l.
Proof. induction l as [|x l IH]; [done|]. unfold attempts in *. simpl. f_equal. exact IH. Qed.

Lemma attempts_released (l : list str) : attempts (fmap EvRelease l) = [].
Proof. induction l as [|x l IH]; [done|]. unfold attempts in *. simpl. exact IH. Qed.

Lemma attempts_app (e1 e2 : list lock_event) :
  attempts (e1 ++ e2) = attempts e1 ++ attempts e2.
Proof. unfold attempts. apply omap_app. Qed.

Lemma attempts_refusal_events before v :
  attempts (refusal_events before v) = identifiers (before ++ [v]).
Proof.
  unfold refusal_events. rewrite attempts_app, attempts_acquired.
  change (EvAcquire (Variable_.identifier v) false :: fmap EvRelease (identifiers before))
    with ([EvAcquire (Variable_.identifier v) false] ++ fmap EvRelease (identifiers before)).
  rewrite attempts_app, attempts_released. unfold identifiers. rewrite fmap_app. done.
Qed.

(** C8. In each of the four operations the locks are attempted in the
    order of the sorted variable list, which is strictly increasing in the
    lexicographic order of identifiers. When the first lock found held is
    that of [v], after the free locks of [before], the operation takes the
    locks of [before], fails on [v], releases the locks of [before] and
    returns [False]; the lock table and the coordination lock are then as
    they were before the call. *)
Theorem acquisition_all_or_nothing
    (from_bash_script : Task.t → list (str * str * permission)
                        → result PyExperimentInstanceState.t)
    (task : Task.t) (self : PyExperimentInstance.t)
    (before : list Variable_.t) (v : Variable_.t) (post : list Variable_.t) :
  _ei_lock self = false →
  (∀ id, id ∈ identifiers before → _variable_locks self !! id = Some false) →
  _variable_locks self !! Variable_.identifier v = Some true →
  (WEDMakefile.variables (_wedmakefile self) None = Ok (before ++ v :: post) →
     increasing (identifiers (before ++ v :: post))
     ∧ attempts (refusal_events before v) = identifiers (before ++ [v])
     ∧ refuses is_in_final_state self (refusal_events before v)
     ∧ refuses is_in_inconsistent_state self (refusal_events before v))
  ∧ (Guard.on_variables (Task.guard task) None = Ok (before ++ v :: post) →
     increasing (identifiers (before ++ v :: post))
     ∧ attempts (refusal_events before v) = identifiers (before ++ [v])
     ∧ refuses (is_ready_to_execute_task task) self (refusal_events before v)
     ∧ refuses (execute_task from_bash_script task) self (refusal_events before v)).
Proof.
  intros Hei Hfree Hv. split.
  - intros Hvars. destruct (variables_facts _ _ Hvars) as (Hnd & Hinc & _).
    split_and!; [done | apply attempts_refusal_events | |].
    + unfold refuses, is_in_final_state, CSDecorator.
      unfold bind at 1. unfold ei_lock_acquire. rewrite Hei.
      unfold bind at 1. unfold bind at 1. unfold read at 1. simpl.
      rewrite Hvars. unfold bind at 1. simpl. unfold ret at 1.
      unfold bind at 1.
      rewrite (acquire_loop_refused _ _ before v post); [| done | done | done | done].
      simpl. unfold ei_lock_release. simpl. unfold ret.
      eexists. split; [reflexivity|]. simpl. split_and!; done.
    + unfold refuses, is_in_inconsistent_state, CSDecorator.
      unfold bind at 1. unfold ei_lock_acquire. rewrite Hei.
      unfold bind at 1. unfold bind at 1. unfold read at 1. simpl.
      rewrite Hvars. unfold bind at 1. simpl. unfold ret at 1.
      unfold bind at 1.
      rewrite (acquire_loop_refused _ _ before v post); [| done | done | done | done].
      simpl. unfold ei_lock_release. simpl. unfold ret.
      eexists. split; [reflexivity|]. simpl. split_and!; done.
  - intros Hvars. destruct (on_variables_facts _ _ _ Hvars) as (Hnd & Hinc).
    split_and!; [done | apply attempts_refusal_events | |].
    + unfold refuses, is_ready_to_execute_task, CSDecorator.
      unfold bind at 1. unfold ei_lock_acquire. rewrite Hei.
      unfold bind at 1. unfold bind at 1.
      rewrite Hvars. simpl. unfold ret at 1.
      unfold bind at 1.
      rewrite (acquire_loop_refused _ _ before v post); [| done | done | done | done].
      simpl. unfold ei_lock_release. simpl. unfold ret.
      eexists. split; [reflexivity|]. simpl. split_and!; done.
    + unfold refuses, execute_task.
      unfold bind at 1. unfold ei_lock_acquire. rewrite Hei.
      unfold bind at 1.
      rewrite Hvars. simpl. unfold ret at 1.
      unfold bind at 1.
      rewrite (acquire_loop_refused _ _ before v post); [| done | done | done | done].
      unfold bind at 1. unfold ei_lock_release. simpl. unfold ret.
      eexists. split; [reflexivity|]. simpl. split_and!; done.
Qed.

Lemma acquisition_all_or_nothing_witness :
  let evs := [EvAcquire (py "A") true; EvAcquire (py "B") false; EvRelease (py "A")] in
  attempts evs = [py "A"; py "B"]
  ∧ PyStr.ltb (py "A") (py "B") = true
  ∧ refuses is_in_final_state TwoLocks.instance evs
  ∧ refuses is_in_inconsistent_state TwoLocks.instance evs
  ∧ refuses (is_ready_to_execute_task TwoLocks.task_T) TwoLocks.instance evs
  ∧ refuses (execute_task TwoLocks.script TwoLocks.task_T) TwoLocks.instance evs.
Proof.
  destruct (acquisition_all_or_nothing TwoLocks.script TwoLocks.task_T TwoLocks.instance
              [Variable_.mk (py "A")] (Variable_.mk (py "B")) [])
    as [Hall Htask].
  - reflexivity.
  - intros id Hid. apply list_elem_of_singleton in Hid as ->. reflexivity.
  - reflexivity.
  - destruct Hall as (Hinc & Hatt & Hfin & Hinco); [vm_compute; reflexivity|].
    destruct Htask as (_ & _ & Hready & Hexec); [vm_compute; reflexivity|].
    split_and!; [exact Hatt | | exact Hfin | exact Hinco | exact Hready | exact Hexec].
    apply (Hinc 0%nat 1%nat); [lia | reflexivity | reflexivity].
Defined.

(** ** The backtracking matcher against what a pattern denotes *)

Lemma rep_bt_sound {A} c lo hi s (k : str → option A) x :
  rep_bt c lo hi s k = Some x →
  ∃ s1 s2, s = s1 ++ s2 ∧ Forall (fun a => in_class c a = true) s1
           ∧ (lo ≤ length s1)%nat ∧ within (length s1) hi ∧ k s2 = Some x.
Proof.
  revert lo hi. induction s as [|a s IH]; intros lo hi; simpl.
  - destruct lo; [|done]. intros Hk. exists [], []. split_and!; try done.
    destruct hi; simpl; [lia | done].
  - assert (match lo with O => k (a :: s) | S _ => None end = Some x →
            ∃ s1 s2, a :: s = s1 ++ s2 ∧ Forall (fun a => in_class c a = true) s1
                     ∧ (lo ≤ length s1)%nat ∧ within (length s1) hi
                     ∧ k s2 = Some x) as Hstop.
    { destruct lo; [|done]. intros Hk. exists [], (a :: s). split_and!; try done.
      destruct hi; simpl; [lia | done]. }
    destruct (in_class c a) eqn:Ha; simpl; [|done].
    case_bool_decide as Hhi; simpl; [done|].
    destruct (rep_bt c (Nat.pred lo) (Nat.pred <$> hi) s k) as [y|] eqn:E; [|done].
    intros [= ->]. apply IH in E as (s1 & s2 & -> & HF & Hlo & Hw & Hk).
    exists (a :: s1), s2. split_and!; try done.
    + by constructor.
    + simpl. lia.
    + destruct hi as [h|]; simpl in *; [|done].
      assert (h ≠ 0%nat) by congruence. lia.
Qed.

Lemma rep_bt_zero {A} c hi s (k : str → option A) :
  is_Some (k s) → is_Some (rep_bt c 0 hi s k).
Proof.
  intros Hk. destruct s as [|a s]; simpl; [done|].
  destruct (in_class c a && negb (bool_decide (hi = Some 0%nat))); [|done].
  destruct (rep_bt c _ _ s k); [by eexists | done].
Qed.

Lemma rep_bt_complete {A} c lo hi s1 s2 (k : str → option A) :
  Forall (fun a => in_class c a = true) s1 →
  (lo ≤ length s1)%nat → within (length s1) hi →
  is_Some (k s2) → is_Some (rep_bt c lo hi (s1 ++ s2) k).
Proof.
  intros HF. revert lo hi. induction HF as [|a s1 Ha HF IH]; intros lo hi Hlo Hw Hk.
  - simpl in Hlo. assert (lo = 0%nat) as -> by lia. by apply rep_bt_zero.
  - simpl. rewrite Ha. simpl.
    assert (hi ≠ Some 0%nat) as Hhi.
    { intros ->. simpl in Hw. lia. }
    rewrite bool_decide_eq_false_2 by done. simpl.
    destruct (IH (Nat.pred lo) (Nat.pred <$> hi)) as [y Hy]; [simpl in Hlo; lia | | done |].
    + destruct hi as [h|]; simpl in *; [lia | done].
    + by rewrite Hy.
Qed.

Lemma bt_sound r s g k gf :
  bt r s g k = Some gf →
  ∃ s1 s2 g', s = s1 ++ s2 ∧ captures r s1 g g' ∧ k s2 g' = Some gf.
Proof.
  revert s g k gf. induction r as [|c|r1 IH1 r2 IH2|r1 IH1 r2 IH2|c lo hi|i r IH];
    intros s g k gf; simpl.
  - intros Hk. by exists [], s, g.
  - destruct s as [|a s]; [done|]. destruct (in_class c a) eqn:Ha; [|done].
    intros Hk. exists [a], s, g. split_and!; eauto.
  - intros H. apply IH1 in H as (s1 & s' & g1 & -> & H1 & H).
    apply IH2 in H as (s2 & s3 & g2 & -> & H2 & H).
    exists (s1 ++ s2), s3, g2. rewrite app_assoc. split_and!; try done.
    by exists s1, s2, g1.
  - destruct (bt r1 s g k) as [x|] eqn:E.
    + intros [= ->]. apply IH1 in E as (s1 & s2 & g' & -> & H1 & H). eauto 10.
    + intros H. apply IH2 in H as (s1 & s2 & g' & -> & H2 & H). eauto 10.
  - intros H. apply rep_bt_sound in H as (s1 & s2 & -> & HF & Hlo & Hw & Hk).
    exists s1, s2, g. split_and!; done.
  - intros H. apply IH in H as (s1 & s2 & g1 & -> & H1 & Hk).
    exists s1, s2, (<[i := Some s1]> g1). split_and!; [done | by exists g1 |].
    rewrite length_app in Hk.
    replace (length s1 + length s2 - length s2)%nat with (length s1) in Hk by lia.
    by rewrite take_app_length in Hk.
Qed.

Lemma bt_complete r s1 s2 g k :
  lang r s1 → (∀ g', is_Some (k s2 g')) → is_Some (bt r (s1 ++ s2) g k).
Proof.
  revert s1 s2 g k. induction r as [|c|r1 IH1 r2 IH2|r1 IH1 r2 IH2|c lo hi|i r IH];
    intros s1 s2 g k; simpl.
  - intros -> Hk. apply Hk.
  - intros (a & -> & Ha) Hk. simpl. rewrite Ha. apply Hk.
  - intros (a & b & -> & Ha & Hb) Hk. rewrite <- app_assoc.
    apply IH1; [done|]. intros g'. by apply IH2.
  - intros Hl Hk. destruct (bt r1 (s1 ++ s2) g k) as [x|] eqn:E; [by eexists|].
    destruct Hl as [Hl|Hl]; [|by apply IH2].
    destruct (IH1 s1 s2 g k Hl Hk) as [x Hx]. congruence.
  - intros (HF & Hlo & Hw) Hk. by apply rep_bt_complete.
  - intros Hl Hk. apply IH; [done|]. intros g'. apply Hk.
Qed.

Lemma captures_lang r s g g' : captures r s g g' → lang r s.
Proof.
  revert s g g'. induction r as [|c|r1 IH1 r2 IH2|r1 IH1 r2 IH2|c lo hi|i r IH];
    intros s g g'; simpl.
  - by intros [? _].
  - by intros [? _].
  - intros (s1 & s2 & g1 & -> & H1 & H2). exists s1, s2. eauto.
  - intros [H|H]; eauto.
  - by intros [? _].
  - intros (g1 & H & _). eauto.
Qed.

(** [re.fullmatch] succeeds exactly on the texts the pattern denotes, and
    the groups it returns are groups of such a match. *)
Lemma fullmatch_sound n r s g :
  fullmatch n r s = Some g → captures r s (replicate n None) g.
Proof.
  unfold fullmatch. intros H. apply bt_sound in H as (s1 & s2 & g' & -> & Hc & Hk).
  destruct s2; [|done]. injection Hk as ->. by rewrite app_nil_r.
Qed.

Lemma fullmatch_complete n r s : lang r s → is_Some (fullmatch n r s).
Proof.
  intros Hl. unfold fullmatch. rewrite <- (app_nil_r s).
  apply bt_complete; [done|]. intros g'. by eexists.
Qed.

Lemma fullmatch_lang n r s : is_Some (fullmatch n r s) ↔ lang r s.
Proof.
  split; [|apply fullmatch_complete].
  intros [g Hg]. by apply fullmatch_sound, captures_lang in Hg.
Qed.

(** ** Characters *)

Ltac all_chars a := destruct a as [[] [] [] [] [] [] [] []]; vm_compute; try done.

Lemma word_of_alpha a :
  in_class Variable_.alpha a = true → in_class Variable_.word a = true.
Proof. all_chars a. Qed.

Lemma word_of_alnum a :
  in_class Variable_.alnum a = true → in_class Variable_.word a = true.
Proof. all_chars a. Qed.

Lemma space_not_word a :
  PyStr.isspace a = true → in_class Variable_.word a = false.
Proof. all_chars a. Qed.

Lemma in_class_space a : in_class CSpace a = PyStr.isspace a.
Proof. done. Qed.

Lemma in_class_char x a : in_class (CChar x) a = true ↔ a = x.
Proof. simpl. apply chr_eqb_true. Qed.

Lemma in_class_dot a : in_class CDot a = true ↔ a ≠ "010"%char.
Proof. simpl. rewrite negb_true_iff. apply chr_eqb_false. Qed.

(** Two ways of cutting one text into a run of [P] and a rest that stops
    the run are the same. *)
Lemma span_unique (P : ascii → bool) (l1 r1 l2 r2 : str) :
  l1 ++ r1 = l2 ++ r2 →
  Forall (fun a => P a = true) l1 → Forall (fun a => P a = true) l2 →
  stops P r1 → stops P r2 → l1 = l2 ∧ r1 = r2.
Proof.
  revert l2. induction l1 as [|a l1 IH]; intros l2 Heq H1 H2 S1 S2.
  - destruct l2 as [|b l2]; [done|]. simpl in Heq. subst r1. simpl in S1.
    apply Forall_cons in H2 as [Hb _]. congruence.
  - destruct l2 as [|b l2].
    + simpl in Heq. subst r2. simpl in S2. apply Forall_cons in H1 as [Ha _]. congruence.
    + simpl in Heq. injection Heq as -> Heq.
      apply Forall_cons in H1 as [_ H1]. apply Forall_cons in H2 as [_ H2].
      destruct (IH l2 Heq H1 H2 S1 S2) as [-> ->]. done.
Qed.

Lemma stops_word_after_spaces (ws t : str) :
  spaces ws → (ws = [] → stops (in_class Variable_.word) t) →
  stops (in_class Variable_.word) (ws ++ t).
Proof.
  intros Hws Ht. destruct ws as [|a ws]; simpl; [by apply Ht|].
  apply Forall_cons in Hws as [Ha _]. by apply space_not_word.
Qed.

(** ** Identifiers and values *)

Lemma lang_IDENTIFIER_word (id : str) :
  lang Variable_.IDENTIFIER id →
  Forall (fun a => in_class Variable_.word a = true) id ∧ id ≠ [].
Proof.
  simpl. intros [(s1 & s2 & -> & (a & -> & Ha) & (mid & s3 & -> & (Hmid & _) & (z & -> & Hz)))
                |(a & -> & Ha)].
  - split; [|done]. apply Forall_app. split.
    + constructor; [by apply word_of_alpha | done].
    + apply Forall_app. split; [done|]. constructor; [by apply word_of_alnum | done].
  - split; [|done]. constructor; [by apply word_of_alpha | done].
Qed.

Lemma is_valid_identifier_lang (id : str) :
  Variable_.is_valid_identifier id = true ↔ lang Variable_.IDENTIFIER id.
Proof.
  unfold Variable_.is_valid_identifier. rewrite bool_decide_eq_true. apply fullmatch_lang.
Qed.

Lemma is_valid_value_lang (lit : str) :
  Variable_.is_valid_value lit = true ↔ lang Variable_.VALUE lit.
Proof.
  unfold Variable_.is_valid_value. rewrite bool_decide_eq_true. apply fullmatch_lang.
Qed.

Lemma captures_IDENTIFIER id g g' : captures Variable_.IDENTIFIER id g g' → g' = g.
Proof.
  simpl. intros [(s1 & s2 & g1 & _ & (_ & ->) & (s3 & s4 & g2 & _ & (_ & ->) & (_ & ->)))
                |(_ & ->)]; done.
Qed.

(** * Clauses and the patterns that match them *)

Lemma lang_identifier_form (id : str) : lang Variable_.IDENTIFIER id ↔ identifier_form id.
Proof.
  unfold identifier_form. simpl. split.
  - intros [(s1 & s2 & -> & (a & -> & Ha) & (mid & s3 & -> & (Hmid & _ & Hlen) & (z & -> & Hz)))
           |(a & -> & Ha)].
    + exists a, (mid ++ [z]). split_and!; try done.
      * apply Forall_app. split; [done|]. constructor; [by apply word_of_alnum | done].
      * intros z'. rewrite last_snoc. by intros [= <-].
      * simpl in *. rewrite length_app. simpl. lia.
    + exists a, []. split_and!; try done. simpl. lia.
  - intros (a & rest & -> & Ha & Hrest & Hlast & Hlen).
    destruct rest as [|x rest _] using rev_ind.
    + right. by exists a.
    + left. exists [a], (rest ++ [x]). split; [done|]. split; [by exists a|].
      exists rest, [x]. split; [done|].
      apply Forall_app in Hrest as [Hrest _]. split.
      * split; [done|]. simpl in Hlen. rewrite length_app in Hlen. simpl in *. lia.
      * exists x. split; [done|]. apply Hlast. by rewrite last_snoc.
Qed.

(** X1. The identifiers that [is_valid_identifier] accepts are those of the
    grammar. *)
Theorem is_valid_identifier_form (id : str) :
  Variable_.is_valid_identifier id = true ↔ identifier_form id.
Proof. rewrite is_valid_identifier_lang. apply lang_identifier_form. Qed.

(** X2. The values that [is_valid_value] accepts are those of the grammar. *)
Theorem is_valid_value_form (value : str) :
  Variable_.is_valid_value value = true ↔ value_form value.
Proof.
  rewrite is_valid_value_lang. unfold value_form. simpl. split.
  - intros (HF & _ & Hlen). split; [done|]. intros Hin.
    rewrite Forall_forall in HF. apply HF in Hin. by vm_compute in Hin.
  - intros (Hlen & Hnl). split_and!; [| lia | done].
    apply Forall_forall. intros a Ha. apply negb_true_iff, chr_eqb_false.
    intros ->. done.
Qed.

(** ** Clauses *)

Lemma lang_VALUE (lit : str) :
  lang Variable_.VALUE lit
  ↔ Forall (fun a => in_class CDot a = true) lit ∧ (length lit ≤ 2048)%nat.
Proof. simpl. split; [by intros (? & _ & ?) | intros [? ?]; split_and!; [done | lia | done]]. Qed.

Lemma lang_quoted_value (qv : str) :
  lang Dependency.quoted_value qv
  ↔ ∃ q lit, qv = quoted q lit ∧ quote_char q ∧ lang Variable_.VALUE lit.
Proof.
  unfold Dependency.quoted_value, quoted, quote_char. split.
  - intros [(s1 & s2 & -> & (a & -> & Ha) & (lit & s3 & -> & Hlit & (z & -> & Hz)))
           |(s1 & s2 & -> & (a & -> & Ha) & (lit & s3 & -> & Hlit & (z & -> & Hz)))];
      apply in_class_char in Ha, Hz; subst a z; eexists _, lit; split_and!; eauto.
  - intros (q & lit & -> & Hq & Hlit).
    assert (lang (RClass (CChar q) +> Variable_.VALUE +> RClass (CChar q))
              (q :: lit ++ [q])) as H.
    { exists [q], (lit ++ [q]). split; [done|]. split.
      - exists q. split; [done | by apply in_class_char].
      - exists lit, [q]. split; [done|]. split; [done|].
        exists q. split; [done | by apply in_class_char]. }
    destruct Hq as [-> | ->]; [by left | by right].
Qed.

(** What the common head [\$(IDENTIFIER)\s...] of the four patterns
    matches, and the group it sets. *)
Lemma captures_head lo tail c g0 g :
  captures (RClass (CChar "$") +> RGroup 0 Variable_.IDENTIFIER
            +> RRep CSpace lo None +> tail) c g0 g →
  ∃ id ws t,
    c = "$"%char :: id ++ ws ++ t ∧ lang Variable_.IDENTIFIER id
    ∧ spaces ws ∧ (lo ≤ length ws)%nat
    ∧ captures tail t (<[0%nat := Some id]> g0) g.
Proof.
  cbn [captures].
  intros (s1 & s2 & g1 & -> & ((a & -> & Ha) & ->)
          & (id & s3 & g2 & -> & (g3 & Hid & ->)
             & (ws & t & g4 & -> & ((Hws & Hlo & _) & ->) & Htail))).
  apply in_class_char in Ha as ->.
  pose proof (captures_IDENTIFIER _ _ _ Hid) as ->.
  exists id, ws, t. split_and!; try done. by eapply captures_lang.
Qed.

Lemma lang_head lo tail id ws t :
  lang Variable_.IDENTIFIER id → spaces ws → (lo ≤ length ws)%nat → lang tail t →
  lang (RClass (CChar "$") +> RGroup 0 Variable_.IDENTIFIER
        +> RRep CSpace lo None +> tail) ("$"%char :: id ++ ws ++ t).
Proof.
  intros Hid Hws Hlo Ht. cbn [lang].
  exists ["$"%char], (id ++ ws ++ t). split; [done|].
  split; [by exists "$"%char|].
  exists id, (ws ++ t). split; [done|]. split; [done|].
  exists ws, t. split; [done|]. split; [|done]. split_and!; done.
Qed.

Lemma head_unique (id ws t id' ws' t' : str) :
  "$"%char :: id ++ ws ++ t = "$"%char :: id' ++ ws' ++ t' →
  Forall (fun a => in_class Variable_.word a = true) id →
  Forall (fun a => in_class Variable_.word a = true) id' →
  spaces ws → spaces ws' →
  stops PyStr.isspace t → stops PyStr.isspace t' →
  (ws = [] → stops (in_class Variable_.word) t) →
  (ws' = [] → stops (in_class Variable_.word) t') →
  id = id' ∧ ws = ws' ∧ t = t'.
Proof.
  intros [= Heq] Hid Hid' Hws Hws' Ht Ht' Hw Hw'.
  destruct (span_unique (in_class Variable_.word) id (ws ++ t) id' (ws' ++ t'))
    as [-> Heq2]; try done; try by apply stops_word_after_spaces.
  destruct (span_unique PyStr.isspace ws t ws' t') as [-> ->]; done.
Qed.

Lemma lang_RLit_seq (x : string) (r : regex) (t : str) :
  lang (RLit x +> r) t ↔ ∃ t', t = py x ++ t' ∧ lang r t'.
Proof.
  unfold RLit. generalize (py x). intros l. revert t.
  induction l as [|a l IH]; intros t; cbn [foldr lang app].
  - split.
    + intros (s1 & s2 & -> & -> & H). by exists s2.
    + intros (t' & -> & H). by exists [], t'.
  - split.
    + intros (s1 & s2 & -> & (s3 & s4 & -> & (b & -> & Hb) & Hl) & H).
      apply in_class_char in Hb as ->.
      destruct (proj1 (IH (s4 ++ s2))) as (t' & Heq & Ht').
      { exists s4, s2. done. }
      exists t'. split; [|done]. simpl. by rewrite Heq.
    + intros (t' & -> & H).
      destruct (proj2 (IH (l ++ t'))) as (s4 & s2 & Heq & Hl & Hr); [by exists t'|].
      exists (a :: s4), s2. split; [simpl; by rewrite Heq|]. split; [|done].
      exists [a], s4. split; [done|]. split; [|done].
      exists a. split; [done | by apply in_class_char].
Qed.

Lemma captures_RLit_seq (x : string) (r : regex) (t : str) g g' :
  captures (RLit x +> r) t g g' ↔ ∃ t', t = py x ++ t' ∧ captures r t' g g'.
Proof.
  unfold RLit. generalize (py x). intros l. revert t.
  induction l as [|a l IH]; intros t; cbn [foldr captures app].
  - split.
    + intros (s1 & s2 & g1 & -> & (-> & ->) & H). by exists s2.
    + intros (t' & -> & H). by exists [], t', g.
  - split.
    + intros (s1 & s2 & g1 & -> & (s3 & s4 & g2 & -> & ((b & -> & Hb) & ->) & Hl) & H).
      apply in_class_char in Hb as ->.
      destruct (proj1 (IH (s4 ++ s2))) as (t' & Heq & Ht').
      { exists s4, s2, g1. done. }
      exists t'. split; [|done]. simpl. by rewrite Heq.
    + intros (t' & -> & H).
      destruct (proj2 (IH (l ++ t'))) as (s4 & s2 & g1 & Heq & Hl & Hr); [by exists t'|].
      exists (a :: s4), s2, g1. split; [simpl; by rewrite Heq|]. split; [|done].
      exists [a], s4, g. split; [done|]. split; [|done]. split; [|done].
      exists a. split; [done | by apply in_class_char].
Qed.

(** A pattern made of the common head and of [tail], on a text cut
    accordingly: the match succeeds exactly when [tail] matches the rest,
    and the first group is the identifier. *)
Lemma fullmatch_head lo tail id ws t :
  lang Variable_.IDENTIFIER id → spaces ws → (lo ≤ length ws)%nat →
  stops PyStr.isspace t → (ws = [] → stops (in_class Variable_.word) t) →
  (∀ t', lang tail t' →
         stops PyStr.isspace t' ∧ (lo = 0%nat → stops (in_class Variable_.word) t')) →
  let pattern := RClass (CChar "$") +> RGroup 0 Variable_.IDENTIFIER
                 +> RRep CSpace lo None +> tail in
  let c := "$"%char :: id ++ ws ++ t in
  (lang tail t →
   ∃ g, fullmatch 2 pattern c = Some g
        ∧ captures tail t [Some id; None] g)
  ∧ (¬ lang tail t → fullmatch 2 pattern c = None).
Proof.
  intros Hid Hws Hlo Hst Hsw Htail pattern c.
  assert (∀ g, fullmatch 2 pattern c = Some g → captures tail t [Some id; None] g) as Hsound.
  { intros g Hg. apply fullmatch_sound, captures_head in Hg
      as (id' & ws' & t' & Heq & Hid' & Hws' & Hlo' & Ht').
    destruct (Htail t') as [Hst' Hsw']; [by eapply captures_lang|].
    destruct (head_unique id ws t id' ws' t') as (<- & <- & <-); try done.
    - by apply lang_IDENTIFIER_word.
    - by apply lang_IDENTIFIER_word.
    - intros ->. apply Hsw'. simpl in Hlo'. lia. }
  split.
  - intros Ht. destruct (fullmatch_complete 2 pattern c) as [g Hg].
    { by apply lang_head. }
    exists g. split; [done | by apply Hsound].
  - intros Hn. destruct (fullmatch 2 pattern c) as [g|] eqn:E; [|done].
    exfalso. apply Hn. eapply captures_lang. by apply Hsound.
Qed.

Lemma captures_group_free r s g g' :
  group_free r = true → (captures r s g g' ↔ lang r s ∧ g' = g).
Proof.
  revert s g g'. induction r as [|c|r1 IH1 r2 IH2|r1 IH1 r2 IH2|c lo hi|i r IH];
    intros s g g'; simpl; try done.
  - intros [H1 H2]%andb_true_iff. split.
    + intros (s1 & s2 & g1 & -> & Ha & Hb).
      apply IH1 in Ha as [Ha ->]; [|done]. apply IH2 in Hb as [Hb ->]; [|done].
      split; [|done]. by exists s1, s2.
    + intros [(s1 & s2 & -> & Ha & Hb) ->]. exists s1, s2, g.
      split; [done|]. split; [by apply IH1 | by apply IH2].
  - intros [H1 H2]%andb_true_iff. rewrite IH1, IH2 by done. split.
    + intros [[? ?]|[? ?]]; split; auto.
    + intros [[?|?] ->]; [left | right]; done.
Qed.

Lemma lang_op (op : string) lo rest t :
  lang (RLit op +> RRep CSpace lo None +> rest) t
  ↔ ∃ ws t', t = py op ++ ws ++ t' ∧ spaces ws ∧ (lo ≤ length ws)%nat ∧ lang rest t'.
Proof.
  rewrite lang_RLit_seq. cbn [lang]. split.
  - intros (t1 & -> & ws & t' & -> & (Hws & Hlo & _) & Hr). by exists ws, t'.
  - intros (ws & t' & -> & Hws & Hlo & Hr). exists (ws ++ t'). split; [done|].
    exists ws, t'. split_and!; done.
Qed.

Lemma captures_op (op : string) lo rest t g g' :
  captures (RLit op +> RRep CSpace lo None +> rest) t g g'
  ↔ ∃ ws t', t = py op ++ ws ++ t' ∧ spaces ws ∧ (lo ≤ length ws)%nat
             ∧ captures rest t' g g'.
Proof.
  rewrite captures_RLit_seq. cbn [captures]. split.
  - intros (t1 & -> & ws & t' & g1 & -> & ((Hws & Hlo & _) & ->) & Hr). by exists ws, t'.
  - intros (ws & t' & -> & Hws & Hlo & Hr). exists (ws ++ t'). split; [done|].
    exists ws, t', g. split_and!; done.
Qed.

Lemma captures_group1 body s g g' :
  group_free body = true →
  (captures (RGroup 1 body) s g g' ↔ lang body s ∧ g' = <[1%nat := Some s]> g).
Proof.
  intros Hb. cbn [captures]. split.
  - intros (g1 & Hc & ->). apply captures_group_free in Hc as [? ->]; done.
  - intros [Hl ->]. exists g. split; [|done]. by apply captures_group_free.
Qed.

Lemma lang_bracketed (s : str) :
  lang Dependency.bracketed s
  ↔ ∃ body, s = "["%char :: body ++ ["]"%char]
            ∧ Forall (fun a => in_class CDot a = true) body ∧ body ≠ [].
Proof.
  unfold Dependency.bracketed. cbn [lang]. split.
  - intros (s1 & s2 & -> & (a & -> & Ha) & (body & s3 & -> & (Hb & Hlen & _) & (z & -> & Hz))).
    apply in_class_char in Ha, Hz. subst a z. exists body. split_and!; try done.
    intros ->. simpl in Hlen. lia.
  - intros (body & -> & Hb & Hne). exists ["["%char], (body ++ ["]"%char]).
    split; [done|]. split; [by exists "["%char|].
    exists body, ["]"%char]. split; [done|]. split; [|by exists "]"%char].
    split_and!; [done | | done]. destruct body; [done | simpl; lia].
Qed.


Lemma lang_clause_pattern lo tail c :
  lang (clause_pattern lo tail) c
  ↔ ∃ id ws t, c = "$"%char :: id ++ ws ++ t ∧ lang Variable_.IDENTIFIER id
               ∧ spaces ws ∧ (lo ≤ length ws)%nat ∧ lang tail t.
Proof.
  split.
  - unfold clause_pattern. cbn [lang].
    intros (s1 & s2 & -> & (a & -> & Ha)
            & (id & s3 & -> & Hid & (ws & t & -> & (Hws & Hlo & _) & Htail))).
    apply in_class_char in Ha as ->. by exists id, ws, t.
  - intros (id & ws & t & -> & Hid & Hws & Hlo & Ht). by apply lang_head.
Qed.

(** The first character after the head tells the four forms apart. *)
Lemma tail_first (op : string) lo rest a l t :
  py op = a :: l → lang (RLit op +> RRep CSpace lo None +> rest) t → ∃ t', t = a :: t'.
Proof. intros Hop (ws & t' & -> & _)%lang_op. rewrite Hop. simpl. eauto. Qed.

Lemma equality_tail_first t : lang equality_tail t → ∃ t', t = "="%char :: t'.
Proof. by apply tail_first with (l := []). Qed.
Lemma inequality_tail_first t : lang inequality_tail t → ∃ t', t = "!"%char :: t'.
Proof. by apply tail_first with (l := ["="%char]). Qed.
Lemma membership_tail_first t : lang membership_tail t → ∃ t', t = "i"%char :: t'.
Proof. by apply tail_first with (l := ["n"%char]). Qed.
Lemma nomembership_tail_first t : lang nomembership_tail t → ∃ t', t = "n"%char :: t'.
Proof. by apply tail_first with (l := ["o"%char; "t"%char]). Qed.

Lemma operator_start_eq t : lang equality_tail t → operator_start 0 t.
Proof. intros (t' & ->)%equality_tail_first. by split. Qed.
Lemma operator_start_ne t : lang inequality_tail t → operator_start 0 t.
Proof. intros (t' & ->)%inequality_tail_first. by split. Qed.
Lemma operator_start_in t : lang membership_tail t → operator_start 1 t.
Proof. intros (t' & ->)%membership_tail_first. by split. Qed.
Lemma operator_start_notin t : lang nomembership_tail t → operator_start 1 t.
Proof. intros (t' & ->)%nomembership_tail_first. by split. Qed.

(** A clause is cut into identifier, whitespace and rest in one way only. *)
Lemma clause_cut_unique lo lo' id ws t id' ws' t' :
  "$"%char :: id ++ ws ++ t = "$"%char :: id' ++ ws' ++ t' →
  lang Variable_.IDENTIFIER id → lang Variable_.IDENTIFIER id' →
  spaces ws → spaces ws' → (lo ≤ length ws)%nat → (lo' ≤ length ws')%nat →
  operator_start lo t → operator_start lo' t' →
  id = id' ∧ ws = ws' ∧ t = t'.
Proof.
  intros Heq Hid Hid' Hws Hws' Hlo Hlo' [Hs Hw] [Hs' Hw'].
  apply head_unique; try done; try by apply lang_IDENTIFIER_word.
  - intros ->. apply Hw. simpl in Hlo. lia.
  - intros ->. apply Hw'. simpl in Hlo'. lia.
Qed.

Lemma fullmatch_other lo tail lo' tail' c :
  lang (clause_pattern lo tail) c →
  (∀ t, lang tail t → operator_start lo t) →
  (∀ t, lang tail' t → operator_start lo' t) →
  (∀ t, lang tail t → ¬ lang tail' t) →
  fullmatch 2 (clause_pattern lo' tail') c = None.
Proof.
  intros (id & ws & t & -> & Hid & Hws & Hlo & Ht)%lang_clause_pattern Hs Hs' Hex.
  destruct (fullmatch 2 (clause_pattern lo' tail') _) as [g|] eqn:E; [|done].
  exfalso. assert (is_Some (fullmatch 2 (clause_pattern lo' tail')
                              ("$"%char :: id ++ ws ++ t))) as Hm by (by rewrite E).
  apply fullmatch_lang, lang_clause_pattern in Hm
    as (id' & ws' & t' & Heq & Hid' & Hws' & Hlo' & Ht').
  destruct (clause_cut_unique lo lo' id ws t id' ws' t') as (_ & _ & <-); try done.
  - by apply Hs.
  - by apply Hs'.
  - by apply (Hex t).
Qed.

Lemma tails_differ t :
  (lang equality_tail t → ¬ lang inequality_tail t ∧ ¬ lang membership_tail t
                          ∧ ¬ lang nomembership_tail t)
  ∧ (lang inequality_tail t → ¬ lang equality_tail t ∧ ¬ lang membership_tail t
                              ∧ ¬ lang nomembership_tail t)
  ∧ (lang membership_tail t → ¬ lang equality_tail t ∧ ¬ lang inequality_tail t
                              ∧ ¬ lang nomembership_tail t)
  ∧ (lang nomembership_tail t → ¬ lang equality_tail t ∧ ¬ lang inequality_tail t
                                ∧ ¬ lang membership_tail t).
Proof.
  split_and!.
  - intros (t' & ->)%equality_tail_first. split_and!.
    + by intros (? & [=])%inequality_tail_first.
    + by intros (? & [=])%membership_tail_first.
    + by intros (? & [=])%nomembership_tail_first.
  - intros (t' & ->)%inequality_tail_first. split_and!.
    + by intros (? & [=])%equality_tail_first.
    + by intros (? & [=])%membership_tail_first.
    + by intros (? & [=])%nomembership_tail_first.
  - intros (t' & ->)%membership_tail_first. split_and!.
    + by intros (? & [=])%equality_tail_first.
    + by intros (? & [=])%inequality_tail_first.
    + by intros (? & [=])%nomembership_tail_first.
  - intros (t' & ->)%nomembership_tail_first. split_and!.
    + by intros (? & [=])%equality_tail_first.
    + by intros (? & [=])%inequality_tail_first.
    + by intros (? & [=])%membership_tail_first.
Qed.

Lemma is_clause_lang :
  ∀ c,
    (Dependency.is_equality_clause c = true ↔ lang (clause_pattern 0 equality_tail) c)
    ∧ (Dependency.is_inequality_clause c = true ↔ lang (clause_pattern 0 inequality_tail) c)
    ∧ (Dependency.is_membership_clause c = true ↔ lang (clause_pattern 1 membership_tail) c)
    ∧ (Dependency.is_nomembership_clause c = true
       ↔ lang (clause_pattern 1 nomembership_tail) c).
Proof.
  intros c. unfold Dependency.is_equality_clause, Dependency.is_inequality_clause,
    Dependency.is_membership_clause, Dependency.is_nomembership_clause.
  rewrite !bool_decide_eq_true. split_and!; apply fullmatch_lang.
Qed.


(** X3. No clause is of two forms: at most one of the four tests accepts it,
    so the order in which they are applied is immaterial. *)
Theorem clause_forms_exclusive (c : str) :
  let e := Dependency.is_equality_clause c in
  let i := Dependency.is_inequality_clause c in
  let m := Dependency.is_membership_clause c in
  let n := Dependency.is_nomembership_clause c in
  (e = true → i = false ∧ m = false ∧ n = false)
  ∧ (i = true → e = false ∧ m = false ∧ n = false)
  ∧ (m = true → e = false ∧ i = false ∧ n = false)
  ∧ (n = true → e = false ∧ i = false ∧ m = false).
Proof.
  intros e i m n.
  destruct (is_clause_lang c) as (He & Hi & Hm & Hn).
  assert (∀ lo tail lo' tail',
            lang (clause_pattern lo tail) c →
            (∀ t, lang tail t → operator_start lo t) →
            (∀ t, lang tail' t → operator_start lo' t) →
            (∀ t, lang tail t → ¬ lang tail' t) →
            ¬ lang (clause_pattern lo' tail') c) as Hx.
  { intros lo tail lo' tail' H1 H2 H3 H4 H5.
    pose proof (fullmatch_other lo tail lo' tail' c H1 H2 H3 H4) as Hnone.
    apply (fullmatch_complete 2) in H5. rewrite Hnone in H5. by destruct H5. }
  assert (∀ b : bool, ∀ P : Prop, (b = true ↔ P) → ¬ P → b = false) as Hf.
  { intros [] P HP HnP; [|done]. exfalso. by apply HnP, HP. }
  pose proof operator_start_eq. pose proof operator_start_ne.
  pose proof operator_start_in. pose proof operator_start_notin.
  split_and!; intros Ht.
  - apply He in Ht. split_and!; (eapply Hf; [eassumption|]);
      (eapply Hx; [exact Ht | done | done |]); intros t Hl;
      by destruct (proj1 (tails_differ t) Hl) as (? & ? & ?).
  - apply Hi in Ht. split_and!; (eapply Hf; [eassumption|]);
      (eapply Hx; [exact Ht | done | done |]); intros t Hl;
      by destruct (proj1 (proj2 (tails_differ t)) Hl) as (? & ? & ?).
  - apply Hm in Ht. split_and!; (eapply Hf; [eassumption|]);
      (eapply Hx; [exact Ht | done | done |]); intros t Hl;
      by destruct (proj1 (proj2 (proj2 (tails_differ t))) Hl) as (? & ? & ?).
  - apply Hn in Ht. split_and!; (eapply Hf; [eassumption|]);
      (eapply Hx; [exact Ht | done | done |]); intros t Hl;
      by destruct (proj2 (proj2 (proj2 (tails_differ t))) Hl) as (? & ? & ?).
Qed.

(** ** The groups of a matched clause *)

Lemma operator_start_head lo (ws t : str) :
  (lo ≤ length ws)%nat → operator_start lo t →
  stops PyStr.isspace t ∧ (ws = [] → stops (in_class Variable_.word) t).
Proof.
  intros Hlo [Hs Hw]. split; [done|]. intros ->. apply Hw. simpl in Hlo. lia.
Qed.

(** A clause with one operator: the groups are the identifier and the
    right-hand side. *)
Lemma fullmatch_op_clause (op : string) lo lo2 body id ws1 ws2 v :
  let tail := RLit op +> RRep CSpace lo2 None +> RGroup 1 body in
  group_free body = true →
  lang Variable_.IDENTIFIER id → spaces ws1 → (lo ≤ length ws1)%nat →
  spaces ws2 → (lo2 ≤ length ws2)%nat → lang body v →
  (∀ s, lang body s → stops PyStr.isspace s) →
  (∀ t, lang tail t → operator_start lo t) →
  fullmatch 2 (clause_pattern lo tail) ("$"%char :: id ++ ws1 ++ py op ++ ws2 ++ v)
  = Some [Some id; Some v].
Proof.
  intros tail Hfree Hid Hws1 Hlo Hws2 Hlo2 Hv Hbody Hstart.
  assert (lang tail (py op ++ ws2 ++ v)) as Ht.
  { apply lang_op. exists ws2, v. split_and!; done. }
  destruct (operator_start_head lo ws1 _ Hlo (Hstart _ Ht)) as [Hs Hw].
  destruct (fullmatch_head lo tail id ws1 (py op ++ ws2 ++ v)) as [Hyes _]; try done.
  destruct (Hyes Ht) as (g & Hg & Hc). unfold clause_pattern. rewrite Hg.
  apply captures_op in Hc as (ws' & t' & Heq & Hws' & _ & Hc).
  apply captures_group1 in Hc as [Hl ->]; [|done].
  apply app_inv_head in Heq.
  destruct (span_unique PyStr.isspace ws2 v ws' t') as [_ <-]; try done; by apply Hbody.
Qed.

Lemma stops_quoted_value s : lang Dependency.quoted_value s → stops PyStr.isspace s.
Proof. intros (q & lit & -> & [-> | ->] & _)%lang_quoted_value; done. Qed.

Lemma stops_bracketed s : lang Dependency.bracketed s → stops PyStr.isspace s.
Proof. intros (body & -> & _)%lang_bracketed. done. Qed.

Lemma lang_quoted q lit :
  quote_char q → Variable_.is_valid_value lit = true →
  lang Dependency.quoted_value (quoted q lit).
Proof.
  intros Hq Hlit. apply lang_quoted_value. exists q, lit. split_and!; [done..|].
  by apply is_valid_value_lang.
Qed.

Lemma fullmatch_equality id ws1 ws2 q lit :
  Variable_.is_valid_identifier id = true → spaces ws1 → spaces ws2 →
  quote_char q → Variable_.is_valid_value lit = true →
  fullmatch 2 Dependency.EQUALITY_CLAUSE (equality_text id ws1 ws2 q lit)
  = Some [Some id; Some (quoted q lit)].
Proof.
  intros Hid Hws1 Hws2 Hq Hlit.
  apply (fullmatch_op_clause "=" 0 0 Dependency.quoted_value id ws1 ws2 (quoted q lit));
    try done; try lia.
  - by apply is_valid_identifier_lang.
  - by apply lang_quoted.
  - apply stops_quoted_value.
  - apply operator_start_eq.
Qed.

Lemma fullmatch_inequality id ws1 ws2 q lit :
  Variable_.is_valid_identifier id = true → spaces ws1 → spaces ws2 →
  quote_char q → Variable_.is_valid_value lit = true →
  fullmatch 2 Dependency.INEQUALITY_CLAUSE (inequality_text id ws1 ws2 q lit)
  = Some [Some id; Some (quoted q lit)].
Proof.
  intros Hid Hws1 Hws2 Hq Hlit.
  apply (fullmatch_op_clause "!=" 0 0 Dependency.quoted_value id ws1 ws2 (quoted q lit));
    try done; try lia.
  - by apply is_valid_identifier_lang.
  - by apply lang_quoted.
  - apply stops_quoted_value.
  - apply operator_start_ne.
Qed.

Lemma nonempty_length {A} (l : list A) : l ≠ [] → (1 ≤ length l)%nat.
Proof. destruct l; [done | simpl; lia]. Qed.

Lemma fullmatch_membership id ws1 ws2 v :
  Variable_.is_valid_identifier id = true → spaces ws1 → ws1 ≠ [] →
  spaces ws2 → ws2 ≠ [] → lang Dependency.bracketed v →
  fullmatch 2 Dependency.MEMBERSHIP_CLAUSE (membership_text id ws1 ws2 v)
  = Some [Some id; Some v].
Proof.
  intros Hid Hws1 Hne1 Hws2 Hne2 Hv.
  apply (fullmatch_op_clause "in" 1 1 Dependency.bracketed id ws1 ws2 v);
    try done; try by apply nonempty_length.
  - by apply is_valid_identifier_lang.
  - apply stops_bracketed.
  - apply operator_start_in.
Qed.

Lemma fullmatch_nomembership id ws1 ws2 ws3 v :
  Variable_.is_valid_identifier id = true → spaces ws1 → ws1 ≠ [] →
  spaces ws2 → ws2 ≠ [] → spaces ws3 → ws3 ≠ [] → lang Dependency.bracketed v →
  fullmatch 2 Dependency.NOMEMBERSHIP_CLAUSE (nomembership_text id ws1 ws2 ws3 v)
  = Some [Some id; Some v].
Proof.
  intros Hid Hws1 Hne1 Hws2 Hne2 Hws3 Hne3 Hv.
  apply nonempty_length in Hne1, Hne2, Hne3.
  apply is_valid_identifier_lang in Hid.
  set (t := py "not" ++ ws2 ++ py "in" ++ ws3 ++ v).
  assert (lang nomembership_tail t) as Ht.
  { apply lang_op. exists ws2, (py "in" ++ ws3 ++ v). split_and!; try done.
    apply lang_op. exists ws3, v. split_and!; done. }
  destruct (operator_start_head 1 ws1 _ Hne1 (operator_start_notin _ Ht)) as [Hs Hw].
  destruct (fullmatch_head 1 nomembership_tail id ws1 t) as [Hyes _]; try done.
  { apply operator_start_notin. }
  destruct (Hyes Ht) as (g & Hg & Hc).
  change Dependency.NOMEMBERSHIP_CLAUSE with (clause_pattern 1 nomembership_tail).
  unfold clause_pattern, nomembership_text. fold t. rewrite Hg.
  apply captures_op in Hc as (ws2' & t2 & Heq & Hws2' & _ & Hc).
  apply captures_op in Hc as (ws3' & t3 & -> & Hws3' & _ & Hc).
  apply captures_group1 in Hc as [Hl ->]; [|done].
  apply app_inv_head in Heq.
  destruct (span_unique PyStr.isspace ws2 (py "in" ++ ws3 ++ v) ws2' (py "in" ++ ws3' ++ t3))
    as [_ Heq2]; try done.
  apply app_inv_head in Heq2.
  destruct (span_unique PyStr.isspace ws3 v ws3' t3) as [_ <-]; try done;
    by apply stops_bracketed.
Qed.

(** ** Slices and splits of a clause *)

Lemma slice_quoted q lit : PyStr.slice (quoted q lit) (Some 1) (Some (-1)) = lit.
Proof.
  unfold PyStr.slice, quoted, PyStr.clamp. simpl length. rewrite length_app. simpl length.
  replace (-1 <? 0) with true by done. replace (1 <? 0) with false by done.
  rewrite Z.min_l, Z.max_r by lia.
  replace (Z.to_nat 1) with 1%nat by done. simpl drop.
  replace (Z.to_nat _) with (length lit) by lia.
  by rewrite drop_0, take_app_length.
Qed.

Lemma slice_from_1 a (s : str) : PyStr.slice (a :: s) (Some 1) None = s.
Proof.
  unfold PyStr.slice, PyStr.clamp. simpl length.
  replace (1 <? 0) with false by done. rewrite Z.min_l by lia.
  replace (Z.to_nat 1) with 1%nat by done. simpl drop.
  replace (Z.to_nat _) with (length s) by lia. rewrite drop_0. apply firstn_all.
Qed.

Lemma lstrip_spaces ws s : spaces ws → PyStr.lstrip (ws ++ s) = PyStr.lstrip s.
Proof.
  induction 1 as [|a ws Ha _ IH]; [done|]. simpl. by rewrite Ha.
Qed.

Lemma lstrip_stops s : stops PyStr.isspace s → PyStr.lstrip s = s.
Proof. destruct s as [|a s]; [done|]. simpl. by intros ->. Qed.

Lemma spaces_rev ws : spaces ws → spaces (rev ws).
Proof. apply Forall_rev. Qed.

(** [strip] removes the whitespace around a text that neither starts nor
    ends with whitespace. *)
Lemma strip_spaces ws1 s ws2 :
  spaces ws1 → spaces ws2 → stops PyStr.isspace s → stops PyStr.isspace (rev s) →
  PyStr.strip (ws1 ++ s ++ ws2) = s.
Proof.
  intros H1 H2 Hs Hr. unfold PyStr.strip.
  rewrite lstrip_spaces by done.
  destruct s as [|a s].
  - simpl app. replace ws2 with (ws2 ++ []) by apply app_nil_r.
    rewrite lstrip_spaces by done. done.
  - assert (PyStr.lstrip ((a :: s) ++ ws2) = (a :: s) ++ ws2) as ->.
    { simpl in *. by rewrite Hs. }
    rewrite rev_app_distr, lstrip_spaces by by apply spaces_rev.
    rewrite (lstrip_stops (rev (a :: s))) by done. apply rev_involutive.
Qed.

Lemma split_first_absent c (s t : str) :
  Forall (fun a => chr_eqb c a = false) s →
  PyStr.split_first c (s ++ c :: t) = s.
Proof.
  induction 1 as [|a s Ha _ IH]; simpl.
  - by rewrite (proj2 (chr_eqb_true c c)).
  - by rewrite Ha, IH.
Qed.

Lemma take_word_stops (w ws t : str) :
  Forall (fun a => PyStr.isspace a = false) w → spaces ws → ws ≠ [] →
  PyStr.take_word (w ++ ws ++ t) = w.
Proof.
  intros Hw Hws Hne. induction Hw as [|a w Ha _ IH]; simpl.
  - destruct Hws as [|b ws Hb _]; [done|]. simpl. by rewrite Hb.
  - by rewrite Ha, IH.
Qed.

Lemma word_not_space a : in_class Variable_.word a = true → PyStr.isspace a = false.
Proof.
  intros H. destruct (PyStr.isspace a) eqn:E; [|done].
  apply space_not_word in E. congruence.
Qed.

Lemma word_not_eq a : in_class Variable_.word a = true → chr_eqb "=" a = false.
Proof. all_chars a. Qed.

Lemma word_not_bang a : in_class Variable_.word a = true → chr_eqb "!" a = false.
Proof. all_chars a. Qed.

Lemma space_not_eq a : PyStr.isspace a = true → chr_eqb "=" a = false.
Proof. all_chars a. Qed.

Lemma space_not_bang a : PyStr.isspace a = true → chr_eqb "!" a = false.
Proof. all_chars a. Qed.

Lemma identifier_stops id :
  Variable_.is_valid_identifier id = true →
  Forall (fun a => in_class Variable_.word a = true) id ∧ id ≠ [].
Proof. intros H. by apply lang_IDENTIFIER_word, is_valid_identifier_lang. Qed.

(** The text before the operator of a clause, stripped: the dollar sign and
    the identifier. *)
Lemma head_before c id ws t :
  (c = "="%char ∨ c = "!"%char) →
  Variable_.is_valid_identifier id = true → spaces ws →
  PyStr.strip (PyStr.split_first c ("$"%char :: id ++ ws ++ c :: t)) = "$"%char :: id.
Proof.
  intros Hc Hid Hws. destruct (identifier_stops id Hid) as [Hword Hne].
  replace ("$"%char :: id ++ ws ++ c :: t) with (("$"%char :: id ++ ws) ++ c :: t)
    by (simpl; by rewrite <- app_assoc).
  rewrite split_first_absent.
  - replace ("$"%char :: id ++ ws) with ([] ++ ("$"%char :: id) ++ ws) by done.
    apply strip_spaces; try done; [constructor|].
    simpl. destruct (rev id) as [|z r] eqn:E.
    + done.
    + simpl. apply word_not_space. pose proof (Forall_rev Hword) as Hr.
      rewrite E in Hr. by apply Forall_cons in Hr as [Hz _].
  - constructor; [by destruct Hc as [-> | ->]|]. apply Forall_app. split.
    + eapply Forall_impl; [exact Hword|]. intros a Ha.
      destruct Hc as [-> | ->]; [by apply word_not_eq | by apply word_not_bang].
    + eapply Forall_impl; [exact Hws|]. intros a Ha. simpl in Ha.
      destruct Hc as [-> | ->]; [by apply space_not_eq | by apply space_not_bang].
Qed.

(** The first word of a clause whose identifier is followed by
    whitespace. *)
Lemma head_word id ws t :
  Variable_.is_valid_identifier id = true → spaces ws → ws ≠ [] →
  PyStr.split_ws_first ("$"%char :: id ++ ws ++ t) = Some ("$"%char :: id).
Proof.
  intros Hid Hws Hne. destruct (identifier_stops id Hid) as [Hword _].
  unfold PyStr.split_ws_first. rewrite lstrip_stops by done.
  f_equal. change ("$"%char :: id ++ ws ++ t) with (("$"%char :: id) ++ ws ++ t).
  apply take_word_stops; try done. constructor; [done|].
  eapply Forall_impl; [exact Hword|]. intros a Ha. by apply word_not_space.
Qed.

(** ** The list of a membership clause *)















(** ** The four forms, one at a time *)


Lemma other_pattern lo tail lo' tail' c :
  is_Some (fullmatch 2 (clause_pattern lo tail) c) →
  (∀ t, lang tail t → operator_start lo t) →
  (∀ t, lang tail' t → operator_start lo' t) →
  (∀ t, lang tail t → ¬ lang tail' t) →
  fullmatch 2 (clause_pattern lo' tail') c = None.
Proof. intros H%fullmatch_lang. by apply fullmatch_other. Qed.

Lemma inequality_only c :
  is_Some (fullmatch 2 Dependency.INEQUALITY_CLAUSE c) →
  fullmatch 2 Dependency.EQUALITY_CLAUSE c = None.
Proof.
  intros H. eapply (other_pattern 0 inequality_tail 0 equality_tail); try done.
  - apply operator_start_ne.
  - apply operator_start_eq.
  - intros t Ht. by destruct (proj1 (proj2 (tails_differ t)) Ht) as (? & ? & ?).
Qed.

Lemma membership_only c :
  is_Some (fullmatch 2 Dependency.MEMBERSHIP_CLAUSE c) →
  fullmatch 2 Dependency.EQUALITY_CLAUSE c = None
  ∧ fullmatch 2 Dependency.INEQUALITY_CLAUSE c = None.
Proof.
  intros H. split.
  - eapply (other_pattern 1 membership_tail 0 equality_tail); try done.
    + apply operator_start_in.
    + apply operator_start_eq.
    + intros t Ht. by destruct (proj1 (proj2 (proj2 (tails_differ t))) Ht) as (? & ? & ?).
  - eapply (other_pattern 1 membership_tail 0 inequality_tail); try done.
    + apply operator_start_in.
    + apply operator_start_ne.
    + intros t Ht. by destruct (proj1 (proj2 (proj2 (tails_differ t))) Ht) as (? & ? & ?).
Qed.

Lemma nomembership_only c :
  is_Some (fullmatch 2 Dependency.NOMEMBERSHIP_CLAUSE c) →
  fullmatch 2 Dependency.EQUALITY_CLAUSE c = None
  ∧ fullmatch 2 Dependency.INEQUALITY_CLAUSE c = None
  ∧ fullmatch 2 Dependency.MEMBERSHIP_CLAUSE c = None.
Proof.
  intros H. split_and!.
  - eapply (other_pattern 1 nomembership_tail 0 equality_tail); try done.
    + apply operator_start_notin.
    + apply operator_start_eq.
    + intros t Ht. by destruct (proj2 (proj2 (proj2 (tails_differ t))) Ht) as (? & ? & ?).
  - eapply (other_pattern 1 nomembership_tail 0 inequality_tail); try done.
    + apply operator_start_notin.
    + apply operator_start_ne.
    + intros t Ht. by destruct (proj2 (proj2 (proj2 (tails_differ t))) Ht) as (? & ? & ?).
  - eapply (other_pattern 1 nomembership_tail 1 membership_tail); try done.
    + apply operator_start_notin.
    + apply operator_start_in.
    + intros t Ht. by destruct (proj2 (proj2 (proj2 (tails_differ t))) Ht) as (? & ? & ?).
Qed.

(** ** What [Dependency] accepts *)

Lemma Forall_dot (body : str) :
  Forall (fun a => in_class CDot a = true) body ↔ "010"%char ∉ body.
Proof.
  rewrite Forall_forall. split.
  - intros H Hin. apply H in Hin. by vm_compute in Hin.
  - intros H a Ha. apply in_class_dot. by intros ->.
Qed.

Lemma lang_bracketed_text s :
  lang Dependency.bracketed s
  ↔ ∃ body, s = bracketed_text body ∧ body ≠ [] ∧ "010"%char ∉ body.
Proof.
  rewrite lang_bracketed. unfold bracketed_text. split.
  - intros (body & -> & Hd & Hne). exists body. by rewrite <- Forall_dot.
  - intros (body & -> & Hne & Hd). exists body. by rewrite Forall_dot.
Qed.

Lemma length_nonempty {A} (l : list A) : (1 ≤ length l)%nat → l ≠ [].
Proof. destruct l; [simpl; lia | done]. Qed.

Lemma shape_lang c id :
  clause_shape c id →
  lang Dependency.EQUALITY_CLAUSE c ∨ lang Dependency.INEQUALITY_CLAUSE c
  ∨ lang Dependency.MEMBERSHIP_CLAUSE c ∨ lang Dependency.NOMEMBERSHIP_CLAUSE c.
Proof.
  destruct 1 as [id ws1 ws2 q lit Hid H1 H2 Hq Hlit
                |id ws1 ws2 q lit Hid H1 H2 Hq Hlit
                |id ws1 ws2 body Hid H1 N1 H2 N2 Hb Hnl
                |id ws1 ws2 ws3 body Hid H1 N1 H2 N2 H3 N3 Hb Hnl].
  - left. apply (fullmatch_lang 2). by rewrite fullmatch_equality.
  - right; left. apply (fullmatch_lang 2). by rewrite fullmatch_inequality.
  - right; right; left. apply (fullmatch_lang 2). rewrite fullmatch_membership; try done.
    apply lang_bracketed_text. by exists body.
  - right; right; right. apply (fullmatch_lang 2).
    rewrite fullmatch_nomembership; try done.
    apply lang_bracketed_text. by exists body.
Qed.

Lemma lang_shape c :
  lang Dependency.EQUALITY_CLAUSE c ∨ lang Dependency.INEQUALITY_CLAUSE c
  ∨ lang Dependency.MEMBERSHIP_CLAUSE c ∨ lang Dependency.NOMEMBERSHIP_CLAUSE c →
  ∃ id, clause_shape c id.
Proof.
  intros [H|[H|[H|H]]];
    apply lang_clause_pattern in H as (id & ws1 & t & -> & Hid & H1 & Hlo & Ht);
    apply is_valid_identifier_lang in Hid; exists id.
  - apply lang_op in Ht as (ws2 & v & -> & H2 & _ & Hv).
    cbn [lang] in Hv. apply lang_quoted_value in Hv as (q & lit & -> & Hq & Hlit).
    apply is_valid_value_lang in Hlit.
    by apply (shape_equality id ws1 ws2 q lit).
  - apply lang_op in Ht as (ws2 & v & -> & H2 & _ & Hv).
    cbn [lang] in Hv. apply lang_quoted_value in Hv as (q & lit & -> & Hq & Hlit).
    apply is_valid_value_lang in Hlit.
    by apply (shape_inequality id ws1 ws2 q lit).
  - apply lang_op in Ht as (ws2 & v & -> & H2 & Hlo2 & Hv).
    cbn [lang] in Hv. apply lang_bracketed_text in Hv as (body & -> & Hb & Hnl).
    apply length_nonempty in Hlo, Hlo2.
    by apply (shape_membership id ws1 ws2 body).
  - apply lang_op in Ht as (ws2 & t2 & -> & H2 & Hlo2 & Ht2).
    apply lang_op in Ht2 as (ws3 & v & -> & H3 & Hlo3 & Hv).
    cbn [lang] in Hv. apply lang_bracketed_text in Hv as (body & -> & Hb & Hnl).
    apply length_nonempty in Hlo, Hlo2, Hlo3.
    by apply (shape_nomembership id ws1 ws2 ws3 body).
Qed.

Lemma validate_clause_lang c :
  (lang Dependency.EQUALITY_CLAUSE c ∨ lang Dependency.INEQUALITY_CLAUSE c
   ∨ lang Dependency.MEMBERSHIP_CLAUSE c ∨ lang Dependency.NOMEMBERSHIP_CLAUSE c →
   Dependency.validate_clause c = Ok c)
  ∧ (¬ (lang Dependency.EQUALITY_CLAUSE c ∨ lang Dependency.INEQUALITY_CLAUSE c
        ∨ lang Dependency.MEMBERSHIP_CLAUSE c ∨ lang Dependency.NOMEMBERSHIP_CLAUSE c) →
     Dependency.validate_clause c = Err (SyntaxError (py "Invalid dependency clause."))).
Proof.
  destruct (is_clause_lang c) as (He & Hi & Hm & Hn).
  unfold Dependency.validate_clause.
  destruct (Dependency.is_equality_clause c);
    [split; [done | intros H; exfalso; apply H; left; by apply He]|].
  destruct (Dependency.is_inequality_clause c);
    [split; [done | intros H; exfalso; apply H; right; left; by apply Hi]|].
  destruct (Dependency.is_membership_clause c);
    [split; [done | intros H; exfalso; apply H; right; right; left; by apply Hm]|].
  destruct (Dependency.is_nomembership_clause c);
    [split; [done | intros H; exfalso; apply H; right; right; right; by apply Hn]|].
  split; [|done]. intros [H|[H|[H|H]]].
  - by apply He in H.
  - by apply Hi in H.
  - by apply Hm in H.
  - by apply Hn in H.
Qed.

(** X4. [Dependency(clause)] succeeds exactly on the clauses of the four
    shapes, and on every other text raises the [SyntaxError] whose message
    is fixed: it does not tell which clause was refused. *)
Theorem init_accepts_shapes (c : str) :
  ((∃ id, clause_shape c id) → Dependency.init c = Ok (Dependency.mk c))
  ∧ (¬ (∃ id, clause_shape c id) →
     Dependency.init c = Err (SyntaxError (py "Invalid dependency clause."))).
Proof.
  destruct (validate_clause_lang c) as [Hyes Hno]. unfold Dependency.init. split.
  - intros [id H]. by rewrite Hyes by by eapply shape_lang.
  - intros H. rewrite Hno; [done|]. intros Hl. by apply H, lang_shape.
Qed.

Lemma init_accepts_shapes_witness :
  Dependency.init (py "$S = 'init'") = Ok (Dependency.mk (py "$S = 'init'"))
  ∧ Dependency.init (py "$S == 'init'")
    = Err (SyntaxError (py "Invalid dependency clause.")).
Proof.
  split.
  - apply (proj1 (init_accepts_shapes (py "$S = 'init'"))). exists (py "S").
    apply (shape_equality (py "S") (py " ") (py " ") "'"%char (py "init"));
      try done; try (by repeat constructor); by left.
  - apply (proj2 (init_accepts_shapes (py "$S == 'init'"))).
    intros [id H]. apply shape_lang in H.
    destruct H as [H|[H|[H|H]]]; apply (fullmatch_complete 2) in H;
      vm_compute in H; destruct H as [? H]; discriminate H.
Defined.

Lemma is_Some_eq {A} (x : option A) (a : A) : x = Some a → is_Some x.
Proof. intros ->. by eexists. Qed.

Lemma bracketed_of_body body :
  body ≠ [] → "010"%char ∉ body → lang Dependency.bracketed (bracketed_text body).
Proof. intros Hb Hnl. apply lang_bracketed_text. by exists body. Qed.

Lemma on_variable_shape_ok c id :
  clause_shape c id → Dependency.on_variable (Dependency.mk c) = Ok (Variable_.mk id).
Proof.
  destruct 1 as [id ws1 ws2 q lit Hid H1 H2 Hq Hlit
                |id ws1 ws2 q lit Hid H1 H2 Hq Hlit
                |id ws1 ws2 body Hid H1 N1 H2 N2 Hb Hnl
                |id ws1 ws2 ws3 body Hid H1 N1 H2 N2 H3 N3 Hb Hnl];
    unfold Dependency.on_variable; cbn [Dependency._clause].
  - unfold Dependency.is_equality_clause.
    rewrite fullmatch_equality by done.
    rewrite bool_decide_eq_true_2 by by eexists.
    unfold equality_text. rewrite head_before by (done || by left).
    rewrite slice_from_1. by apply Variable_init_valid.
  - pose proof (fullmatch_inequality id ws1 ws2 q lit Hid H1 H2 Hq Hlit) as Hm.
    unfold Dependency.is_equality_clause, Dependency.is_inequality_clause.
    rewrite (inequality_only _ (is_Some_eq _ _ Hm)), Hm.
    rewrite bool_decide_eq_false_2 by by intros [? ?].
    rewrite bool_decide_eq_true_2 by by eexists.
    unfold inequality_text. rewrite head_before by (done || by right).
    rewrite slice_from_1. by apply Variable_init_valid.
  - pose proof (fullmatch_membership id ws1 ws2 _ Hid H1 N1 H2 N2
                  (bracketed_of_body body Hb Hnl)) as Hm.
    destruct (membership_only _ (is_Some_eq _ _ Hm)) as [He Hi].
    unfold Dependency.is_equality_clause, Dependency.is_inequality_clause,
      Dependency.is_membership_clause.
    rewrite He, Hi, Hm.
    rewrite !bool_decide_eq_false_2 by by intros [? ?].
    rewrite bool_decide_eq_true_2 by by eexists.
    unfold membership_text. rewrite head_word by done.
    rewrite slice_from_1. by apply Variable_init_valid.
  - pose proof (fullmatch_nomembership id ws1 ws2 ws3 _ Hid H1 N1 H2 N2 H3 N3
                  (bracketed_of_body body Hb Hnl)) as Hm.
    destruct (nomembership_only _ (is_Some_eq _ _ Hm)) as (He & Hi & Hmem).
    unfold Dependency.is_equality_clause, Dependency.is_inequality_clause,
      Dependency.is_membership_clause, Dependency.is_nomembership_clause.
    rewrite He, Hi, Hmem, Hm.
    rewrite !bool_decide_eq_false_2 by by intros [? ?].
    rewrite bool_decide_eq_true_2 by by eexists.
    unfold nomembership_text. rewrite head_word by done.
    rewrite slice_from_1. by apply Variable_init_valid.
Qed.

(** X5. [on_variable] returns the variable that the clause names: the text
    between the dollar sign and the operator, whatever the form and the
    whitespace. *)
Theorem on_variable_names_identifier (c id : str) :
  clause_shape c id →
  Dependency.on_variable (Dependency.mk c) = Ok (Variable_.mk id).
Proof. apply on_variable_shape_ok. Qed.

Lemma on_variable_names_identifier_witness :
  clause_shape (py "$DB_STATE  not in  [ 'up' , 'down' ]") (py "DB_STATE")
  ∧ Dependency.on_variable (Dependency.mk (py "$DB_STATE  not in  [ 'up' , 'down' ]"))
    = Ok (Variable_.mk (py "DB_STATE")).
Proof.
  assert (clause_shape (py "$DB_STATE  not in  [ 'up' , 'down' ]") (py "DB_STATE")) as H.
  { apply (shape_nomembership (py "DB_STATE") (py "  ") (py " ") (py "  ")
             (py " 'up' , 'down' ")); try done; try (by repeat constructor).
    vm_compute. intros H. by repeat (apply elem_of_cons in H as [H|H]; [discriminate H|]);
      apply elem_of_nil in H. }
  split; [exact H|]. exact (on_variable_names_identifier _ _ H).
Defined.

(** ** What a clause means *)

(** X6. An equality clause is satisfied exactly when the value of its variable,
    the empty string when the variable is unset, is the literal between the
    quotes. *)
Theorem is_satisfied_by_equality id ws1 ws2 q lit (st : PyExperimentInstanceState.t) :
  Variable_.is_valid_identifier id = true → spaces ws1 → spaces ws2 →
  quote_char q → Variable_.is_valid_value lit = true →
  PyDependency.is_satisfied_by (Dependency.mk (equality_text id ws1 ws2 q lit)) st
  = Ok (Some (bool_decide (PyExperimentInstanceState.get st id PyStr.empty = lit))).
Proof.
  intros Hid H1 H2 Hq Hlit. unfold PyDependency.is_satisfied_by.
  cbn [Dependency.clause Dependency._clause].
  rewrite fullmatch_equality by done. cbn. rewrite slice_quoted.
  destruct (decide (PyExperimentInstanceState.get st id PyStr.empty = lit)) as [E|E].
  - rewrite bool_decide_eq_false_2 by (by intros ?).
    by rewrite bool_decide_eq_true_2.
  - rewrite bool_decide_eq_true_2 by done. by rewrite bool_decide_eq_false_2.
Qed.

Lemma is_satisfied_by_equality_witness :
  PyDependency.is_satisfied_by (Dependency.mk (py "$S = 'init'"))
    (PyExperimentInstanceState.mk [(py "S", py "init")] [(py "S", rw)])
  = Ok (Some true).
Proof.
  apply (is_satisfied_by_equality (py "S") (py " ") (py " ") "'"%char (py "init")).
  - reflexivity.
  - repeat constructor.
  - repeat constructor.
  - left. reflexivity.
  - reflexivity.
Defined.

(** X7. An inequality clause is satisfied exactly when that value differs from
    the literal. *)
Theorem is_satisfied_by_inequality id ws1 ws2 q lit (st : PyExperimentInstanceState.t) :
  Variable_.is_valid_identifier id = true → spaces ws1 → spaces ws2 →
  quote_char q → Variable_.is_valid_value lit = true →
  PyDependency.is_satisfied_by (Dependency.mk (inequality_text id ws1 ws2 q lit)) st
  = Ok (Some (bool_decide (PyExperimentInstanceState.get st id PyStr.empty ≠ lit))).
Proof.
  intros Hid H1 H2 Hq Hlit. unfold PyDependency.is_satisfied_by.
  cbn [Dependency.clause Dependency._clause].
  pose proof (fullmatch_inequality id ws1 ws2 q lit Hid H1 H2 Hq Hlit) as Hm.
  rewrite (inequality_only _ (is_Some_eq _ _ Hm)), Hm. cbn. rewrite slice_quoted.
  destruct (decide (PyExperimentInstanceState.get st id PyStr.empty = lit)) as [E|E].
  - rewrite bool_decide_eq_true_2 by done.
    by rewrite bool_decide_eq_false_2 by (by intros ?).
  - rewrite bool_decide_eq_false_2 by done. by rewrite bool_decide_eq_true_2.
Qed.

Lemma is_satisfied_by_inequality_witness :
  PyDependency.is_satisfied_by (Dependency.mk (py "$S!='init'")) PyExperimentInstanceState.init
  = Ok (Some true).
Proof.
  apply (is_satisfied_by_inequality (py "S") [] [] "'"%char (py "init")).
  - reflexivity.
  - constructor.
  - constructor.
  - left. reflexivity.
  - reflexivity.
Defined.





(** * Scheduler methods *)

(** ** Final states and ready tasks *)

Lemma with_locks_round (ids : list str) self :
  _ei_lock self = false →
  (∀ id, id ∈ ids → _variable_locks self !! id = Some false) →
  set_ei_lock false
    (with_locks
       (lock_all false ids
          (_variable_locks
             (with_locks (lock_all true ids (_variable_locks self))
                (fmap (fun id => EvAcquire id true) ids) (set_ei_lock true self))))
       (fmap EvRelease ids)
       (with_locks (lock_all true ids (_variable_locks self))
          (fmap (fun id => EvAcquire id true) ids) (set_ei_lock true self)))
  = with_locks (_variable_locks self) (lock_round ids) self.
Proof.
  intros Hei Hfree. unfold with_locks, set_ei_lock, lock_round. simpl.
  rewrite lock_all_restore by done. rewrite Hei. by rewrite <- app_assoc.
Qed.

Lemma held_after_lock_all (ids : list str) (m : gmap str bool) :
  ∀ id, id ∈ ids → lock_all true ids m !! id = Some true.
Proof. intros id Hid. rewrite lock_all_lookup. by rewrite decide_True. Qed.

(** The test that [is_in_final_state] and [is_ready_to_execute_task]
    share, once the variables are known: take the locks, evaluate every
    dependency, release the locks. *)
Lemma guarded_test_run vars deps self :
  _ei_lock self = false →
  NoDup (identifiers vars) →
  (∀ id, id ∈ identifiers vars → _variable_locks self !! id = Some false) →
  Forall (evaluates (_state self)) deps →
  CSDecorator (
    bind (acquire_loop vars (ret tt) 0 vars) (fun acquired : bool =>
      if acquired then
        bind (all_satisfied_loop deps true) (fun b =>
          bind (release_all vars) (fun _ => ret b))
      else ret false)) self
  = Returns (forallb (holds (_state self)) deps)
      (with_locks (_variable_locks self) (lock_round (identifiers vars)) self).
Proof.
  intros Hei Hnd Hfree Hev. unfold CSDecorator.
  unfold bind at 1. unfold ei_lock_acquire. rewrite Hei.
  unfold bind at 1. unfold bind at 1.
  rewrite acquire_loop_success; [| done | done].
  unfold bind at 1.
  match goal with |- context [all_satisfied_loop ?d ?f ?s] =>
    pose proof (all_satisfied_loop_spec d f s) as Sf;
    destruct (all_satisfied_loop d f s) as [fin s5|e s5|s5] end;
    [| by destruct Sf | done].
  destruct Sf as [-> ->]. unfold bind at 1.
  rewrite release_all_success; [| done | intros id Hid; by apply held_after_lock_all].
  unfold ret at 1. unfold bind at 1. unfold ei_lock_release. simpl.
  unfold ret. f_equal. by apply with_locks_round.
Qed.

Lemma guarded_test_true vars deps self self' :
  CSDecorator (
    bind (acquire_loop vars (ret tt) 0 vars) (fun acquired : bool =>
      if acquired then
        bind (all_satisfied_loop deps true) (fun b =>
          bind (release_all vars) (fun _ => ret b))
      else ret false)) self
  = Returns true self' →
  forallb (holds (_state self)) deps = true.
Proof.
  intros H. unfold CSDecorator in H.
  apply bind_returns in H as ([] & s1 & H1 & H).
  apply bind_returns in H as (res & s2 & Hbody & H).
  apply bind_returns in H as ([] & s3 & H3 & H).
  apply ret_returns in H as [<- ->].
  apply lock_only_ei_acquire in H1 as D1.
  apply bind_returns in Hbody as (acq & s4 & Hacq & Hbody).
  apply lock_only_acquire_loop in Hacq as D4; [|apply lock_only_ret].
  destruct acq; [|by apply ret_returns in Hbody as [? _]].
  apply bind_returns in Hbody as (fin & s5 & Hfin & Hbody).
  apply bind_returns in Hbody as ([] & s7 & _ & Hbody).
  apply ret_returns in Hbody as [Hres _].
  pose proof (all_satisfied_loop_spec deps true s4) as Sf.
  rewrite Hfin in Sf. destruct Sf as [-> ->].
  destruct D1 as (_ & Ds1 & _), D4 as (_ & Ds4 & _).
  rewrite Ds4, Ds1 in Hres. by simpl in Hres.
Qed.

Lemma CSDecorator_ext {A} (f g : M A) self :
  (∀ s, same_data self s → f s = g s) → CSDecorator f self = CSDecorator g self.
Proof.
  intros H. unfold CSDecorator. unfold bind at 1. unfold bind at 3.
  destruct (ei_lock_acquire self) as [[] s1|e s1|s1] eqn:E; [|done|done].
  apply lock_only_ei_acquire in E. unfold bind at 1. unfold bind at 3.
  by rewrite (H s1 E).
Qed.

Lemma is_in_final_state_unfold self vars :
  WEDMakefile.variables (_wedmakefile self) None = Ok vars →
  is_in_final_state self
  = CSDecorator (
      bind (acquire_loop vars (ret tt) 0 vars) (fun acquired : bool =>
        if acquired then
          bind (all_satisfied_loop
                  (Guard.dependencies (WEDMakefile.final_guard (_wedmakefile self))) true)
            (fun b => bind (release_all vars) (fun _ => ret b))
        else ret false)) self.
Proof.
  intros Hvars. unfold is_in_final_state. apply CSDecorator_ext.
  intros s (Hw & _). unfold bind at 1. unfold read. unfold bind at 1.
  rewrite Hw, Hvars. done.
Qed.

Lemma is_ready_to_execute_task_unfold task self vars :
  Guard.on_variables (Task.guard task) None = Ok vars →
  is_ready_to_execute_task task self
  = CSDecorator (
      bind (acquire_loop vars (ret tt) 0 vars) (fun acquired : bool =>
        if acquired then
          bind (all_satisfied_loop (Guard.dependencies (Task.guard task)) true)
            (fun b => bind (release_all vars) (fun _ => ret b))
        else ret false)) self.
Proof.
  intros Hvars. unfold is_ready_to_execute_task. apply CSDecorator_ext.
  intros s _. unfold bind at 1. by rewrite Hvars.
Qed.

Lemma is_in_final_state_variables self b self' :
  is_in_final_state self = Returns b self' →
  ∃ vars, WEDMakefile.variables (_wedmakefile self) None = Ok vars.
Proof.
  intros H. unfold is_in_final_state, CSDecorator in H.
  apply bind_returns in H as ([] & s1 & H1 & H).
  apply bind_returns in H as (res & s2 & Hbody & H).
  apply bind_returns in Hbody as (w' & s1' & Hw & Hbody).
  apply read_returns in Hw as [-> ->].
  apply bind_returns in Hbody as (vars & s1' & Hv & _).
  apply lift_returns in Hv as [Hv _].
  apply lock_only_ei_acquire in H1 as (Hw & _). rewrite Hw in Hv. by exists vars.
Qed.

Lemma is_ready_to_execute_task_variables task self b self' :
  is_ready_to_execute_task task self = Returns b self' →
  ∃ vars, Guard.on_variables (Task.guard task) None = Ok vars.
Proof.
  intros H. unfold is_ready_to_execute_task, CSDecorator in H.
  apply bind_returns in H as ([] & s1 & H1 & H).
  apply bind_returns in H as (res & s2 & Hbody & H).
  apply bind_returns in Hbody as (vars & s1' & Hv & _).
  apply lift_returns in Hv as [Hv _]. by exists vars.
Qed.

(** X10. Whenever [is_in_final_state] returns [True], the state satisfies
    the final guard. Conversely, when the coordination lock and every
    variable lock are free and no evaluation raises, the method returns
    whether the final guard is satisfied, having taken every lock in order
    and released it, and changed nothing else. *)
Theorem final_state_iff (self : PyExperimentInstance.t) :
  let w := _wedmakefile self in
  let st := _state self in
  (∀ self', is_in_final_state self = Returns true self' →
            satisfied (WEDMakefile.final_guard w) st)
  ∧ (∀ vars,
       _ei_lock self = false →
       WEDMakefile.variables w None = Ok vars →
       (∀ id, id ∈ identifiers vars → _variable_locks self !! id = Some false) →
       Forall (evaluates st) (Guard.dependencies (WEDMakefile.final_guard w)) →
       ∃ b,
         is_in_final_state self
         = Returns b (with_locks (_variable_locks self) (lock_round (identifiers vars)) self)
         ∧ (b = true ↔ satisfied (WEDMakefile.final_guard w) st)).
Proof.
  intros w st. split.
  - intros self' H.
    destruct (is_in_final_state_variables _ _ _ H) as [vars Hvars].
    rewrite (is_in_final_state_unfold _ _ Hvars) in H.
    apply guarded_test_true in H. by apply satisfied_forallb.
  - intros vars Hei Hvars Hfree Hev.
    destruct (variables_facts _ _ Hvars) as (Hnd & _ & _).
    rewrite (is_in_final_state_unfold _ _ Hvars).
    rewrite guarded_test_run by done.
    eexists. split; [reflexivity|]. symmetry. apply satisfied_forallb.
Qed.

Lemma final_state_iff_witness :
  ∃ self',
    is_in_final_state Stuck.instance = Returns false self'
    ∧ _variable_locks self' = _variable_locks Stuck.instance
    ∧ ¬ satisfied (WEDMakefile.final_guard Stuck.wedmakefile) Stuck.state.
Proof.
  destruct (proj2 (final_state_iff Stuck.instance) [Variable_.mk (py "A")])
    as (b & Hrun & Hiff).
  - reflexivity.
  - vm_compute. reflexivity.
  - intros id Hid. apply list_elem_of_singleton in Hid as ->. reflexivity.
  - repeat constructor. eexists. vm_compute. reflexivity.
  - assert (b = false) as ->.
    { revert Hrun. vm_compute. by intros [= <-]. }
    eexists. split; [exact Hrun|]. split; [reflexivity|].
    intros Hsat. apply Hiff in Hsat. discriminate Hsat.
Defined.

(** X11. Whenever [is_ready_to_execute_task] returns [True], the state
    satisfies the guard of the task. Conversely, when the coordination lock
    and the locks of the task's variables are free and no evaluation raises,
    the method returns whether the guard is satisfied, having taken the
    locks of the task's variables in order and released them, and changed
    nothing else. *)
Theorem ready_iff_guard (task : Task.t) (self : PyExperimentInstance.t) :
  let st := _state self in
  (∀ self', is_ready_to_execute_task task self = Returns true self' →
            satisfied (Task.guard task) st)
  ∧ (∀ vars,
       _ei_lock self = false →
       Guard.on_variables (Task.guard task) None = Ok vars →
       (∀ id, id ∈ identifiers vars → _variable_locks self !! id = Some false) →
       Forall (evaluates st) (Guard.dependencies (Task.guard task)) →
       ∃ b,
         is_ready_to_execute_task task self
         = Returns b (with_locks (_variable_locks self) (lock_round (identifiers vars)) self)
         ∧ (b = true ↔ satisfied (Task.guard task) st)).
Proof.
  intros st. split.
  - intros self' H.
    destruct (is_ready_to_execute_task_variables _ _ _ _ H) as [vars Hvars].
    rewrite (is_ready_to_execute_task_unfold _ _ _ Hvars) in H.
    apply guarded_test_true in H. by apply satisfied_forallb.
  - intros vars Hei Hvars Hfree Hev.
    destruct (on_variables_facts _ _ _ Hvars) as (Hnd & _).
    rewrite (is_ready_to_execute_task_unfold _ _ _ Hvars).
    rewrite guarded_test_run by done.
    eexists. split; [reflexivity|]. symmetry. apply satisfied_forallb.
Qed.

Lemma ready_iff_guard_witness :
  ∃ self',
    is_ready_to_execute_task Pipeline.task_B Pipeline.after_A = Returns true self'
    ∧ _variable_locks self' = _variable_locks Pipeline.after_A
    ∧ satisfied (Task.guard Pipeline.task_B) (_state Pipeline.after_A).
Proof.
  destruct (proj2 (ready_iff_guard Pipeline.task_B Pipeline.after_A) [Variable_.mk (py "S")])
    as (b & Hrun & Hiff).
  - reflexivity.
  - vm_compute. reflexivity.
  - intros id Hid. apply list_elem_of_singleton in Hid as ->. reflexivity.
  - repeat constructor. eexists. vm_compute. reflexivity.
  - assert (b = true) as ->.
    { revert Hrun. vm_compute. by intros [= <-]. }
    eexists. split; [exact Hrun|]. split; [reflexivity|]. by apply Hiff.
Defined.

Lemma is_ready_to_execute_task_run task self vars :
  _ei_lock self = false →
  Guard.on_variables (Task.guard task) None = Ok vars →
  (∀ id, id ∈ identifiers vars → _variable_locks self !! id = Some false) →
  Forall (evaluates (_state self)) (Guard.dependencies (Task.guard task)) →
  is_ready_to_execute_task task self
  = Returns (forallb (holds (_state self)) (Guard.dependencies (Task.guard task)))
      (with_locks (_variable_locks self) (lock_round (identifiers vars)) self).
Proof.
  intros Hei Hvars Hfree Hev.
  destruct (on_variables_facts _ _ _ Hvars) as (Hnd & _).
  rewrite (is_ready_to_execute_task_unfold _ _ _ Hvars).
  by rewrite guarded_test_run.
Qed.

Lemma ready_loop_run tasks self :
  _ei_lock self = false →
  (∀ task, task ∈ tasks →
     ∃ vars, Guard.on_variables (Task.guard task) None = Ok vars
             ∧ ∀ id, id ∈ identifiers vars → _variable_locks self !! id = Some false) →
  (∀ task, task ∈ tasks →
     Forall (evaluates (_state self)) (Guard.dependencies (Task.guard task))) →
  ∃ evs,
    ready_loop tasks self
    = Returns (List.filter (fun task => forallb (holds (_state self))
                                          (Guard.dependencies (Task.guard task))) tasks)
        (with_locks (_variable_locks self) evs self).
Proof.
  revert self. induction tasks as [|task tasks IH]; intros self Hei Hvars Hev.
  - exists []. simpl. unfold ret, with_locks. destruct self; simpl. by rewrite app_nil_r.
  - destruct (Hvars task) as (vars & Hv & Hfree); [by left|].
    cbn [ready_loop]. unfold bind at 1.
    rewrite (is_ready_to_execute_task_run task self vars); [| done | done | done |].
    2:{ apply Hev. by left. }
    destruct (IH (with_locks (_variable_locks self) (lock_round (identifiers vars)) self))
      as [evs Hrun].
    + done.
    + intros t Ht. apply Hvars. by right.
    + intros t Ht. apply Hev. by right.
    + unfold bind at 1. rewrite Hrun. unfold ret. simpl.
      exists (lock_round (identifiers vars) ++ evs).
      by rewrite with_locks_with_locks.
Qed.

(** X12. When the coordination lock and every lock of a task's variables
    are free and no evaluation raises, [ready_to_execute_tasks] returns the
    tasks whose guard the state satisfies, in the order of the
    specification, and leaves the lock table, the state and the recorded
    exceptions as they were. *)
Theorem ready_to_execute_tasks_satisfied (self : PyExperimentInstance.t) :
  let w := _wedmakefile self in
  let st := _state self in
  _ei_lock self = false →
  (∀ task, task ∈ WEDMakefile.tasks w →
     ∃ vars, Guard.on_variables (Task.guard task) None = Ok vars
             ∧ ∀ id, id ∈ identifiers vars → _variable_locks self !! id = Some false) →
  (∀ task, task ∈ WEDMakefile.tasks w →
     Forall (evaluates st) (Guard.dependencies (Task.guard task))) →
  ∃ ready evs,
    ready_to_execute_tasks self
    = Returns ready (with_locks (_variable_locks self) evs self)
    ∧ ready = List.filter (fun task => forallb (holds st)
                                         (Guard.dependencies (Task.guard task)))
                (WEDMakefile.tasks w)
    ∧ ∀ task, task ∈ ready ↔ task ∈ WEDMakefile.tasks w ∧ satisfied (Task.guard task) st.
Proof.
  intros w st Hei Hvars Hev.
  destruct (ready_loop_run (WEDMakefile.tasks w) self Hei Hvars Hev) as [evs Hrun].
  unfold ready_to_execute_tasks. unfold bind at 1. unfold read. fold w. rewrite Hrun.
  eexists _, evs. split; [reflexivity|]. split; [reflexivity|].
  intros task. rewrite list_elem_of_In, filter_In, <- list_elem_of_In.
  by rewrite satisfied_forallb.
Qed.

Lemma ready_to_execute_tasks_satisfied_witness :
  ∃ self',
    ready_to_execute_tasks Pipeline.after_A = Returns [Pipeline.task_B] self'
    ∧ _variable_locks self' = _variable_locks Pipeline.after_A.
Proof.
  destruct (ready_to_execute_tasks_satisfied Pipeline.after_A)
    as (ready & evs & Hrun & Hready & _).
  - reflexivity.
  - intros task Htask. exists [Variable_.mk (py "S")]. split.
    + simpl in Htask.
      repeat (apply elem_of_cons in Htask as [->|Htask]; [vm_compute; reflexivity|]).
      by apply elem_of_nil in Htask.
    + intros id Hid. apply list_elem_of_singleton in Hid as ->. reflexivity.
  - intros task Htask. simpl in Htask.
    repeat (apply elem_of_cons in Htask as [->|Htask];
            [repeat constructor; eexists; vm_compute; reflexivity|]).
    by apply elem_of_nil in Htask.
  - assert (ready = [Pipeline.task_B]) as Heq.
    { rewrite Hready. vm_compute. reflexivity. }
    rewrite Heq in Hrun. eexists. split; [exact Hrun | reflexivity].
Defined.

(** ** Tasks that are not run, and scripts that fail *)

(** [execute_task] once the locks of [vars] have been taken, whatever the
    guard evaluates to. *)
Lemma execute_task_held from_bash_script task self vars :
  Guard.on_variables (Task.guard task) None = Ok vars →
  _ei_lock self = false →
  (∀ id, id ∈ identifiers vars → _variable_locks self !! id = Some false) →
  Forall (evaluates (_state self)) (Guard.dependencies (Task.guard task)) →
  forallb (holds (_state self)) (Guard.dependencies (Task.guard task)) = false →
  execute_task from_bash_script task self
  = Returns false (with_locks (_variable_locks self) (lock_round (identifiers vars)) self).
Proof.
  intros Hvars Hei Hfree Hev Hno.
  destruct (on_variables_facts _ _ _ Hvars) as [Hnd _].
  unfold execute_task. unfold bind at 1. unfold ei_lock_acquire. rewrite Hei.
  unfold bind at 1. rewrite Hvars. simpl. unfold ret at 1.
  unfold bind at 1. rewrite acquire_loop_success; [| done | done].
  unfold bind at 1. unfold ei_lock_release at 1. simpl.
  unfold bind at 1.
  match goal with |- context [no_break_loop ?d ?s] =>
    pose proof (no_break_loop_spec d s) as Sn;
    destruct (no_break_loop d s) as [b s5|e s5|s5] end; [| by destruct Sn | done].
  destruct Sn as [-> ->]. simpl. rewrite Hno.
  unfold bind at 1. unfold ret at 1. unfold bind at 1.
  rewrite release_all_success; [| done | intros id Hid; by apply held_after_lock_all].
  unfold ret. f_equal. unfold with_locks, set_ei_lock, lock_round. simpl.
  rewrite lock_all_restore by done. rewrite Hei. by rewrite <- app_assoc.
Qed.

(** X13. A task whose guard the state does not satisfy is not run: with
    its locks free, [execute_task] returns [False] whatever the script would
    do, having taken the locks of the task's variables in order and released
    them; the state and the recorded exceptions are as they were. *)
Theorem execute_task_guard_unsatisfied
    (from_bash_script : Task.t → list (str * str * permission)
                        → result PyExperimentInstanceState.t)
    (task : Task.t) (self : PyExperimentInstance.t) (vars : list Variable_.t) :
  Guard.on_variables (Task.guard task) None = Ok vars →
  _ei_lock self = false →
  (∀ id, id ∈ identifiers vars → _variable_locks self !! id = Some false) →
  Forall (evaluates (_state self)) (Guard.dependencies (Task.guard task)) →
  ¬ satisfied (Task.guard task) (_state self) →
  execute_task from_bash_script task self
  = Returns false (with_locks (_variable_locks self) (lock_round (identifiers vars)) self).
Proof.
  intros Hvars Hei Hfree Hev Hno. apply execute_task_held; try done.
  destruct (forallb _ _) eqn:E; [|done]. exfalso. by apply Hno, satisfied_forallb.
Qed.

Lemma execute_task_guard_unsatisfied_witness :
  execute_task Pipeline.script_done Pipeline.task_A Pipeline.after_A
  = Returns false
      (with_locks (_variable_locks Pipeline.after_A)
         [EvAcquire (py "S") true; EvRelease (py "S")] Pipeline.after_A).
Proof.
  apply (execute_task_guard_unsatisfied Pipeline.script_done Pipeline.task_A
           Pipeline.after_A [Variable_.mk (py "S")]).
  - vm_compute. reflexivity.
  - reflexivity.
  - intros id Hid. apply list_elem_of_singleton in Hid as ->. reflexivity.
  - repeat constructor. eexists. vm_compute. reflexivity.
  - intros Hsat. specialize (Hsat (Dependency.mk (py "$S = 'init'"))).
    assert (Ok (Some false) = Ok (Some true)) as Habs; [|discriminate Habs].
    rewrite <- Hsat; [vm_compute; reflexivity|]. apply list_elem_of_singleton. reflexivity.
Defined.

(** X14. When the script of a task fails, [execute_task] records
    [TaskExecutionError] for the task and returns [False]; the state is as
    it was and every lock is released. *)
Theorem execute_task_script_failure
    (from_bash_script : Task.t → list (str * str * permission)
                        → result PyExperimentInstanceState.t)
    (task : Task.t) (self : PyExperimentInstance.t) (vars : list Variable_.t) (e : exn) :
  Guard.on_variables (Task.guard task) None = Ok vars →
  _ei_lock self = false →
  (∀ id, id ∈ identifiers vars → _variable_locks self !! id = Some false) →
  satisfied (Task.guard task) (_state self) →
  from_bash_script task (script_args (_state self) vars) = Err e →
  execute_task from_bash_script task self
  = Returns false
      (append_exception (TaskExecutionError task)
         (with_locks (_variable_locks self) (lock_round (identifiers vars)) self)).
Proof.
  intros Hvars Hei Hfree Hsat Hrun.
  destruct (on_variables_facts _ _ _ Hvars) as [Hnd _].
  rewrite (execute_task_acquired _ _ _ _ Hvars Hei Hfree Hsat). rewrite Hrun.
  unfold Err. cbv beta iota.
  unfold bind at 1. unfold bind at 1. unfold modify at 1. unfold ret at 1.
  unfold bind at 1.
  rewrite release_all_success; [| done | intros id Hid; by apply held_after_lock_all].
  unfold ret. f_equal. unfold with_locks, append_exception, lock_round. simpl.
  rewrite lock_all_restore by done. by rewrite <- app_assoc.
Qed.

Lemma execute_task_script_failure_witness :
  ∃ self',
    execute_task script_failing Pipeline.task_B Pipeline.after_A = Returns false self'
    ∧ _exceptions self' = [TaskExecutionError Pipeline.task_B]
    ∧ _state self' = _state Pipeline.after_A
    ∧ _variable_locks self' = _variable_locks Pipeline.after_A.
Proof.
  eexists. split.
  - apply (execute_task_script_failure script_failing Pipeline.task_B Pipeline.after_A
             [Variable_.mk (py "S")] (RuntimeError (py "CalledProcessError"))).
    + vm_compute. reflexivity.
    + reflexivity.
    + intros id Hid. apply list_elem_of_singleton in Hid as ->. reflexivity.
    + intros d Hd. apply list_elem_of_singleton in Hd as ->. vm_compute. reflexivity.
    + reflexivity.
  - split_and!; reflexivity.
Defined.

(** ** An evaluation that raises *)

Lemma all_satisfied_loop_raises deps flag self :
  ¬ Forall (evaluates (_state self)) deps →
  ∃ e, all_satisfied_loop deps flag self = Raises e self.
Proof.
  revert flag. induction deps as [|d deps IH]; intros flag Hno.
  - exfalso. apply Hno. constructor.
  - cbn [all_satisfied_loop]. unfold bind at 1. unfold read. unfold bind at 1.
    destruct (PyDependency.is_satisfied_by d (_state self)) as [e|r] eqn:E.
    + exists e. done.
    + simpl. apply IH. intros HF. apply Hno. constructor; [by exists r | done].
Qed.

Lemma blocks_on_held_lock {A} (f : M A) self :
  _ei_lock self = true → CSDecorator f self = Blocks self.
Proof.
  intros H. unfold CSDecorator. unfold bind at 1. unfold ei_lock_acquire. by rewrite H.
Qed.

(** X15. The critical section has no [finally]: when the evaluation of a
    dependency of the final guard raises, [is_in_final_state] raises with
    the coordination lock and every variable lock still held, so that every
    later call of a scheduler method on the instance waits forever. *)
Theorem final_state_raise_keeps_locks (self : PyExperimentInstance.t)
    (vars : list Variable_.t) :
  let w := _wedmakefile self in
  _ei_lock self = false →
  WEDMakefile.variables w None = Ok vars →
  (∀ id, id ∈ identifiers vars → _variable_locks self !! id = Some false) →
  ¬ Forall (evaluates (_state self)) (Guard.dependencies (WEDMakefile.final_guard w)) →
  ∃ e self',
    is_in_final_state self = Raises e self'
    ∧ _ei_lock self' = true
    ∧ (∀ id, id ∈ identifiers vars → _variable_locks self' !! id = Some true)
    ∧ same_data self self'
    ∧ is_in_final_state self' = Blocks self'
    ∧ is_in_inconsistent_state self' = Blocks self'
    ∧ (∀ task, is_ready_to_execute_task task self' = Blocks self')
    ∧ (∀ from_bash_script task, execute_task from_bash_script task self' = Blocks self').
Proof.
  intros w Hei Hvars Hfree Hno.
  destruct (variables_facts _ _ Hvars) as (Hnd & _ & _).
  rewrite (is_in_final_state_unfold _ _ Hvars). unfold CSDecorator at 1.
  unfold bind at 1. unfold ei_lock_acquire at 1. rewrite Hei.
  unfold bind at 1. unfold bind at 1.
  rewrite acquire_loop_success; [| done | done].
  unfold bind at 1.
  match goal with |- context [all_satisfied_loop ?d ?f ?s] =>
    destruct (all_satisfied_loop_raises d f s) as [e He]; [done|]; rewrite He end.
  eexists e, _. split; [reflexivity|]. split_and!.
  - reflexivity.
  - intros id Hid. simpl. by apply held_after_lock_all.
  - done.
  - by apply blocks_on_held_lock.
  - by apply blocks_on_held_lock.
  - intros task. by apply blocks_on_held_lock.
  - intros fbs task. unfold execute_task. unfold bind at 1. unfold ei_lock_acquire. done.
Qed.

Lemma final_state_raise_keeps_locks_witness :
  Dependency.init (py "$A in [done]") = Ok (Dependency.mk (py "$A in [done]"))
  ∧ ∃ e self',
      is_in_final_state Unquoted.instance = Raises e self'
      ∧ _ei_lock self' = true
      ∧ is_in_inconsistent_state self' = Blocks self'.
Proof.
  split; [vm_compute; reflexivity|].
  destruct (final_state_raise_keeps_locks Unquoted.instance [Variable_.mk (py "A")])
    as (e & self' & H1 & H2 & _ & _ & _ & H3 & _).
  - reflexivity.
  - vm_compute. reflexivity.
  - intros id Hid. apply list_elem_of_singleton in Hid as ->. reflexivity.
  - intros HF. apply Forall_cons in HF as [[r Hr] _]. vm_compute in Hr. discriminate Hr.
  - exists e, self'. split_and!; done.
Defined.

(** ** The difference of two states *)

Lemma keys_setitem {V} (d : pydict V) k v :
  PyDict.keys (PyDict.setitem d k v)
  = if decide (k ∈ PyDict.keys d) then PyDict.keys d else PyDict.keys d ++ [k].
Proof.
  unfold PyDict.keys. induction d as [|[k0 v0] d IH].
  - destruct (decide (k ∈ ([] : pydict V).*1)) as [H|_]; [by apply elem_of_nil in H | done].
  - cbn [PyDict.setitem]. destruct (decide (k0 = k)) as [->|Hne].
    + destruct (decide (k ∈ ((k, v0) :: d).*1)) as [_|H]; [done|].
      exfalso. apply H. simpl. by left.
    + cbn [fmap list_fmap]. rewrite IH.
      destruct (decide (k ∈ d.*1)) as [Hin|Hnin];
        destruct (decide (k ∈ (k0, v0).1 :: d.*1)) as [Hin'|Hnin']; try done.
      * exfalso. apply Hnin'. by right.
      * exfalso. apply elem_of_cons in Hin' as [?|?]; simpl in *; congruence.
Qed.

Lemma NoDup_keys_setitem {V} (d : pydict V) k v :
  NoDup (PyDict.keys d) → NoDup (PyDict.keys (PyDict.setitem d k v)).
Proof.
  intros H. rewrite keys_setitem. destruct (decide _) as [?|Hn]; [done|].
  apply NoDup_app. split_and!; [done | | apply NoDup_singleton].
  intros x Hx ->%list_elem_of_singleton. done.
Qed.


Lemma diff_loop_get self other todo acc :
  NoDup (PyDict.keys todo) →
  (∀ k, k ∈ PyDict.keys todo →
        is_Some (PyDict.get (PyExperimentInstanceState._permission self) k)) →
  paired other →
  ∃ d,
    PyExperimentInstanceState.diff_loop self other todo acc = Ok d
    ∧ (NoDup (PyDict.keys (PyExperimentInstanceState.items acc)) →
       NoDup (PyDict.keys (PyExperimentInstanceState.items d)))
    ∧ (NoDup (PyDict.keys (PyExperimentInstanceState._permission acc)) →
       NoDup (PyDict.keys (PyExperimentInstanceState._permission d)))
    ∧ ∀ k,
        PyDict.get (PyExperimentInstanceState.items d) k
        = match PyDict.get todo k with
          | Some v => if decide (differs self other k v) then Some v
                      else PyDict.get (PyExperimentInstanceState.items acc) k
          | None => PyDict.get (PyExperimentInstanceState.items acc) k
          end
        ∧ PyDict.get (PyExperimentInstanceState._permission d) k
          = match PyDict.get todo k with
            | Some v => if decide (differs self other k v)
                        then PyDict.get (PyExperimentInstanceState._permission self) k
                        else PyDict.get (PyExperimentInstanceState._permission acc) k
            | None => PyDict.get (PyExperimentInstanceState._permission acc) k
            end.
Proof.
  intros Hnd Hperm Ho. revert acc Hnd Hperm.
  induction todo as [|[k0 v0] todo IH]; intros acc Hnd Hperm.
  - exists acc. simpl. split_and!; done.
  - simpl in Hnd. apply NoDup_cons in Hnd as [Hk0 Hnd].
    destruct (Hperm k0) as [ps Hps]; [simpl; by left|].
    assert (∀ k, k ∈ PyDict.keys todo →
                 is_Some (PyDict.get (PyExperimentInstanceState._permission self) k))
      as Hperm' by (intros k Hk; apply Hperm; simpl; by right).
    assert (PyExperimentInstanceState.perm_at self k0 = Ok ps) as Eps.
    { unfold PyExperimentInstanceState.perm_at. by rewrite Hps. }
    assert (PyDict.get todo k0 = None) as Hk0' by (by apply get_None_keys).
    set (acc' := PyExperimentInstanceState.mk
                   (PyDict.setitem (PyExperimentInstanceState.items acc) k0 v0)
                   (PyDict.setitem (PyExperimentInstanceState._permission acc) k0 ps)).
    assert (PyExperimentInstanceState.diff_loop self other ((k0, v0) :: todo) acc
            = PyExperimentInstanceState.diff_loop self other todo
                (if decide (differs self other k0 v0) then acc' else acc)) as ->.
    { cbn [PyExperimentInstanceState.diff_loop].
      destruct (decide (differs self other k0 v0)) as [Hd|Hd]; unfold differs in Hd.
      - case_bool_decide as Hv; simpl.
        + rewrite Eps. done.
        + destruct Hd as [Hd|Hd]; [done|].
          destruct (perm_at_Ok other k0) as [po Hpo].
          { apply Ho. by rewrite Hv. }
          rewrite Hpo. simpl. rewrite Eps. simpl.
          unfold PyExperimentInstanceState.perm_at in Hpo.
          destruct (PyDict.get (PyExperimentInstanceState._permission other) k0)
            as [po'|] eqn:Epo; [|done].
          injection Hpo as ->. rewrite Hps in Hd.
          rewrite bool_decide_eq_true_2 by congruence. simpl. by rewrite ?Eps.
      - assert (PyDict.get (PyExperimentInstanceState.items other) k0 = Some v0) as Hv.
        { apply dec_stable. intros H. apply Hd. by left. }
        assert (PyDict.get (PyExperimentInstanceState._permission other) k0
                = PyDict.get (PyExperimentInstanceState._permission self) k0) as Hp.
        { apply dec_stable. intros H. apply Hd. by right. }
        rewrite bool_decide_eq_false_2 by (by intros ?). simpl.
        unfold PyExperimentInstanceState.perm_at at 1. rewrite Hp, Hps. simpl.
        rewrite ?Eps. simpl. rewrite bool_decide_eq_false_2 by (by intros ?). done. }
    destruct (IH (if decide (differs self other k0 v0) then acc' else acc) Hnd Hperm')
      as (d & Hd & Hn1 & Hn2 & Hget).
    exists d. split; [done|]. split_and!.
    + intros Hacc. apply Hn1. destruct (decide _); [|done].
      by apply NoDup_keys_setitem.
    + intros Hacc. apply Hn2. destruct (decide _); [|done].
      by apply NoDup_keys_setitem.
    + intros k. destruct (Hget k) as [Hi Hp]. rewrite Hi, Hp. simpl.
      destruct (decide (k0 = k)) as [<-|Hne].
      * rewrite Hk0'. destruct (decide (differs self other k0 v0)); [|done].
        simpl. rewrite !get_setitem, !decide_True by done. by rewrite Hps.
      * destruct (decide (differs self other k0 v0)); [|done]. simpl.
        rewrite !get_setitem, !decide_False by done. done.
Qed.

Lemma diff_get self other :
  paired self → paired other →
  NoDup (PyDict.keys (PyExperimentInstanceState.items self)) →
  ∃ d,
    PyExperimentInstanceState.diff self other = Ok d
    ∧ well_keyed d
    ∧ ∀ k,
        PyDict.get (PyExperimentInstanceState.items d) k
        = match PyDict.get (PyExperimentInstanceState.items self) k with
          | Some v => if decide (differs self other k v) then Some v else None
          | None => None
          end
        ∧ PyDict.get (PyExperimentInstanceState._permission d) k
          = match PyDict.get (PyExperimentInstanceState.items self) k with
            | Some v => if decide (differs self other k v)
                        then PyDict.get (PyExperimentInstanceState._permission self) k
                        else None
            | None => None
            end.
Proof.
  intros Hs Ho Hnd. unfold PyExperimentInstanceState.diff.
  destruct (diff_loop_get self other (PyExperimentInstanceState.items self)
              PyExperimentInstanceState.init Hnd) as (d & Hd & Hn1 & Hn2 & Hget).
  - intros k Hk. apply Hs. by apply get_is_Some_keys.
  - done.
  - exists d. split; [done|]. split.
    + split; [apply Hn1 | apply Hn2]; apply NoDup_nil_2.
    + intros k. destruct (Hget k) as [Hi Hp]. by rewrite Hi, Hp.
Qed.

(** X16. [self.diff(other)] holds exactly the bindings of [self] that
    [other] does not hold with the same value and the same permission, each
    with the value and the permission it has in [self]. *)
Theorem diff_bindings (self other : PyExperimentInstanceState.t) :
  paired self → paired other →
  NoDup (PyDict.keys (PyExperimentInstanceState.items self)) →
  ∃ d,
    PyExperimentInstanceState.diff self other = Ok d
    ∧ (∀ k v, PyDict.get (PyExperimentInstanceState.items d) k = Some v
              ↔ PyDict.get (PyExperimentInstanceState.items self) k = Some v
                ∧ differs self other k v)
    ∧ (∀ k p, PyDict.get (PyExperimentInstanceState._permission d) k = Some p
              ↔ PyDict.get (PyExperimentInstanceState._permission self) k = Some p
                ∧ ∃ v, PyDict.get (PyExperimentInstanceState.items self) k = Some v
                       ∧ differs self other k v).
Proof.
  intros Hs Ho Hnd. destruct (diff_get self other Hs Ho Hnd) as (d & Hd & _ & Hget).
  exists d. split; [done|]. split.
  - intros k v. destruct (Hget k) as [-> _].
    destruct (PyDict.get (PyExperimentInstanceState.items self) k) as [v'|]; [|by split; [|intros [? _]]].
    destruct (decide (differs self other k v')) as [Hd'|Hd'].
    + split; [by intros [= <-] | by intros [[= <-] _]].
    + split; [done | intros [[= <-] ?]; done].
  - intros k p. destruct (Hget k) as [_ ->].
    destruct (PyDict.get (PyExperimentInstanceState.items self) k) as [v'|].
    + destruct (decide (differs self other k v')) as [Hd'|Hd'].
      * split; [intros H; split; [done | by exists v'] | by intros [? _]].
      * split; [done | intros [_ (v & [= <-] & ?)]; done].
    + split; [done | by intros [_ (v & ? & _)]].
Qed.

Lemma diff_bindings_witness :
  ∃ d,
    PyExperimentInstanceState.diff (Pipeline.state_of "done" rw) (Pipeline.state_of "mid" ro)
    = Ok d
    ∧ PyDict.get (PyExperimentInstanceState.items d) (py "S") = Some (py "done").
Proof.
  destruct (diff_bindings (Pipeline.state_of "done" rw) (Pipeline.state_of "mid" ro))
    as (d & Hd & Hi & _).
  - by apply paired_same_keys.
  - by apply paired_same_keys.
  - apply NoDup_singleton.
  - exists d. split; [exact Hd|]. apply Hi. split; [reflexivity|]. left. discriminate.
Defined.

(** X17. Merging [self.diff(other)] into [other] binds every variable as
    merging the whole of [self] does: the difference is all that [update]
    needs. *)
Theorem update_diff (self other : PyExperimentInstanceState.t) :
  paired self → paired other → well_keyed self →
  ∃ d,
    PyExperimentInstanceState.diff self other = Ok d
    ∧ ∀ k,
        PyDict.get (PyExperimentInstanceState.items (PyExperimentInstanceState.update other d)) k
        = PyDict.get (PyExperimentInstanceState.items
                        (PyExperimentInstanceState.update other self)) k
        ∧ PyDict.get (PyExperimentInstanceState._permission
                        (PyExperimentInstanceState.update other d)) k
          = PyDict.get (PyExperimentInstanceState._permission
                          (PyExperimentInstanceState.update other self)) k.
Proof.
  intros Hs Ho [Hn1 Hn2].
  destruct (diff_get self other Hs Ho Hn1) as (d & Hd & [Hd1 Hd2] & Hget).
  exists d. split; [done|]. intros k. simpl.
  rewrite !get_update by done. destruct (Hget k) as [-> ->].
  destruct (PyDict.get (PyExperimentInstanceState.items self) k) as [v|] eqn:Ev.
  - destruct (Hs k) as [Hk _]. destruct Hk as [p Hp]; [by eexists|]. rewrite Hp.
    destruct (decide (differs self other k v)) as [Hdiff|Hsame]; [done|].
    assert (PyDict.get (PyExperimentInstanceState.items other) k = Some v) as Hv.
    { apply dec_stable. intros H. apply Hsame. by left. }
    assert (PyDict.get (PyExperimentInstanceState._permission other) k = Some p) as Hq.
    { rewrite <- Hp. apply dec_stable. intros H. apply Hsame. by right. }
    by rewrite Hv, Hq.
  - destruct (PyDict.get (PyExperimentInstanceState._permission self) k) as [p|] eqn:Ep;
      [|done].
    destruct (Hs k) as [_ Hk]. destruct Hk as [v Hv]; [by eexists|]. congruence.
Qed.

Lemma update_diff_witness :
  ∃ d,
    PyExperimentInstanceState.diff (Pipeline.state_of "done" rw) (Pipeline.state_of "mid" ro)
    = Ok d
    ∧ PyDict.get (PyExperimentInstanceState.items
                    (PyExperimentInstanceState.update (Pipeline.state_of "mid" ro) d))
        (py "S")
      = Some (py "done").
Proof.
  destruct (update_diff (Pipeline.state_of "done" rw) (Pipeline.state_of "mid" ro))
    as (d & Hd & Hget).
  - by apply paired_same_keys.
  - by apply paired_same_keys.
  - split; apply NoDup_singleton.
  - exists d. split; [exact Hd|]. destruct (Hget (py "S")) as [-> _]. reflexivity.
Defined.

(** ** The variables of a parsed experiment *)

Lemma validate_clause_shape c :
  Dependency.validate_clause c = Ok c → ∃ id, clause_shape c id.
Proof.
  intros H. apply lang_shape. destruct (is_clause_lang c) as (He & Hi & Hm & Hn).
  unfold Dependency.validate_clause in H.
  destruct (Dependency.is_equality_clause c); [left; by apply He|].
  destruct (Dependency.is_inequality_clause c); [right; left; by apply Hi|].
  destruct (Dependency.is_membership_clause c); [right; right; left; by apply Hm|].
  destruct (Dependency.is_nomembership_clause c); [right; right; right; by apply Hn|].
  discriminate H.
Qed.

Lemma rmap_total {A B} (f : A → result B) (l : list A) :
  (∀ a, a ∈ l → ∃ b, f a = Ok b) →
  ∃ bs, rmap f l = Ok bs ∧ ∀ b, b ∈ bs ↔ ∃ a, a ∈ l ∧ f a = Ok b.
Proof.
  induction l as [|a l IH]; intros H.
  - exists []. split; [done|]. intros b. split.
    + by intros ?%elem_of_nil.
    + by intros (a & ?%elem_of_nil & _).
  - destruct (H a) as [b Hb]; [by left|].
    destruct IH as (bs & Hbs & Hin); [intros a' Ha'; apply H; by right|].
    exists (b :: bs). simpl. rewrite Hb. simpl. rewrite Hbs. simpl. split; [done|].
    intros b'. rewrite elem_of_cons, Hin. split.
    + intros [->|(a' & Ha' & Hf)]; [exists a; split; [by left | done]|].
      exists a'. split; [by right | done].
    + intros (a' & [->|Ha']%elem_of_cons & Hf).
      * left. rewrite Hb in Hf. by injection Hf.
      * right. by exists a'.
Qed.

Lemma on_variables_of_clauses (l : list str) ns :
  Forall (fun c => Dependency.validate_clause c = Ok c) l →
  ∃ vars,
    Guard.on_variables (Guard.mk (Dependency.mk <$> l)) ns = Ok vars
    ∧ increasing (identifiers vars)
    ∧ ∀ v, v ∈ vars
           ↔ (ns = None ∨ Some (Variable_.namespace v) = ns)
             ∧ ∃ c, c ∈ l ∧ clause_shape c (Variable_.identifier v).
Proof.
  intros Hl. rewrite Forall_forall in Hl.
  destruct (rmap_total Dependency.on_variable (Dependency.mk <$> l)) as (vs & Hvs & Hin).
  { intros d (c & -> & Hc)%list_elem_of_fmap.
    destruct (validate_clause_shape c (Hl c Hc)) as [id Hid].
    exists (Variable_.mk id). by apply on_variable_shape_ok. }
  unfold Guard.on_variables. cbn [Guard._dependencies]. rewrite Hvs. simpl.
  eexists. split; [reflexivity|].
  destruct (sorted_filter_elements_facts
              (fun variable => ns = None ∨ Some (Variable_.namespace variable) = ns)
              (list_to_set vs)) as (_ & H2 & H3).
  split; [done|]. intros v. rewrite H3, elem_of_list_to_set, Hin.
  split; intros [Hns Hv]; (split; [done|]).
  - destruct Hv as (d & (c & -> & Hc)%list_elem_of_fmap & Hd).
    exists c. split; [done|].
    destruct (validate_clause_shape c (Hl c Hc)) as [id Hid].
    rewrite (on_variable_shape_ok c id Hid) in Hd. injection Hd as <-. done.
  - destruct Hv as (c & Hc & Hshape). exists (Dependency.mk c). split.
    + apply list_elem_of_fmap. by exists c.
    + rewrite (on_variable_shape_ok c _ Hshape). by destruct v.
Qed.

Lemma guard_init_clauses clauses g :
  Guard.init clauses = Ok g →
  g = Guard.mk (Dependency.mk <$> Guard.clause_list clauses)
  ∧ Forall (fun c => Dependency.validate_clause c = Ok c) (Guard.clause_list clauses).
Proof.
  unfold Guard.init. pose proof (rmap_Dependency_init (Guard.clause_list clauses)) as H.
  destruct (rmap Dependency.init _) as [e|ds]; simpl; [done|].
  destruct H as [-> HF]. unfold Guard.validate_dependencies.
  case_bool_decide; simpl; [|done]. by intros [= <-].
Qed.

(** X18. On a guard that the parser built, [on_variables] raises nothing:
    it returns, in strictly increasing order of identifier, the variables
    that the clauses of the guard name, restricted to the namespace asked
    for when there is one. *)
Theorem guard_on_variables_parsed (clauses : clauses_arg) (g : Guard.t) (ns : option str) :
  Guard.init clauses = Ok g →
  ∃ vars,
    Guard.on_variables g ns = Ok vars
    ∧ increasing (identifiers vars)
    ∧ ∀ v, v ∈ vars
           ↔ (ns = None ∨ Some (Variable_.namespace v) = ns)
             ∧ ∃ c, c ∈ Guard.clause_list clauses
                    ∧ clause_shape c (Variable_.identifier v).
Proof.
  intros [-> HF]%guard_init_clauses. by apply on_variables_of_clauses.
Qed.

Lemma guard_on_variables_parsed_witness :
  ∃ vars,
    Guard.on_variables
      (Guard.mk [Dependency.mk (py "$WEB_PORT = '80'"); Dependency.mk (py "$DB_HOST != ''");
                 Dependency.mk (py "$WEB_HOST in ['a']")])
      (Some (py "WEB")) = Ok vars
    ∧ increasing (identifiers vars).
Proof.
  destruct (guard_on_variables_parsed
              (ClauseList [py "$WEB_PORT = '80'"; py "$DB_HOST != ''"; py "$WEB_HOST in ['a']"])
              (Guard.mk [Dependency.mk (py "$WEB_PORT = '80'");
                         Dependency.mk (py "$DB_HOST != ''");
                         Dependency.mk (py "$WEB_HOST in ['a']")])
              (Some (py "WEB"))) as (vars & H1 & H2 & _).
  - vm_compute. reflexivity.
  - exists vars. split; [exact H1 | exact H2].
Defined.

Lemma rmap_Ok_inv {A B} (f : A → result B) (l : list A) (bs : list B) (b : B) :
  rmap f l = Ok bs → b ∈ bs → ∃ a, a ∈ l ∧ f a = Ok b.
Proof.
  revert bs. induction l as [|x l IH]; intros bs; simpl.
  - intros [= <-] H. by apply elem_of_nil in H.
  - destruct (f x) as [e|b0] eqn:E; simpl; [done|].
    destruct (rmap f l) as [e|bs'] eqn:E'; simpl; [done|].
    intros [= <-] [->|Hin]%elem_of_cons.
    + exists x. split; [by left | done].
    + destruct (IH bs' eq_refl Hin) as (a & ? & ?). exists a. split; [by right | done].
Qed.

Lemma wedmakefile_init_guards doc w :
  WEDMakefile.init doc = Ok w →
  (∃ c, Guard.init c = Ok (WEDMakefile.initial_guard w))
  ∧ (∃ c, Guard.init c = Ok (WEDMakefile.final_guard w))
  ∧ ∀ task, task ∈ WEDMakefile.tasks w → ∃ c, Guard.init c = Ok (Task.guard task).
Proof.
  unfold WEDMakefile.init.
  destruct (Guard.init (y_initial_guard doc)) as [e|ig] eqn:Ei; simpl; [done|].
  destruct (Guard.init (y_final_guard doc)) as [e|fg] eqn:Ef; simpl; [done|].
  destruct (rmap _ (y_tasks doc)) as [e|ts] eqn:Et; simpl; [done|].
  intros [= <-]. split_and!; [by eexists | by eexists |].
  intros task Htask. simpl in Htask.
  destruct (rmap_Ok_inv _ _ _ _ Et Htask) as (y & _ & Hy).
  destruct (Guard.init (y_guard y)) as [e|g] eqn:Eg; simpl in Hy; [done|].
  unfold Task.init in Hy. destruct (Task.validate_name (y_name y)); simpl in Hy; [done|].
  injection Hy as <-. by exists (y_guard y).
Qed.

(** X19. For an experiment that the parser built, [variables] raises
    nothing: it returns, in strictly increasing order of identifier, the
    variables of the initial guard, of the final guard and of the guards of
    the tasks. So every variable that a task locks is a variable of the
    experiment. *)
Theorem wedmakefile_variables_parsed (doc : yaml_doc) (w : WEDMakefile.t) :
  WEDMakefile.init doc = Ok w →
  ∃ vars,
    WEDMakefile.variables w None = Ok vars
    ∧ increasing (identifiers vars)
    ∧ (∀ v, v ∈ vars
            ↔ ∃ g gv, (g = WEDMakefile.initial_guard w ∨ g = WEDMakefile.final_guard w
                       ∨ ∃ task, task ∈ WEDMakefile.tasks w ∧ g = Task.guard task)
                      ∧ Guard.on_variables g None = Ok gv ∧ v ∈ gv)
    ∧ ∀ task, task ∈ WEDMakefile.tasks w →
              ∃ tv, Guard.on_variables (Task.guard task) None = Ok tv
                    ∧ ∀ v, v ∈ tv → v ∈ vars.
Proof.
  intros (Hi & Hf & Ht)%wedmakefile_init_guards.
  assert (∀ g, (∃ c, Guard.init c = Ok g) → ∃ gv, Guard.on_variables g None = Ok gv) as Hon.
  { intros g [c [-> HF]%guard_init_clauses].
    destruct (on_variables_of_clauses (Guard.clause_list c) None HF) as (gv & ? & _).
    by exists gv. }
  destruct (Hon _ Hi) as [iv Hiv]. destruct (Hon _ Hf) as [fv Hfv].
  destruct (rmap_total (fun task => Guard.on_variables (Task.guard task) None)
              (WEDMakefile.tasks w)) as (tvs & Htvs & Hin).
  { intros task Htask. by apply Hon, Ht. }
  unfold WEDMakefile.variables. unfold WEDMakefile.initial_guard in Hiv.
  unfold WEDMakefile.final_guard in Hfv. unfold WEDMakefile.tasks in Htvs.
  rewrite Hiv, Hfv. simpl. rewrite Htvs. simpl.
  eexists. split; [reflexivity|].
  destruct (sorted_filter_elements_facts
              (fun variable => @None str = None ∨ Some (Variable_.namespace variable) = None)
              (list_to_set (iv ++ fv ++ concat tvs))) as (_ & H2 & H3).
  split; [done|].
  assert (∀ v, v ∈ iv ++ fv ++ concat tvs
               ↔ ∃ g gv, (g = WEDMakefile.initial_guard w ∨ g = WEDMakefile.final_guard w
                          ∨ ∃ task, task ∈ WEDMakefile.tasks w ∧ g = Task.guard task)
                         ∧ Guard.on_variables g None = Ok gv ∧ v ∈ gv) as Hmem.
  { intros v. rewrite !elem_of_app. split.
    - intros [Hv|[Hv|Hv]].
      + exists (WEDMakefile.initial_guard w), iv. split_and!; [by left | done | done].
      + exists (WEDMakefile.final_guard w), fv. split_and!; [by right; left | done | done].
      + apply list_elem_of_In, in_concat in Hv as (tv & Htv & Hv).
        apply list_elem_of_In, Hin in Htv as (task & Htask & Htv).
        exists (Task.guard task), tv. split_and!; [| done | by apply list_elem_of_In].
        right; right. by exists task.
    - intros (g & gv & [->|[->|(task & Htask & ->)]] & Hgv & Hv).
      + left. unfold WEDMakefile.initial_guard in Hgv. rewrite Hiv in Hgv.
        by injection Hgv as ->.
      + right; left. unfold WEDMakefile.final_guard in Hgv. rewrite Hfv in Hgv.
        by injection Hgv as ->.
      + right; right. apply list_elem_of_In, in_concat. exists gv.
        split; apply list_elem_of_In; [|done]. apply Hin. by exists task. }
  split.
  - intros v. rewrite H3, elem_of_list_to_set, Hmem. split; [by intros [_ ?] | by split; [left|]].
  - intros task Htask. destruct (Hon _ (Ht task Htask)) as [tv Htv]. exists tv.
    split; [done|]. intros v Hv. apply H3. split; [by left|].
    apply elem_of_list_to_set, Hmem. exists (Task.guard task), tv.
    split_and!; [| done | done]. right; right. by exists task.
Qed.

Lemma wedmakefile_variables_parsed_witness :
  ∃ w vars,
    WEDMakefile.init Pipeline.doc = Ok w
    ∧ WEDMakefile.variables w None = Ok vars
    ∧ increasing (identifiers vars).
Proof.
  destruct (wedmakefile_variables_parsed Pipeline.doc Pipeline.wedmakefile)
    as (vars & H1 & H2 & _).
  - vm_compute. reflexivity.
  - exists Pipeline.wedmakefile, vars. split_and!; [vm_compute; reflexivity | exact H1 | exact H2].
Defined.

(** ** The loop of a worker *)


Lemma is_in_final_state_run self vars :
  _ei_lock self = false →
  WEDMakefile.variables (_wedmakefile self) None = Ok vars →
  (∀ id, id ∈ identifiers vars → _variable_locks self !! id = Some false) →
  Forall (evaluates (_state self))
         (Guard.dependencies (WEDMakefile.final_guard (_wedmakefile self))) →
  is_in_final_state self
  = Returns (forallb (holds (_state self))
               (Guard.dependencies (WEDMakefile.final_guard (_wedmakefile self))))
      (with_locks (_variable_locks self) (lock_round (identifiers vars)) self).
Proof.
  intros Hei Hvars Hfree Hev.
  destruct (variables_facts _ _ Hvars) as (Hnd & _ & _).
  rewrite (is_in_final_state_unfold _ _ Hvars). by rewrite guarded_test_run.
Qed.

(** When the final guard is satisfied or an exception has been recorded,
    the loop is not entered. *)
Lemma run_loop_stops from_bash_script draw fuel i self vars :
  _ei_lock self = false →
  WEDMakefile.variables (_wedmakefile self) None = Ok vars →
  (∀ id, id ∈ identifiers vars → _variable_locks self !! id = Some false) →
  Forall (evaluates (_state self))
         (Guard.dependencies (WEDMakefile.final_guard (_wedmakefile self))) →
  satisfied (WEDMakefile.final_guard (_wedmakefile self)) (_state self)
  ∨ _exceptions self ≠ [] →
  run_loop from_bash_script draw (S fuel) i self
  = Returns (Some (forallb (holds (_state self))
                     (Guard.dependencies (WEDMakefile.final_guard (_wedmakefile self)))))
      (with_locks (_variable_locks self)
         (lock_round (identifiers vars) ++ lock_round (identifiers vars)) self).
Proof.
  intros Hei Hvars Hfree Hev Hstop. cbn [run_loop].
  unfold bind at 1. rewrite (is_in_final_state_run self vars) by done.
  set (s1 := with_locks (_variable_locks self) (lock_round (identifiers vars)) self).
  set (final := forallb _ _).
  assert ((if negb final
           then bind (read _exceptions)
                  (fun exceptions => ret (bool_decide (length exceptions = 0%nat)))
           else ret false) s1 = Returns false s1) as Hcont.
  { destruct Hstop as [Hsat|Hexc].
    - apply satisfied_forallb in Hsat. unfold final. by rewrite Hsat.
    - destruct final; [done|]. simpl. unfold bind, read, ret. simpl.
      rewrite bool_decide_eq_false_2; [done|].
      destruct (_exceptions self); [done | simpl; lia]. }
  unfold bind at 1. rewrite Hcont. unfold bind at 1.
  rewrite (is_in_final_state_run s1 vars) by done.
  unfold ret. simpl. f_equal. unfold s1. by rewrite with_locks_with_locks.
Qed.

(** X20. A worker that finds the final guard satisfied, or an exception
    recorded, runs no task: [run] returns whether the final guard is
    satisfied, whatever the scripts and the draws, and leaves the state,
    the recorded exceptions and the lock table as they were. *)
Theorem run_stops_at_once
    (from_bash_script : Task.t → list (str * str * permission)
                        → result PyExperimentInstanceState.t)
    (draw : nat → nat) (fuel : nat) (self : PyExperimentInstance.t)
    (vars : list Variable_.t) :
  let w := _wedmakefile self in
  let st := _state self in
  _ei_lock self = false →
  WEDMakefile.variables w None = Ok vars →
  (∀ id, id ∈ identifiers vars → _variable_locks self !! id = Some false) →
  Forall (evaluates st) (Guard.dependencies (WEDMakefile.final_guard w)) →
  satisfied (WEDMakefile.final_guard w) st ∨ _exceptions self ≠ [] →
  ∃ b evs,
    run from_bash_script draw (S fuel) self
    = Returns (Some b) (with_locks (_variable_locks self) evs self)
    ∧ (b = true ↔ satisfied (WEDMakefile.final_guard w) st).
Proof.
  intros w st Hei Hvars Hfree Hev Hstop. unfold run.
  rewrite (run_loop_stops _ _ _ _ _ vars) by done.
  eexists _, _. split; [reflexivity|]. symmetry. apply satisfied_forallb.
Qed.

Lemma run_stops_at_once_witness :
  let self := PyExperimentInstance.mk Pipeline.wedmakefile (Pipeline.state_of "done" rw) []
                {[ py "S" := false ]} false [] in
  ∃ self',
    run Pipeline.script_done (fun _ => 0%nat) 1 self = Returns (Some true) self'
    ∧ _state self' = _state self.
Proof.
  intros self.
  destruct (run_stops_at_once Pipeline.script_done (fun _ => 0%nat) 0 self
              [Variable_.mk (py "S")]) as (b & evs & Hrun & Hb).
  - reflexivity.
  - vm_compute. reflexivity.
  - intros id Hid. apply list_elem_of_singleton in Hid as ->. reflexivity.
  - repeat constructor. eexists. vm_compute. reflexivity.
  - left. intros d Hd. apply list_elem_of_singleton in Hd as ->. vm_compute. reflexivity.
  - assert (b = true) as ->.
    { apply Hb. intros d Hd. apply list_elem_of_singleton in Hd as ->.
      vm_compute. reflexivity. }
    eexists. split; [exact Hrun | reflexivity].
Defined.

Lemma is_in_inconsistent_state_run self vars :
  _ei_lock self = false →
  WEDMakefile.variables (_wedmakefile self) None = Ok vars →
  (∀ id, id ∈ identifiers vars → _variable_locks self !! id = Some false) →
  Forall (evaluates (_state self))
         (Guard.dependencies (WEDMakefile.final_guard (_wedmakefile self))) →
  Forall (fun task => Forall (evaluates (_state self)) (Guard.dependencies (Task.guard task)))
         (WEDMakefile.tasks (_wedmakefile self)) →
  is_in_inconsistent_state self
  = Returns
      (negb (forallb (holds (_state self))
               (Guard.dependencies (WEDMakefile.final_guard (_wedmakefile self))))
       && negb (existsb (fun task => forallb (holds (_state self))
                                       (Guard.dependencies (Task.guard task)))
                  (WEDMakefile.tasks (_wedmakefile self))))
      (with_locks (_variable_locks self) (lock_round (identifiers vars)) self).
Proof.
  intros Hei Hvars Hfree Hfe Hte.
  destruct (variables_facts _ _ Hvars) as (Hnd & _ & _).
  unfold is_in_inconsistent_state, CSDecorator.
  unfold bind at 1. unfold ei_lock_acquire. rewrite Hei.
  unfold bind at 1. unfold bind at 1. unfold read at 1. simpl.
  rewrite Hvars. unfold bind at 1. simpl. unfold ret at 1.
  unfold bind at 1. rewrite acquire_loop_success; [| done | done].
  unfold bind at 1.
  match goal with |- context [all_satisfied_loop ?d ?f ?s] =>
    pose proof (all_satisfied_loop_spec d f s) as Sf;
    destruct (all_satisfied_loop d f s) as [fin s5|e s5|s5] end;
    [| by destruct Sf | done].
  destruct Sf as [-> ->]. unfold bind at 1.
  match goal with |- context [trigger_loop ?d ?f ?s] =>
    pose proof (trigger_loop_spec d f s) as St;
    destruct (trigger_loop d f s) as [trig s6|e s6|s6] end;
    [| by destruct St | done].
  destruct St as [-> ->]. unfold bind at 1.
  rewrite release_all_success; [| done | intros id Hid; by apply held_after_lock_all].
  unfold ret at 1. unfold bind at 1. unfold ei_lock_release. simpl.
  unfold ret. f_equal. by apply with_locks_round.
Qed.

Lemma variables_tasks w vars task :
  WEDMakefile.variables w None = Ok vars → task ∈ WEDMakefile.tasks w →
  ∃ tv, Guard.on_variables (Task.guard task) None = Ok tv ∧ ∀ v, v ∈ tv → v ∈ vars.
Proof.
  intros Hvars Htask. destruct (variables_facts _ _ Hvars) as (_ & _ & Hsub).
  unfold WEDMakefile.variables in Hvars.
  destruct (Guard.on_variables (WEDMakefile._initial_guard w) None) as [e|iv]; [done|].
  destruct (Guard.on_variables (WEDMakefile._final_guard w) None) as [e|fv]; [done|].
  simpl in Hvars.
  destruct (rmap _ (WEDMakefile._tasks w)) as [e|tvs] eqn:E; [done|].
  destruct (rmap_Ok_lookup _ _ _ task E Htask) as (tv & Htv & _).
  exists tv. split; [done|]. intros v Hv. by apply (Hsub task tv).
Qed.

Lemma run_loop_S from_bash_script draw fuel i :
  run_loop from_bash_script draw (S fuel) i
  = bind is_in_final_state (fun final : bool =>
      bind (if negb final
            then bind (read _exceptions)
                   (fun exceptions => ret (bool_decide (length exceptions = 0%nat)))
            else ret false)
        (fun continue : bool =>
           if continue
           then bind (run_body from_bash_script draw i)
                  (fun _ => run_loop from_bash_script draw fuel (S i))
           else bind is_in_final_state (fun result => ret (Some result)))).
Proof. reflexivity. Qed.

(** X21. A worker that finds the experiment stuck, the final guard
    unsatisfied and no task ready, records [InconsistentState], runs no
    task and returns [False]; the state and the lock table are as they
    were. *)
Theorem run_stuck
    (from_bash_script : Task.t → list (str * str * permission)
                        → result PyExperimentInstanceState.t)
    (draw : nat → nat) (fuel : nat) (self : PyExperimentInstance.t)
    (vars : list Variable_.t) :
  let w := _wedmakefile self in
  let st := _state self in
  _ei_lock self = false →
  _exceptions self = [] →
  WEDMakefile.variables w None = Ok vars →
  (∀ id, id ∈ identifiers vars → _variable_locks self !! id = Some false) →
  Forall (evaluates st) (Guard.dependencies (WEDMakefile.final_guard w)) →
  Forall (fun task => Forall (evaluates st) (Guard.dependencies (Task.guard task)))
         (WEDMakefile.tasks w) →
  ¬ satisfied (WEDMakefile.final_guard w) st →
  (∀ task, task ∈ WEDMakefile.tasks w → ¬ satisfied (Task.guard task) st) →
  ∃ evs,
    run from_bash_script draw (S (S fuel)) self
    = Returns (Some false)
        (append_exception InconsistentState (with_locks (_variable_locks self) evs self)).
Proof.
  intros w st Hei Hexc Hvars Hfree Hfe Hte Hnf Hnt.
  assert (forallb (holds st) (Guard.dependencies (WEDMakefile.final_guard w)) = false) as Hf.
  { destruct (forallb _ _) eqn:E; [|done]. exfalso. by apply Hnf, satisfied_forallb. }
  assert (existsb (fun task => forallb (holds st) (Guard.dependencies (Task.guard task)))
            (WEDMakefile.tasks w) = false) as Ht.
  { destruct (existsb _ _) eqn:E; [|done]. exfalso.
    apply existsb_exists in E as (task & Htask & Hsat).
    apply (Hnt task); [by apply list_elem_of_In | by apply satisfied_forallb]. }
  unfold run. rewrite run_loop_S.
  unfold bind at 1. rewrite (is_in_final_state_run self vars) by done.
  fold w st. rewrite Hf. simpl negb. cbv iota.
  set (s1 := with_locks (_variable_locks self) (lock_round (identifiers vars)) self).
  unfold bind at 1. unfold bind at 1. unfold read at 1. unfold ret at 1.
  replace (_exceptions s1) with (@nil exn) by (by rewrite <- Hexc).
  rewrite bool_decide_eq_true_2 by done.
  unfold bind at 1. unfold run_body. unfold bind at 1.
  rewrite (is_in_inconsistent_state_run s1 vars) by done.
  change (_state s1) with st. change (_wedmakefile s1) with w.
  rewrite Hf, Ht. simpl andb. cbv iota.
  set (s2 := with_locks (_variable_locks s1) (lock_round (identifiers vars)) s1).
  unfold bind at 1. unfold modify at 1.
  set (s3 := append_exception InconsistentState s2).
  unfold bind at 1.
  destruct (ready_loop_run (WEDMakefile.tasks w) s3) as [evs Hready].
  { done. }
  { intros task Htask. destruct (variables_tasks w vars task Hvars Htask) as (tv & Htv & Hsub).
    exists tv. split; [done|]. intros id (v & -> & Hv)%list_elem_of_fmap.
    apply Hfree. apply list_elem_of_fmap. exists v. split; [done | by apply Hsub]. }
  { intros task Htask. rewrite Forall_forall in Hte. by apply Hte. }
  unfold ready_to_execute_tasks. unfold bind at 1. unfold read at 1.
  change (_wedmakefile s3) with w. rewrite Hready.
  assert (List.filter (fun task => forallb (holds (_state s3))
                                     (Guard.dependencies (Task.guard task)))
            (WEDMakefile.tasks w) = []) as ->.
  { destruct (List.filter _ _) as [|task l] eqn:E; [done|]. exfalso.
    assert (In task (List.filter (fun task => forallb (holds (_state s3))
                                   (Guard.dependencies (Task.guard task)))
                       (WEDMakefile.tasks w))) as Hin by (rewrite E; by left).
    apply filter_In in Hin as [Hin Hsat].
    apply (Hnt task); [by apply list_elem_of_In | by apply satisfied_forallb]. }
  rewrite bool_decide_eq_false_2 by (by intros H). unfold ret at 1.
  set (s4 := with_locks (_variable_locks s3) evs s3).
  rewrite (run_loop_stops _ _ fuel 1 s4 vars); try done.
  - change (_state s4) with st. change (_wedmakefile s4) with w. rewrite Hf.
    eexists. f_equal. unfold s4, s3, s2, s1, with_locks, append_exception. simpl.
    f_equal. rewrite <- !app_assoc. reflexivity.
  - right. simpl. by destruct (_exceptions self).
Qed.

Lemma run_stuck_witness :
  ∃ self',
    run Pipeline.script_done (fun _ => 0%nat) 2 Stuck.instance = Returns (Some false) self'
    ∧ _exceptions self' = [InconsistentState]
    ∧ _state self' = Stuck.state.
Proof.
  destruct (run_stuck Pipeline.script_done (fun _ => 0%nat) 0 Stuck.instance
              [Variable_.mk (py "A")]) as (evs & Hrun).
  - reflexivity.
  - reflexivity.
  - vm_compute. reflexivity.
  - intros id Hid. apply list_elem_of_singleton in Hid as ->. reflexivity.
  - repeat constructor. eexists. vm_compute. reflexivity.
  - repeat constructor. eexists. vm_compute. reflexivity.
  - intros Hsat. specialize (Hsat (Dependency.mk (py "$A = '3'"))).
    assert (Ok (Some false) = Ok (Some true)) as Habs; [|discriminate Habs].
    rewrite <- Hsat; [vm_compute; reflexivity|]. apply list_elem_of_singleton. reflexivity.
  - intros task Htask Hsat. apply list_elem_of_singleton in Htask as ->.
    specialize (Hsat (Dependency.mk (py "$A = '2'"))).
    assert (Ok (Some false) = Ok (Some true)) as Habs; [|discriminate Habs].
    rewrite <- Hsat; [vm_compute; reflexivity|]. apply list_elem_of_singleton. reflexivity.
  - eexists. split; [exact Hrun|]. split; reflexivity.
Defined.

(** [execute_task] on a task that is run and whose script assigns declared
    variables only. *)
Lemma execute_task_merge_run from_bash_script task self vars other_state :
  Guard.on_variables (Task.guard task) None = Ok vars →
  _ei_lock self = false →
  (∀ id, id ∈ identifiers vars → _variable_locks self !! id = Some false) →
  satisfied (Task.guard task) (_state self) →
  from_bash_script task (script_args (_state self) vars) = Ok other_state →
  (∀ k, k ∈ PyDict.keys (PyExperimentInstanceState.items other_state) →
        Variable_.is_valid_identifier k = true) →
  (∀ k, k ∈ PyDict.keys (PyExperimentInstanceState.items other_state) → declared vars k) →
  paired other_state → paired (_state self) →
  execute_task from_bash_script task self
  = Returns true
      (set_state (PyExperimentInstanceState.update (_state self) other_state)
         (with_locks (_variable_locks self) (lock_round (identifiers vars)) self)).
Proof.
  intros Hvars Hei Hfree Hsat Hrun Hvalid Hdecl Hpo Hps.
  destruct (on_variables_facts _ _ _ Hvars) as [Hnd _].
  rewrite (execute_task_acquired _ _ _ _ Hvars Hei Hfree Hsat). rewrite Hrun.
  unfold Ok. cbv beta iota.
  unfold bind at 1. unfold bind at 1.
  rewrite undeclared_loop_all; [| done | done].
  unfold bind at 1. unfold read at 1. unfold bind at 1.
  destruct (diff_Ok other_state (_state self) Hpo Hps) as [d Hd].
  simpl. rewrite Hd. simpl. unfold ret at 1.
  unfold bind at 1. unfold ei_lock_acquire. simpl. rewrite Hei.
  unfold bind at 1. unfold modify at 1. unfold bind at 1. unfold ei_lock_release. simpl.
  unfold ret at 1. unfold bind at 1.
  rewrite release_all_success; [| done | intros id Hid; by apply held_after_lock_all].
  unfold ret. f_equal. unfold set_state, with_locks, set_ei_lock, lock_round. simpl.
  rewrite lock_all_restore by done. rewrite Hei. by rewrite <- app_assoc.
Qed.

(** X22. One pass of a worker. When the final guard is unsatisfied, no
    exception is recorded and the task drawn among the ready ones runs a
    script that assigns variables of its guard only, the pass merges what
    the script assigned into the state and goes on from there; the lock
    table and the recorded exceptions are as they were. *)
Theorem run_pass
    (from_bash_script : Task.t → list (str * str * permission)
                        → result PyExperimentInstanceState.t)
    (draw : nat → nat) (fuel i : nat) (self : PyExperimentInstance.t)
    (vars tv : list Variable_.t) (task : Task.t)
    (other_state : PyExperimentInstanceState.t) :
  let w := _wedmakefile self in
  let st := _state self in
  let ready := List.filter (fun task => forallb (holds st)
                                          (Guard.dependencies (Task.guard task)))
                 (WEDMakefile.tasks w) in
  _ei_lock self = false →
  _exceptions self = [] →
  WEDMakefile.variables w None = Ok vars →
  (∀ id, id ∈ identifiers vars → _variable_locks self !! id = Some false) →
  Forall (evaluates st) (Guard.dependencies (WEDMakefile.final_guard w)) →
  Forall (fun task => Forall (evaluates st) (Guard.dependencies (Task.guard task)))
         (WEDMakefile.tasks w) →
  ¬ satisfied (WEDMakefile.final_guard w) st →
  ready !! (draw i `mod` length ready)%nat = Some task →
  Guard.on_variables (Task.guard task) None = Ok tv →
  from_bash_script task (script_args st tv) = Ok other_state →
  (∀ k, k ∈ PyDict.keys (PyExperimentInstanceState.items other_state) →
        Variable_.is_valid_identifier k = true ∧ declared tv k) →
  paired other_state → paired st →
  ∃ evs,
    run_loop from_bash_script draw (S fuel) i self
    = run_loop from_bash_script draw fuel (S i)
        (set_state (PyExperimentInstanceState.update st other_state)
           (with_locks (_variable_locks self) evs self)).
Proof.
  intros w st ready Hei Hexc Hvars Hfree Hfe Hte Hnf Hdraw Htv Hrun Hkeys Hpo Hps.
  assert (forallb (holds st) (Guard.dependencies (WEDMakefile.final_guard w)) = false) as Hf.
  { destruct (forallb _ _) eqn:E; [|done]. exfalso. by apply Hnf, satisfied_forallb. }
  assert (In task ready) as Hready_in.
  { apply list_elem_of_In. by eapply list_elem_of_lookup_2. }
  apply filter_In in Hready_in as [Htask Hsat].
  assert (existsb (fun task => forallb (holds st) (Guard.dependencies (Task.guard task)))
            (WEDMakefile.tasks w) = true) as Ht.
  { apply existsb_exists. by exists task. }
  rewrite run_loop_S.
  unfold bind at 1. rewrite (is_in_final_state_run self vars) by done.
  fold w st. rewrite Hf. simpl negb. cbv iota.
  set (s1 := with_locks (_variable_locks self) (lock_round (identifiers vars)) self).
  unfold bind at 1. unfold bind at 1. unfold read at 1. unfold ret at 1.
  replace (_exceptions s1) with (@nil exn) by (by rewrite <- Hexc).
  rewrite bool_decide_eq_true_2 by done.
  unfold bind at 1. unfold run_body. unfold bind at 1.
  rewrite (is_in_inconsistent_state_run s1 vars) by done.
  change (_state s1) with st. change (_wedmakefile s1) with w.
  rewrite Hf, Ht. simpl andb. cbv iota.
  set (s2 := with_locks (_variable_locks s1) (lock_round (identifiers vars)) s1).
  unfold bind at 1. unfold ret at 1.
  unfold bind at 1.
  destruct (ready_loop_run (WEDMakefile.tasks w) s2) as [evs Hready].
  { done. }
  { intros task' Htask'.
    destruct (variables_tasks w vars task' Hvars Htask') as (tv' & Htv' & Hsub).
    exists tv'. split; [done|]. intros id (v & -> & Hv)%list_elem_of_fmap.
    apply Hfree. apply list_elem_of_fmap. exists v. split; [done | by apply Hsub]. }
  { intros task' Htask'. rewrite Forall_forall in Hte. by apply Hte. }
  unfold ready_to_execute_tasks. unfold bind at 1. unfold read at 1.
  change (_wedmakefile s2) with w. rewrite Hready.
  change (List.filter _ (WEDMakefile.tasks w)) with ready.
  rewrite bool_decide_eq_true_2.
  2:{ intros Hlen. destruct ready; [|done]. by rewrite lookup_nil in Hdraw. }
  set (s3 := with_locks (_variable_locks s2) evs s2).
  unfold bind at 1. unfold random_choice. rewrite Hdraw. unfold ret at 1.
  unfold bind at 1.
  rewrite (execute_task_merge_run from_bash_script task s3 tv other_state); try done.
  - unfold ret at 1. eexists. f_equal.
    unfold s3, s2, s1, set_state, with_locks. simpl. f_equal.
    rewrite <- !app_assoc. reflexivity.
  - intros id (v & -> & Hv)%list_elem_of_fmap.
    destruct (variables_tasks w vars task Hvars) as (tv' & Htv' & Hsub);
      [by apply list_elem_of_In|].
    rewrite Htv in Htv'. injection Htv' as <-.
    apply Hfree. apply list_elem_of_fmap. exists v. split; [done | by apply Hsub].
  - by apply satisfied_forallb.
  - intros k Hk. by apply Hkeys.
  - intros k Hk. by apply Hkeys.
Qed.

Lemma run_pass_witness :
  ∃ self',
    run Pipeline.script_done (fun _ => 0%nat) 2 Pipeline.after_A = Returns (Some true) self'
    ∧ PyExperimentInstanceState.get (_state self') (py "S") PyStr.empty = py "done".
Proof.
  assert (∀ id, id ∈ identifiers [Variable_.mk (py "S")] →
                _variable_locks Pipeline.after_A !! id = Some false) as Hfree.
  { intros id Hid. apply list_elem_of_singleton in Hid as ->. reflexivity. }
  destruct (run_pass Pipeline.script_done (fun _ => 0%nat) 1 0 Pipeline.after_A
              [Variable_.mk (py "S")] [Variable_.mk (py "S")] Pipeline.task_B
              (Pipeline.state_of "done" rw)) as (evs & Hrun).
  - reflexivity.
  - reflexivity.
  - vm_compute. reflexivity.
  - exact Hfree.
  - repeat constructor. eexists. vm_compute. reflexivity.
  - repeat constructor; eexists; vm_compute; reflexivity.
  - intros Hsat. specialize (Hsat (Dependency.mk (py "$S = 'done'"))).
    assert (Ok (Some false) = Ok (Some true)) as Habs; [|discriminate Habs].
    rewrite <- Hsat; [vm_compute; reflexivity|]. apply list_elem_of_singleton. reflexivity.
  - vm_compute. reflexivity.
  - vm_compute. reflexivity.
  - reflexivity.
  - intros k Hk. apply list_elem_of_singleton in Hk as ->. split.
    + vm_compute. reflexivity.
    + apply list_elem_of_singleton. reflexivity.
  - by apply paired_same_keys.
  - by apply paired_same_keys.
  - unfold run. rewrite Hrun.
    rewrite (run_loop_stops _ _ 0 1 _ [Variable_.mk (py "S")]).
    + eexists. split; [reflexivity | reflexivity].
    + reflexivity.
    + vm_compute. reflexivity.
    + exact Hfree.
    + repeat constructor. eexists. vm_compute. reflexivity.
    + left. intros d Hd. apply list_elem_of_singleton in Hd as ->. vm_compute. reflexivity.
Defined.

(** ** The capture of a script's output *)

Lemma capture_loop_keeps todo (P : PyExperimentInstanceState.t → Prop) acc st :
  P acc →
  (∀ s k v p, P s → Variable_.is_valid_identifier k = true →
              Variable_.is_valid_value v = true →
              P (PyExperimentInstanceState.mk
                   (PyDict.setitem (PyExperimentInstanceState.items s) k v)
                   (PyDict.setitem (PyExperimentInstanceState._permission s) k p))) →
  capture_loop todo acc = inr st → P st.
Proof.
  intros Hacc Hstep. revert acc Hacc.
  induction todo as [|[[k v] p] todo IH]; intros acc Hacc; simpl.
  - by intros [= <-].
  - unfold Variable_.validate_identifier, Variable_.validate_value.
    destruct (Variable_.is_valid_identifier k) eqn:Ek; [|done].
    destruct (Variable_.is_valid_value v) eqn:Ev; [|done].
    destruct (parse_permission p) as [q|]; [|done].
    apply IH. by apply Hstep.
Qed.

(** X23. A state captured from the output of a script is well formed: it
    holds a value and a permission for the same identifiers, one binding
    per identifier, every identifier and every value valid. *)
Theorem capture_well_formed (output : str) (st : PyExperimentInstanceState.t) :
  capture output = inr st →
  paired st ∧ well_keyed st
  ∧ (∀ k, k ∈ PyDict.keys (PyExperimentInstanceState.items st) →
          Variable_.is_valid_identifier k = true)
  ∧ (∀ k v, PyDict.get (PyExperimentInstanceState.items st) k = Some v →
            Variable_.is_valid_value v = true).
Proof.
  unfold capture. intros H. split_and!.
  - revert H. apply capture_loop_keeps.
    + intros k. simpl. split; by intros [? ?].
    + intros s k v p Hs _ _ k'. simpl. rewrite !get_setitem.
      destruct (decide (k = k')); [split; by eauto | apply Hs].
  - revert H. apply capture_loop_keeps.
    + split; apply NoDup_nil_2.
    + intros s k v p [H1 H2] _ _. split; by apply NoDup_keys_setitem.
  - revert H. apply (capture_loop_keeps _
      (fun s => ∀ k, k ∈ PyDict.keys (PyExperimentInstanceState.items s) →
                     Variable_.is_valid_identifier k = true)).
    + intros k Hk. by apply elem_of_nil in Hk.
    + intros s k v p Hs Hk _ k'. simpl. rewrite <- !get_is_Some_keys, get_setitem.
      destruct (decide (k = k')) as [<-|]; [done|]. rewrite get_is_Some_keys. apply Hs.
  - revert H. apply (capture_loop_keeps _
      (fun s => ∀ k v, PyDict.get (PyExperimentInstanceState.items s) k = Some v →
                       Variable_.is_valid_value v = true)).
    + done.
    + intros s k v p Hs _ Hv k' v'. simpl. rewrite get_setitem.
      destruct (decide (k = k')); [by intros [= <-] | apply Hs].
Qed.

Lemma capture_well_formed_witness :
  ∃ st,
    capture (written [(py "S", py "mid", ro); (py "HOST", py "a b", rw)]) = inr st
    ∧ paired st
    ∧ ∀ k, k ∈ PyDict.keys (PyExperimentInstanceState.items st) →
           Variable_.is_valid_identifier k = true.
Proof.
  eexists. split; [vm_compute; reflexivity|].
  destruct (capture_well_formed
              (written [(py "S", py "mid", ro); (py "HOST", py "a b", rw)])
              (PyExperimentInstanceState.mk [(py "S", py "mid"); (py "HOST", py "a b")]
                 [(py "S", ro); (py "HOST", rw)])) as (H1 & _ & H2 & _).
  - vm_compute. reflexivity.
  - split; [exact H1 | exact H2].
Defined.

Lemma stride3_cons3 {A} (a b c : A) l : stride3 (a :: b :: c :: l) = a :: stride3 l.
Proof. done. Qed.

Lemma stride3_cons2 {A} (b c : A) l : stride3 (b :: c :: l) = b :: stride3 (drop 1 l).
Proof. by destruct l. Qed.

Lemma stride3_cons1 {A} (c : A) l : stride3 (c :: l) = c :: stride3 (drop 2 l).
Proof. by destruct l as [|x [|y l]]. Qed.

Lemma triples_cons3 {A} (a b c : A) l : triples (a :: b :: c :: l) = (a, b, c) :: triples l.
Proof.
  unfold triples. cbn [drop]. rewrite stride3_cons3, stride3_cons2, stride3_cons1. done.
Qed.

Lemma triples_binding_lines bindings :
  triples (concat (binding_lines <$> bindings))
  = (fun b : str * str * permission => (b.1.1, b.1.2, permission_text b.2)) <$> bindings.
Proof.
  induction bindings as [|b bs IH]; [done|].
  cbn [fmap list_fmap concat binding_lines app]. rewrite triples_cons3. by rewrite IH.
Qed.

Lemma parse_permission_text p : parse_permission (permission_text p) = Some p.
Proof. by destruct p. Qed.

Lemma capture_loop_bindings bindings acc :
  Forall (fun b : str * str * permission =>
            Variable_.is_valid_identifier b.1.1 = true
            ∧ Variable_.is_valid_value b.1.2 = true) bindings →
  capture_loop ((fun b : str * str * permission =>
                   (b.1.1, b.1.2, permission_text b.2)) <$> bindings) acc
  = inr (foldl (fun st b =>
                  PyExperimentInstanceState.mk
                    (PyDict.setitem (PyExperimentInstanceState.items st) b.1.1 b.1.2)
                    (PyDict.setitem (PyExperimentInstanceState._permission st) b.1.1 b.2))
               acc bindings).
Proof.
  intros H. revert acc. induction H as [|[[k v] p] bs [Hk Hv] _ IH]; intros acc; [done|].
  cbn [fmap list_fmap capture_loop fst snd foldl].
  unfold Variable_.validate_identifier, Variable_.validate_value.
  simpl in Hk, Hv. rewrite Hk, Hv, parse_permission_text. apply IH.
Qed.

Lemma split_line (line rest : str) :
  "010"%char ∉ line →
  split "010" (line ++ "010"%char :: rest) = line :: split "010" rest.
Proof.
  induction line as [|a line IH]; intros Hnl; [done|].
  apply not_elem_of_cons in Hnl as [Ha Hnl]. cbn [app split].
  rewrite (proj2 (chr_eqb_false a "010"%char)) by done. by rewrite IH.
Qed.

Lemma split_last_line (line : str) : "010"%char ∉ line → split "010" line = [line].
Proof.
  induction line as [|a line IH]; intros Hnl; [done|].
  apply not_elem_of_cons in Hnl as [Ha Hnl]. cbn [split].
  rewrite (proj2 (chr_eqb_false a "010"%char)) by done. by rewrite IH.
Qed.

Lemma split_join_lines (lines : list str) :
  lines ≠ [] → Forall (fun line => "010"%char ∉ line) lines →
  split "010" (join_lines lines) = lines.
Proof.
  intros Hne H. induction H as [|line lines Hl Hls IH]; [done|].
  destruct lines as [|line' lines].
  - simpl. by apply split_last_line.
  - cbn [join_lines]. rewrite split_line by done. f_equal. by apply IH.
Qed.

Lemma concat_lines (lines : list str) :
  lines ≠ [] →
  concat ((fun line => line ++ ["010"%char]) <$> lines) = join_lines lines ++ ["010"%char].
Proof.
  intros Hne. induction lines as [|line lines IH]; [done|].
  destruct lines as [|line' lines].
  - simpl. by rewrite app_nil_r.
  - change (concat ((fun line => line ++ ["010"%char]) <$> line :: line' :: lines))
      with ((line ++ ["010"%char])
            ++ concat ((fun line => line ++ ["010"%char]) <$> line' :: lines)).
    rewrite IH by done. cbn [join_lines]. by rewrite <- !app_assoc.
Qed.

Lemma join_lines_snoc (lines : list str) (line : str) :
  ∃ before, join_lines (lines ++ [line]) = before ++ line.
Proof.
  induction lines as [|l lines [before IH]].
  - by exists [].
  - destruct lines as [|l' lines].
    + exists (l ++ ["010"%char]). simpl. by rewrite <- app_assoc.
    + exists (l ++ "010"%char :: before).
      change (join_lines ((l :: l' :: lines) ++ [line]))
        with (l ++ "010"%char :: join_lines ((l' :: lines) ++ [line])).
      rewrite IH. by rewrite <- app_assoc.
Qed.

Lemma join_lines_first (line : str) (lines : list str) :
  ∃ after, join_lines (line :: lines) = line ++ after.
Proof.
  destruct lines as [|l lines].
  - exists []. simpl. by rewrite app_nil_r.
  - by exists ("010"%char :: join_lines (l :: lines)).
Qed.

Lemma word_not_newline a : in_class Variable_.word a = true → a ≠ "010"%char.
Proof. intros H ->. by vm_compute in H. Qed.

Lemma identifier_no_newline id :
  Variable_.is_valid_identifier id = true → "010"%char ∉ id.
Proof.
  intros [Hword _]%identifier_stops Hin. rewrite Forall_forall in Hword.
  by apply Hword, word_not_newline in Hin.
Qed.

Lemma value_no_newline v : Variable_.is_valid_value v = true → "010"%char ∉ v.
Proof. intros [H _]%is_valid_value_lang%lang_VALUE. by apply Forall_dot. Qed.

Lemma permission_text_no_newline p : "010"%char ∉ permission_text p.
Proof.
  destruct p; intros H; repeat (apply elem_of_cons in H as [H|H]; [discriminate H|]);
    by apply elem_of_nil in H.
Qed.

Lemma binding_lines_no_newline bindings :
  Forall (fun b : str * str * permission =>
            Variable_.is_valid_identifier b.1.1 = true
            ∧ Variable_.is_valid_value b.1.2 = true) bindings →
  Forall (fun line => "010"%char ∉ line) (concat (binding_lines <$> bindings)).
Proof.
  induction 1 as [|[[k v] p] bs [Hk Hv] _ IH]; [constructor|].
  cbn [fmap list_fmap concat binding_lines app fst snd] in *.
  repeat constructor; try done.
  - by apply identifier_no_newline.
  - by apply value_no_newline.
  - apply permission_text_no_newline.
Qed.

Lemma stops_app (P : ascii → bool) (l r : str) : l ≠ [] → stops P l → stops P (l ++ r).
Proof. by destruct l. Qed.

(** [strip] on a text made of lines, each ended by a newline: when the
    first line does not start with whitespace and the last does not end
    with whitespace, only the last newline goes. *)
Lemma strip_lines (lines : list str) :
  lines ≠ [] →
  (∀ l, head lines = Some l → l ≠ [] ∧ stops PyStr.isspace l) →
  (∀ l, last lines = Some l → l ≠ [] ∧ stops PyStr.isspace (rev l)) →
  PyStr.strip (concat ((fun line => line ++ ["010"%char]) <$> lines)) = join_lines lines.
Proof.
  intros Hne Hfirst Hlast. rewrite concat_lines by done.
  replace (join_lines lines ++ ["010"%char]) with ([] ++ join_lines lines ++ ["010"%char])
    by done.
  apply strip_spaces.
  - constructor.
  - by repeat constructor.
  - destruct lines as [|l ls]; [done|].
    destruct (join_lines_first l ls) as [after ->].
    destruct (Hfirst l eq_refl). by apply stops_app.
  - destruct (exists_last Hne) as (ls & l & ->).
    destruct (join_lines_snoc ls l) as [before ->].
    destruct (Hlast l) as [Hl Hs]; [by rewrite last_snoc|].
    rewrite rev_app_distr. apply stops_app; [|done].
    intros Hr. apply Hl. by rewrite <- (rev_involutive l), Hr.
Qed.

Lemma binding_lines_first (b : str * str * permission) bs :
  head (concat (binding_lines <$> b :: bs)) = Some b.1.1.
Proof. done. Qed.

Lemma binding_lines_last (b : str * str * permission) bs :
  ∃ p, last (concat (binding_lines <$> b :: bs)) = Some (permission_text p).
Proof.
  destruct (exists_last (l := b :: bs)) as (bs' & bl & ->); [done|].
  exists bl.2. rewrite fmap_app, concat_app. cbn [fmap list_fmap concat binding_lines].
  rewrite app_nil_r.
  replace (concat (binding_lines <$> bs') ++ [bl.1.1; bl.1.2; permission_text bl.2])
    with ((concat (binding_lines <$> bs') ++ [bl.1.1; bl.1.2]) ++ [permission_text bl.2])
    by (by rewrite <- app_assoc).
  apply last_snoc.
Qed.

Lemma identifier_starts id :
  Variable_.is_valid_identifier id = true → id ≠ [] ∧ stops PyStr.isspace id.
Proof.
  intros [Hword Hne]%identifier_stops. split; [done|].
  destruct id as [|a id]; [done|]. simpl.
  apply Forall_cons in Hword as [Ha _]. by apply word_not_space.
Qed.

Lemma strip_written (b : str * str * permission) bs :
  Variable_.is_valid_identifier b.1.1 = true →
  PyStr.strip (written (b :: bs)) = join_lines (concat (binding_lines <$> b :: bs)).
Proof.
  intros Hid. unfold written. apply strip_lines.
  - by destruct b as [[? ?] ?].
  - rewrite binding_lines_first. intros l [= <-]. by apply identifier_starts.
  - destruct (binding_lines_last b bs) as [p ->]. intros l [= <-]. by destruct p.
Qed.

(** X24. The capture reads back what the capture script writes: from three
    lines per binding, identifier, value and permission, it builds the state
    that holds the bindings, a later binding of an identifier over an
    earlier one. *)
Theorem capture_written (bindings : list (str * str * permission)) :
  Forall (fun b : str * str * permission =>
            Variable_.is_valid_identifier b.1.1 = true
            ∧ Variable_.is_valid_value b.1.2 = true) bindings →
  capture (written bindings) = inr (state_of_bindings bindings).
Proof.
  intros H. destruct bindings as [|b bs]; [done|].
  unfold capture. rewrite strip_written by (by apply Forall_cons in H as [[? _] _]).
  rewrite split_join_lines.
  - rewrite triples_binding_lines. by apply capture_loop_bindings.
  - by destruct b as [[? ?] ?].
  - by apply binding_lines_no_newline.
Qed.

Lemma capture_written_witness :
  capture (written [(py "S", py "mid", ro); (py "HOST", py " a b ", rw); (py "S", [], rw)])
  = inr (PyExperimentInstanceState.mk [(py "S", []); (py "HOST", py " a b ")]
           [(py "S", rw); (py "HOST", rw)]).
Proof.
  apply (capture_written [(py "S", py "mid", ro); (py "HOST", py " a b ", rw);
                          (py "S", [], rw)]).
  repeat constructor.
Defined.

Lemma triples_short {A} (extra : list A) : (length extra < 3)%nat → triples extra = [].
Proof. destruct extra as [|x [|y [|z extra]]]; simpl; try done. lia. Qed.

Lemma triples_binding_lines_extra bindings (extra : list str) :
  (length extra < 3)%nat →
  triples (concat (binding_lines <$> bindings) ++ extra)
  = (fun b : str * str * permission => (b.1.1, b.1.2, permission_text b.2)) <$> bindings.
Proof.
  intros Hlen. induction bindings as [|b bs IH]; [by apply triples_short|].
  cbn [fmap list_fmap concat binding_lines app]. rewrite triples_cons3. by rewrite IH.
Qed.

Lemma nonspace_no_newline (line : str) :
  Forall (fun a => PyStr.isspace a = false) line → "010"%char ∉ line.
Proof.
  intros H Hin. rewrite Forall_forall in H. apply H in Hin. by vm_compute in Hin.
Qed.

Lemma nonspace_ends (line : str) :
  line ≠ [] → Forall (fun a => PyStr.isspace a = false) line →
  (line ≠ [] ∧ stops PyStr.isspace line) ∧ (line ≠ [] ∧ stops PyStr.isspace (rev line)).
Proof.
  intros Hne H. split; (split; [done|]).
  - destruct line as [|a line]; [done|]. by apply Forall_cons in H as [? _].
  - apply Forall_rev in H. destruct (rev line) as [|a r]; [done|].
    by apply Forall_cons in H as [? _].
Qed.

(** X25. Lines that do not make up three are dropped without a word: when
    the output stops after the identifier, or after the value, of one more
    binding, the capture raises nothing and returns the state of the
    bindings before it. *)
Theorem capture_drops_incomplete (bindings : list (str * str * permission))
    (extra : list str) :
  Forall (fun b : str * str * permission =>
            Variable_.is_valid_identifier b.1.1 = true
            ∧ Variable_.is_valid_value b.1.2 = true) bindings →
  (0 < length extra < 3)%nat →
  Forall (fun line => line ≠ [] ∧ Forall (fun a => PyStr.isspace a = false) line) extra →
  capture (written bindings ++ concat ((fun line => line ++ ["010"%char]) <$> extra))
  = inr (state_of_bindings bindings).
Proof.
  intros H Hlen Hextra. unfold capture, written.
  rewrite <- concat_app, <- fmap_app.
  set (lines := concat (binding_lines <$> bindings)).
  assert (extra ≠ []) as Hne by (destruct extra; [simpl in Hlen; lia | done]).
  rewrite strip_lines.
  - rewrite split_join_lines.
    + unfold lines. rewrite triples_binding_lines_extra by lia.
      by apply capture_loop_bindings.
    + by destruct lines.
    + apply Forall_app. split; [by apply binding_lines_no_newline|].
      eapply Forall_impl; [exact Hextra|]. intros line [_ Hl]. by apply nonspace_no_newline.
  - by destruct lines.
  - intros l Hl. destruct bindings as [|b bs].
    + simpl in Hl. destruct extra as [|x extra]; [done|]. injection Hl as <-.
      apply Forall_cons in Hextra as [[Hx1 Hx2] _]. by apply nonspace_ends.
    + injection Hl as <-. apply identifier_starts. by apply Forall_cons in H as [[? _] _].
  - intros l Hl. destruct (exists_last Hne) as (ex & x & ->).
    rewrite app_assoc, last_snoc in Hl. injection Hl as <-.
    apply Forall_app in Hextra as [_ [[Hx1 Hx2] _]%Forall_cons]. by apply nonspace_ends.
Qed.

Lemma capture_drops_incomplete_witness :
  capture (written [(py "S", py "mid", ro)] ++ py "T" ++ ["010"%char] ++ py "x" ++ ["010"%char])
  = inr (PyExperimentInstanceState.mk [(py "S", py "mid")] [(py "S", ro)]).
Proof.
  apply (capture_drops_incomplete [(py "S", py "mid", ro)] [py "T"; py "x"]).
  - repeat constructor.
  - simpl. lia.
  - repeat constructor; discriminate.
Defined.

(** ** Several workers *)

Import Workers.

Lemma vars_of_NoDup w c vars :
  vars_of w c = Ok vars → NoDup (Variable_.identifier <$> vars).
Proof.
  destruct c; simpl; intros H.
  - by destruct (variables_facts _ _ H) as (? & _).
  - by destruct (variables_facts _ _ H) as (? & _).
  - by destruct (on_variables_facts _ _ _ H) as (? & _).
  - by destruct (on_variables_facts _ _ _ H) as (? & _).
Qed.

Lemma ei_lock_acquire_locks self self' :
  ei_lock_acquire self = Returns tt self' →
  _variable_locks self' = _variable_locks self ∧ _wedmakefile self' = _wedmakefile self.
Proof. unfold ei_lock_acquire. destruct (_ei_lock self); [done|]. by intros [= <-]. Qed.

Lemma ei_lock_release_locks self self' :
  ei_lock_release self = Returns tt self' →
  _variable_locks self' = _variable_locks self ∧ _wedmakefile self' = _wedmakefile self.
Proof. unfold ei_lock_release. destruct (_ei_lock self); [|done]. by intros [= <-]. Qed.

Lemma acquire_true_locks id self self' :
  acquire_nonblocking id self = Returns true self' →
  _variable_locks self !! id = Some false
  ∧ _variable_locks self' = <[id := true]> (_variable_locks self)
  ∧ _wedmakefile self' = _wedmakefile self.
Proof.
  unfold acquire_nonblocking.
  destruct (_variable_locks self !! id) as [[]|] eqn:E; [done | | done].
  by intros [= <-].
Qed.

Lemma acquire_false_locks id self self' :
  acquire_nonblocking id self = Returns false self' →
  _variable_locks self' = _variable_locks self ∧ _wedmakefile self' = _wedmakefile self.
Proof.
  unfold acquire_nonblocking.
  destruct (_variable_locks self !! id) as [[]|] eqn:E; [| done | done].
  by intros [= <-].
Qed.

Lemma release_locks id self self' :
  release id self = Returns tt self' →
  _variable_locks self' = <[id := false]> (_variable_locks self)
  ∧ _wedmakefile self' = _wedmakefile self.
Proof.
  unfold release.
  destruct (_variable_locks self !! id) as [[]|] eqn:E; [| done | done].
  by intros [= <-].
Qed.

(** What a step does to the lock table and to the locks of the worker
    that takes it: it takes a free lock, or releases one of its own, or
    leaves both alone. *)
Inductive lock_change (self : t) (p : pc) (self' : t) (p' : pc) : Prop :=
| lc_same :
    _variable_locks self' = _variable_locks self →
    (∀ id, id ∈ owns p' ↔ id ∈ owns p) →
    lock_change self p self' p'
| lc_take id :
    _variable_locks self !! id = Some false →
    _variable_locks self' = <[id := true]> (_variable_locks self) →
    (∀ id', id' ∈ owns p' ↔ id' = id ∨ id' ∈ owns p) →
    lock_change self p self' p'
| lc_give id :
    _variable_locks self' = <[id := false]> (_variable_locks self) →
    id ∈ owns p → id ∉ owns p' →
    (∀ id', id' ∈ owns p' ↔ id' ≠ id ∧ id' ∈ owns p) →
    lock_change self p self' p'.

Lemma worker_step_lock_change w self p self' p' :
  _wedmakefile self = w →
  (∀ c vars, pc_call p = Some (c, vars) → vars_of w c = Ok vars) →
  worker_step self p self' p' →
  _wedmakefile self' = w
  ∧ (∀ c vars, pc_call p' = Some (c, vars) → vars_of w c = Ok vars)
  ∧ lock_change self p self' p'.
Proof.
  intros Hw Hcall Hstep.
  destruct Hstep as [self c|self e|self c vars self' He Hv|self c vars i v self' Hi Ha
                    |self c vars i v self' Hi Ha|self c vars j i v self' Hji Hj Hr
                    |self c vars i self' He|self c vars Hd|self task vars self' He
                    |self c vars|self task vars e|self task vars other self' He
                    |self task vars other self' He|self c vars k v self' Hk Hr
                    |self c vars self' Hd He|self task vars].
  - split_and!; [done | done | by apply lc_same].
  - split_and!; [done | done | by apply lc_same].
  - apply ei_lock_acquire_locks in He as [Hl Hw']. split_and!.
    + congruence.
    + intros c' vars' [= <- <-]. congruence.
    + apply lc_same; [done|]. intros id. simpl. by rewrite ?take_0.
  - apply acquire_true_locks in Ha as (Hfree & Hl & Hw'). split_and!.
    + congruence.
    + intros c' vars' [= <- <-]. by apply Hcall.
    + apply (lc_take _ _ _ _ (Variable_.identifier v)); [done | done|].
      intros id'. simpl. rewrite (take_S_r _ _ _ Hi), fmap_app, elem_of_app.
      simpl. rewrite list_elem_of_singleton. tauto.
  - apply acquire_false_locks in Ha as (Hl & Hw'). split_and!.
    + congruence.
    + intros c' vars' [= <- <-]. by apply Hcall.
    + apply lc_same; [done|]. intros id. simpl. by rewrite ?drop_0.
  - apply release_locks in Hr as (Hl & Hw').
    assert (NoDup (Variable_.identifier <$> vars)) as Hnd.
    { eapply vars_of_NoDup. by apply Hcall. }
    assert (take i vars !! j = Some v) as Hj' by (by rewrite lookup_take_lt).
    assert (drop j (take i vars) = v :: drop (S j) (take i vars)) as Hdrop.
    { by apply drop_S. }
    assert (Variable_.identifier v ∉ Variable_.identifier <$> drop (S j) (take i vars))
      as Hnotin.
    { assert (NoDup (Variable_.identifier <$> drop j (take i vars))) as Hnd'.
      { assert (Variable_.identifier <$> drop j (take i vars)
                `sublist_of` Variable_.identifier <$> vars) as Hsub.
        { apply fmap_sublist. etrans; [apply sublist_drop | apply sublist_take]. }
        exact (sublist_NoDup _ _ Hnd Hsub). }
      rewrite Hdrop in Hnd'. simpl in Hnd'. by apply NoDup_cons in Hnd' as [? _]. }
    split_and!.
    + congruence.
    + intros c' vars' [= <- <-]. by apply Hcall.
    + apply (lc_give _ _ _ _ (Variable_.identifier v)); simpl; [done | | done |].
      * rewrite Hdrop. simpl. by left.
      * intros id'. rewrite Hdrop. simpl. rewrite elem_of_cons. split.
        -- intros Hin. split; [by intros -> | by right].
        -- by intros [Hne [?|?]].
  - apply ei_lock_release_locks in He as [Hl Hw']. split_and!.
    + congruence.
    + done.
    + apply lc_same; [done|]. intros id. simpl.
      rewrite drop_ge by (rewrite length_take; lia). done.
  - split_and!; [done | |].
    + intros c' vars' [= <- <-]. by apply Hcall.
    + apply lc_same; [done|]. intros id. simpl. by rewrite firstn_all.
  - apply ei_lock_release_locks in He as [Hl Hw']. split_and!.
    + congruence.
    + intros c' vars' [= <- <-]. by apply Hcall.
    + apply lc_same; [done|]. intros id. simpl. by rewrite firstn_all.
  - split_and!; [done | |].
    + intros c' vars' [= <- <-]. by apply Hcall.
    + apply lc_same; [done|]. intros id. simpl. by rewrite ?drop_0.
  - split_and!; [done | |].
    + intros c' vars' [= <- <-]. by apply Hcall.
    + apply lc_same; [done|]. intros id. simpl. by rewrite ?drop_0.
  - apply ei_lock_acquire_locks in He as [Hl Hw']. split_and!.
    + congruence.
    + intros c' vars' [= <- <-]. by apply Hcall.
    + by apply lc_same.
  - apply ei_lock_release_locks in He as [Hl Hw']. simpl in Hl, Hw'. split_and!.
    + congruence.
    + intros c' vars' [= <- <-]. by apply Hcall.
    + apply lc_same; [done|]. intros id. simpl. by rewrite ?drop_0.
  - apply release_locks in Hr as (Hl & Hw').
    assert (NoDup (Variable_.identifier <$> vars)) as Hnd.
    { eapply vars_of_NoDup. by apply Hcall. }
    assert (drop k vars = v :: drop (S k) vars) as Hdrop.
    { by apply drop_S. }
    assert (Variable_.identifier v ∉ Variable_.identifier <$> drop (S k) vars) as Hnotin.
    { rewrite <- (take_drop k vars), Hdrop, fmap_app in Hnd.
      apply NoDup_app in Hnd as (_ & _ & Hnd). simpl in Hnd.
      by apply NoDup_cons in Hnd as [? _]. }
    split_and!.
    + congruence.
    + intros c' vars' [= <- <-]. by apply Hcall.
    + apply (lc_give _ _ _ _ (Variable_.identifier v)); simpl; [done | | done |].
      * rewrite Hdrop. simpl. by left.
      * intros id'. rewrite Hdrop. simpl. rewrite elem_of_cons. split.
        -- intros Hin. split; [by intros -> | by right].
        -- by intros [Hne [?|?]].
  - apply ei_lock_release_locks in He as [Hl Hw']. split_and!.
    + congruence.
    + done.
    + apply lc_same; [done|]. intros id. simpl. by rewrite drop_all.
  - split_and!; [done | done |].
    apply lc_same; [done|]. intros id. simpl. by rewrite drop_all.
Qed.

Lemma lookup_insert_pc (pcs : list pc) k p p' k1 q :
  pcs !! k = Some p → <[k := p']> pcs !! k1 = Some q →
  (k1 = k ∧ q = p') ∨ (k1 ≠ k ∧ pcs !! k1 = Some q).
Proof.
  intros Hk Hq. destruct (decide (k1 = k)) as [->|Hne].
  - left. split; [done|]. rewrite list_lookup_insert_eq in Hq.
    + by injection Hq.
    + by eapply lookup_lt_Some.
  - right. split; [done|]. by rewrite list_lookup_insert_ne in Hq.
Qed.

Lemma step_invariant w cfg cfg' : lock_invariant w cfg → step cfg cfg' → lock_invariant w cfg'.
Proof.
  intros (Hw & Hown & Hdisj) Hstep.
  destruct Hstep as [self pcs k p self' p' Hk Hstep]. simpl in *.
  destruct (Hown k p Hk) as [Hcall Hheld].
  destruct (worker_step_lock_change w self p self' p' Hw Hcall Hstep) as (Hw' & Hcall' & Hlc).
  assert (∀ k1 q, <[k := p']> pcs !! k1 = Some q →
                  (k1 = k ∧ q = p') ∨ (k1 ≠ k ∧ pcs !! k1 = Some q)) as Hlook.
  { intros k1 q. by apply (lookup_insert_pc pcs k p). }
  split; [done|]. destruct Hlc as [Hl Ho|id Hfree Hl Ho|id Hl Hin Hout Ho]; simpl.
  - split.
    + intros k1 q [[-> ->]|[Hne Hq]]%Hlook.
      * split; [done|]. intros id Hid. rewrite Hl. by apply Hheld, Ho.
      * destruct (Hown k1 q Hq) as [? Hh]. split; [done|]. intros id Hid. rewrite Hl. by apply Hh.
    + intros k1 k2 p1 p2 Hne [[-> ->]|[Hne1 Hq1]]%Hlook [[-> ->]|[Hne2 Hq2]]%Hlook id Hid;
        try done.
      * apply (Hdisj k k2 p p2); [done | done | done | by apply Ho].
      * rewrite Ho. by apply (Hdisj k1 k p1 p).
      * by apply (Hdisj k1 k2 p1 p2).
  - assert (∀ q id', (∀ x, x ∈ owns q → _variable_locks self !! x = Some true) →
                     id' ∈ owns q → id' ≠ id) as Hother.
    { intros q id' Hq Hid' ->. rewrite (Hq id Hid') in Hfree. discriminate Hfree. }
    split.
    + intros k1 q [[-> ->]|[Hne Hq]]%Hlook.
      * split; [done|]. intros id' [->|Hid']%Ho; rewrite Hl.
        -- by rewrite lookup_insert_eq.
        -- rewrite lookup_insert_ne; [by apply Hheld|]. intros <-. by apply (Hother p id).
      * destruct (Hown k1 q Hq) as [? Hh]. split; [done|]. intros id' Hid'. rewrite Hl.
        rewrite lookup_insert_ne; [by apply Hh|]. intros <-. by apply (Hother q id).
    + intros k1 k2 p1 p2 Hne [[-> ->]|[Hne1 Hq1]]%Hlook [[-> ->]|[Hne2 Hq2]]%Hlook id' Hid';
        try done.
      * destruct (Hown k2 p2 Hq2) as [_ Hh2]. apply Ho in Hid' as [->|Hid'].
        -- intros Hin2. by apply (Hother p2 id Hh2).
        -- by apply (Hdisj k k2 p p2).
      * destruct (Hown k1 p1 Hq1) as [_ Hh1]. rewrite Ho. intros [->|Hin].
        -- by apply (Hother p1 id Hh1).
        -- by apply (Hdisj k1 k p1 p Hne1 Hq1 Hk id').
      * by apply (Hdisj k1 k2 p1 p2).
  - split.
    + intros k1 q [[-> ->]|[Hne Hq]]%Hlook.
      * split; [done|]. intros id' [Hne' Hid']%Ho. rewrite Hl.
        rewrite lookup_insert_ne by done. by apply Hheld.
      * destruct (Hown k1 q Hq) as [? Hh]. split; [done|]. intros id' Hid'. rewrite Hl.
        rewrite lookup_insert_ne; [by apply Hh|]. intros <-.
        by apply (Hdisj k k1 p q (not_eq_sym Hne) Hk Hq id).
    + intros k1 k2 p1 p2 Hne [[-> ->]|[Hne1 Hq1]]%Hlook [[-> ->]|[Hne2 Hq2]]%Hlook id' Hid';
        try done.
      * apply Ho in Hid' as [_ Hid']. by apply (Hdisj k k2 p p2).
      * rewrite Ho. intros [_ Hin']. by apply (Hdisj k1 k p1 p Hne1 Hq1 Hk id').
      * by apply (Hdisj k1 k2 p1 p2).
Qed.

Lemma reachable_invariant self0 n cfg :
  reachable self0 n cfg → lock_invariant (_wedmakefile self0) cfg.
Proof.
  unfold reachable. intros H. apply rtc_nsteps_1 in H as [m H].
  revert cfg H. induction m as [|m IH]; intros cfg H.
  - inversion H; subst. split; [done|]. simpl. split.
    + intros k p [-> _]%lookup_replicate. split; [done|]. intros id Hid.
      by apply elem_of_nil in Hid.
    + intros k1 k2 p1 p2 _ [-> _]%lookup_replicate _ id Hid. by apply elem_of_nil in Hid.
  - apply nsteps_inv_r in H as (cfg1 & H1 & H2).
    eapply step_invariant; [by apply IH | done].
Qed.

(** X26. Mutual exclusion. However the steps of the workers interleave,
    two workers that are running the bodies of tasks at the same time run
    tasks that share no variable: each holds the locks of the variables of
    its task, and every one of these locks is locked. *)
Theorem running_tasks_disjoint (self0 self : PyExperimentInstance.t) (n : nat)
    (pcs : list pc) (k1 k2 : nat) (p1 p2 : pc) (task1 task2 : Task.t)
    (vars1 vars2 : list Variable_.t) :
  reachable self0 n (self, pcs) →
  k1 ≠ k2 → pcs !! k1 = Some p1 → pcs !! k2 = Some p2 →
  running p1 task1 vars1 → running p2 task2 vars2 →
  Guard.on_variables (Task.guard task1) None = Ok vars1
  ∧ Guard.on_variables (Task.guard task2) None = Ok vars2
  ∧ (∀ v, v ∈ vars1 → v ∉ vars2)
  ∧ (∀ v, v ∈ vars1 ++ vars2 → _variable_locks self !! Variable_.identifier v = Some true).
Proof.
  intros (_ & Hown & Hdisj)%reachable_invariant Hne H1 H2 R1 R2. simpl in *.
  destruct (Hown k1 p1 H1) as [Hc1 Hh1]. destruct (Hown k2 p2 H2) as [Hc2 Hh2].
  assert (pc_call p1 = Some (ExecuteTask task1, vars1)
          ∧ owns p1 = Variable_.identifier <$> vars1) as [E1 O1].
  { destruct R1 as [->|[o ->]]; done. }
  assert (pc_call p2 = Some (ExecuteTask task2, vars2)
          ∧ owns p2 = Variable_.identifier <$> vars2) as [E2 O2].
  { destruct R2 as [->|[o ->]]; done. }
  split_and!.
  - by apply (Hc1 _ _ E1).
  - by apply (Hc2 _ _ E2).
  - intros v Hv1 Hv2. apply (Hdisj k1 k2 p1 p2 Hne H1 H2 (Variable_.identifier v)).
    + rewrite O1. by apply list_elem_of_fmap_2.
    + rewrite O2. by apply list_elem_of_fmap_2.
  - intros v [Hv|Hv]%elem_of_app.
    + apply Hh1. rewrite O1. by apply list_elem_of_fmap_2.
    + apply Hh2. rewrite O2. by apply list_elem_of_fmap_2.
Qed.

(** X27. No worker ever releases a lock that is not locked: in the loops
    that release the locks taken, [release] raises nothing. *)
Theorem release_never_raises (self0 self : PyExperimentInstance.t) (n : nat)
    (pcs : list pc) (k : nat) (p : pc) (v : Variable_.t) :
  reachable self0 n (self, pcs) →
  pcs !! k = Some p →
  (∃ c vars j, p = Releasing c vars j ∧ vars !! j = Some v)
  ∨ (∃ c vars j i, p = Backing c vars j i ∧ (j < i)%nat ∧ vars !! j = Some v) →
  ∃ self', release (Variable_.identifier v) self = Returns tt self'.
Proof.
  intros (_ & Hown & _)%reachable_invariant Hk Hp. simpl in *.
  destruct (Hown k p Hk) as [_ Hheld].
  assert (Variable_.identifier v ∈ owns p) as Hin.
  { destruct Hp as [(c & vars & j & -> & Hj)|(c & vars & j & i & -> & Hji & Hj)]; simpl.
    - apply list_elem_of_fmap_2. rewrite (drop_S _ _ _ Hj). by left.
    - assert (take i vars !! j = Some v) as Hj' by (by rewrite lookup_take_lt).
      apply list_elem_of_fmap_2. rewrite (drop_S _ _ _ Hj'). by left. }
  unfold release. rewrite (Hheld _ Hin). by eexists.
Qed.

(** The acquisition loop of a worker whose locks are free runs to its
    end. *)
Lemma acquire_path c vars (m : nat) self pcs k i :
  (i + m = length vars)%nat →
  pcs !! k = Some (Acquiring c vars i) →
  NoDup (Variable_.identifier <$> vars) →
  (∀ id, id ∈ Variable_.identifier <$> drop i vars →
         _variable_locks self !! id = Some false) →
  ∃ self',
    rtc step (self, pcs) (self', <[k := Acquiring c vars (length vars)]> pcs)
    ∧ _ei_lock self' = _ei_lock self
    ∧ _wedmakefile self' = _wedmakefile self
    ∧ _variable_locks self'
      = lock_all true (Variable_.identifier <$> drop i vars) (_variable_locks self).
Proof.
  revert self pcs i. induction m as [|m IH]; intros self pcs i Hlen Hk Hnd Hfree.
  - assert (i = length vars) as -> by lia. exists self.
    rewrite list_insert_id by done. rewrite drop_all. by split_and!.
  - assert (i < length vars)%nat as Hi by lia.
    destruct (lookup_lt_is_Some_2 vars i Hi) as [v Hv].
    assert (drop i vars = v :: drop (S i) vars) as Hdrop by (by apply drop_S).
    assert (Variable_.identifier v ∉ Variable_.identifier <$> drop (S i) vars) as Hnotin.
    { rewrite <- (take_drop i vars), Hdrop, fmap_app in Hnd.
      apply NoDup_app in Hnd as (_ & _ & Hnd). simpl in Hnd.
      by apply NoDup_cons in Hnd as [? _]. }
    set (self1 := set_locks <[Variable_.identifier v := true]>
                    (EvAcquire (Variable_.identifier v) true) self).
    assert (acquire_nonblocking (Variable_.identifier v) self = Returns true self1) as Hacq.
    { unfold acquire_nonblocking. rewrite Hfree; [done|]. rewrite Hdrop. simpl. by left. }
    destruct (IH self1 (<[k := Acquiring c vars (S i)]> pcs) (S i))
      as (self' & Hpath & Hei & Hw & Hl).
    + lia.
    + apply list_lookup_insert_eq. by eapply lookup_lt_Some.
    + done.
    + intros id Hid. simpl. rewrite lookup_insert_ne.
      * apply Hfree. rewrite Hdrop. simpl. by right.
      * by intros <-.
    + exists self'. rewrite list_insert_insert_eq in Hpath. split_and!; try done.
      * eapply rtc_l; [|exact Hpath]. eapply step_worker; [exact Hk|].
        by eapply ws_acquire.
      * rewrite Hl, Hdrop. done.
Qed.

(** A worker that is in no call enters [execute_task] and reaches the body
    of the task when the coordination lock and the locks of the task are
    free. *)
Lemma worker_runs task vars self pcs k :
  pcs !! k = Some Idle →
  Guard.on_variables (Task.guard task) None = Ok vars →
  _ei_lock self = false →
  (∀ v, v ∈ vars → _variable_locks self !! Variable_.identifier v = Some false) →
  ∃ self',
    rtc step (self, pcs) (self', <[k := Holding (ExecuteTask task) vars]> pcs)
    ∧ _ei_lock self' = false
    ∧ _wedmakefile self' = _wedmakefile self
    ∧ _variable_locks self'
      = lock_all true (Variable_.identifier <$> vars) (_variable_locks self).
Proof.
  intros Hk Hvars Hei Hfree.
  assert (k < length pcs)%nat as Hlt by (by eapply lookup_lt_Some).
  destruct (on_variables_facts _ _ _ Hvars) as [Hnd _].
  destruct (acquire_path (ExecuteTask task) vars (length vars) (set_ei_lock true self)
              (<[k := Acquiring (ExecuteTask task) vars 0]> pcs) k 0)
    as (self1 & Hpath & Hei1 & Hw1 & Hl1).
  - done.
  - by apply list_lookup_insert_eq.
  - done.
  - intros id (v & -> & Hv)%list_elem_of_fmap. simpl. apply Hfree. by rewrite drop_0 in Hv.
  - rewrite list_insert_insert_eq in Hpath. rewrite drop_0 in Hl1.
    exists (set_ei_lock false self1). split_and!; try done.
    eapply rtc_l.
    { apply (step_worker self pcs k Idle self (Entering (ExecuteTask task)) Hk).
      apply ws_call. }
    eapply rtc_l.
    { apply (step_worker self _ k (Entering (ExecuteTask task)) (set_ei_lock true self)
               (Acquiring (ExecuteTask task) vars 0)).
      - by apply list_lookup_insert_eq.
      - apply ws_enter; [|done]. unfold ei_lock_acquire. by rewrite Hei. }
    rewrite list_insert_insert_eq.
    eapply rtc_trans; [exact Hpath|].
    eapply rtc_once.
    replace (<[k := Holding (ExecuteTask task) vars]> pcs)
      with (<[k := Holding (ExecuteTask task) vars]>
              (<[k := Acquiring (ExecuteTask task) vars (length vars)]> pcs))
      by apply list_insert_insert_eq.
    apply (step_worker self1 _ k (Acquiring (ExecuteTask task) vars (length vars))).
    + by apply list_lookup_insert_eq.
    + apply ws_acquired_execute. unfold ei_lock_release. rewrite Hei1. done.
Qed.

Lemma two_workers_run task1 task2 vars1 vars2 self0 :
  Guard.on_variables (Task.guard task1) None = Ok vars1 →
  Guard.on_variables (Task.guard task2) None = Ok vars2 →
  (∀ v, v ∈ vars1 → v ∉ vars2) →
  _ei_lock self0 = false →
  (∀ v, v ∈ vars1 ++ vars2 →
        _variable_locks self0 !! Variable_.identifier v = Some false) →
  ∃ self,
    reachable self0 2 (self, [Holding (ExecuteTask task1) vars1;
                              Holding (ExecuteTask task2) vars2]).
Proof.
  intros H1 H2 Hdisj Hei Hfree. unfold reachable. simpl replicate.
  destruct (worker_runs task1 vars1 self0 [Idle; Idle] 0) as (self1 & P1 & E1 & _ & L1);
    try done.
  { intros v Hv. apply Hfree, elem_of_app. by left. }
  destruct (worker_runs task2 vars2 self1 [Holding (ExecuteTask task1) vars1; Idle] 1)
    as (self2 & P2 & _); try done.
  { intros v Hv. rewrite L1, lock_all_lookup. rewrite decide_False.
    - apply Hfree, elem_of_app. by right.
    - intros (v' & Hid & Hv')%list_elem_of_fmap. apply (Hdisj v' Hv').
      destruct v, v'. simpl in Hid. by subst. }
  exists self2. eapply rtc_trans; [exact P1 | exact P2].
Qed.


Lemma TwoTasks_free :
  ∀ v, v ∈ [Variable_.mk (py "A")] ++ [Variable_.mk (py "B")] →
       _variable_locks TwoTasks.instance !! Variable_.identifier v = Some false.
Proof.
  intros v Hv. simpl in Hv.
  repeat (apply elem_of_cons in Hv as [->|Hv]; [reflexivity|]). by apply elem_of_nil in Hv.
Qed.

Lemma TwoTasks_disjoint :
  ∀ v, v ∈ [Variable_.mk (py "A")] → v ∉ [Variable_.mk (py "B")].
Proof.
  intros v ->%list_elem_of_singleton Hin%list_elem_of_singleton. discriminate Hin.
Qed.


Lemma running_tasks_disjoint_witness :
  ∃ self,
    reachable TwoTasks.instance 2
      (self, [Holding (ExecuteTask TwoTasks.task_A) [Variable_.mk (py "A")];
              Holding (ExecuteTask TwoTasks.task_B) [Variable_.mk (py "B")]])
    ∧ _variable_locks self !! py "A" = Some true
    ∧ _variable_locks self !! py "B" = Some true.
Proof.
  destruct (two_workers_run TwoTasks.task_A TwoTasks.task_B
              [Variable_.mk (py "A")] [Variable_.mk (py "B")] TwoTasks.instance)
    as [self Hr].
  - vm_compute. reflexivity.
  - vm_compute. reflexivity.
  - exact TwoTasks_disjoint.
  - reflexivity.
  - exact TwoTasks_free.
  - exists self. split; [exact Hr|].
    destruct (running_tasks_disjoint TwoTasks.instance self 2 _ 0 1
                (Holding (ExecuteTask TwoTasks.task_A) [Variable_.mk (py "A")])
                (Holding (ExecuteTask TwoTasks.task_B) [Variable_.mk (py "B")])
                TwoTasks.task_A TwoTasks.task_B [Variable_.mk (py "A")]
                [Variable_.mk (py "B")] Hr) as (_ & _ & _ & Hlocked).
    + discriminate.
    + reflexivity.
    + reflexivity.
    + left. reflexivity.
    + left. reflexivity.
    + split.
      * apply (Hlocked (Variable_.mk (py "A"))). simpl. by left.
      * apply (Hlocked (Variable_.mk (py "B"))). simpl. right. by left.
Defined.

Lemma release_never_raises_witness :
  ∃ self self',
    reachable TwoTasks.instance 2
      (self, [Releasing (ExecuteTask TwoTasks.task_A) [Variable_.mk (py "A")] 0;
              Holding (ExecuteTask TwoTasks.task_B) [Variable_.mk (py "B")]])
    ∧ release (py "A") self = Returns tt self'.
Proof.
  destruct (two_workers_run TwoTasks.task_A TwoTasks.task_B
              [Variable_.mk (py "A")] [Variable_.mk (py "B")] TwoTasks.instance)
    as [self Hr].
  - vm_compute. reflexivity.
  - vm_compute. reflexivity.
  - exact TwoTasks_disjoint.
  - reflexivity.
  - exact TwoTasks_free.
  - assert (reachable TwoTasks.instance 2
              (self, [Releasing (ExecuteTask TwoTasks.task_A) [Variable_.mk (py "A")] 0;
                      Holding (ExecuteTask TwoTasks.task_B) [Variable_.mk (py "B")]]))
      as Hr'.
    { eapply rtc_r; [exact Hr|].
      exact (step_worker self
               [Holding (ExecuteTask TwoTasks.task_A) [Variable_.mk (py "A")];
                Holding (ExecuteTask TwoTasks.task_B) [Variable_.mk (py "B")]]
               0 (Holding (ExecuteTask TwoTasks.task_A) [Variable_.mk (py "A")]) self
               (Releasing (ExecuteTask TwoTasks.task_A) [Variable_.mk (py "A")] 0)
               eq_refl (ws_body self _ _)). }
    destruct (release_never_raises TwoTasks.instance self 2 _ 0
                (Releasing (ExecuteTask TwoTasks.task_A) [Variable_.mk (py "A")] 0)
                (Variable_.mk (py "A")) Hr' eq_refl) as [self' Hrel].
    + left. by eexists _, _, _.
    + by exists self, self'.
Defined.

(** ** Task names and namespaces *)

(** X29. A task is built exactly from the names of the grammar of
    identifiers: a letter followed by letters, digits and underscores, the
    last character not an underscore, 64 characters at most; on any other
    name [Task] raises [SyntaxError]. *)
Theorem task_init_name (name : str) (guard : Guard.t) (bash_script : str) :
  (identifier_form name →
   Task.init name guard bash_script = Ok (Task.mk name guard bash_script))
  ∧ (¬ identifier_form name →
     Task.init name guard bash_script
     = Err (SyntaxError (py
         "A task name must have at most 64 alphanumeric and underscore characters, necessarily starting with an alphabetic character and not ending with an underscore character."))).
Proof.
  assert (Task.is_valid_name name = true ↔ identifier_form name) as Hiff.
  { change (Task.is_valid_name name) with (Variable_.is_valid_identifier name).
    rewrite is_valid_identifier_lang. apply lang_identifier_form. }
  unfold Task.init, Task.validate_name. split; intros H.
  - apply Hiff in H. by rewrite H.
  - destruct (Task.is_valid_name name) eqn:E; [|done]. exfalso. by apply H, Hiff.
Qed.

Global Instance str_le_total : Total str_le.
Proof.
  intros a b. unfold str_le. destruct (PyStr.ltb b a) eqn:E; [right | by left].
  by apply ltb_asym.
Qed.

Global Instance str_le_trans : Transitive str_le.
Proof. intros a b c. unfold str_le. intros H1 H2. by apply (leb_trans _ b). Qed.

Lemma StronglySorted_increasing_strings (l : list str) :
  StronglySorted str_le l → NoDup l → increasing l.
Proof.
  intros Hs Hnd i j a b Hij Ha Hb.
  assert (str_le a b) as Hle.
  { rewrite <- (take_drop j l) in Hs.
    apply (StronglySorted_app_1_elem_of _ _ _ _ _ Hs).
    - apply (list_elem_of_lookup_2 _ i). by rewrite lookup_take_lt.
    - apply (list_elem_of_lookup_2 _ 0%nat). rewrite lookup_drop.
      by rewrite Nat.add_0_r. }
  unfold str_le in Hle. destruct (PyStr.ltb a b) eqn:E; [done|].
  exfalso. assert (a = b) as Heq by (by apply ltb_antisym).
  subst b. assert (i = j); [|lia]. eapply NoDup_lookup; eauto.
Qed.

Lemma sorted_strings_facts (X : gset str) :
  let l := sorted_strings (elements X) in
  increasing l ∧ ∀ a, a ∈ l ↔ a ∈ X.
Proof.
  intros l. unfold l, sorted_strings.
  assert (NoDup (merge_sort str_le (elements X))) as Hnd.
  { rewrite merge_sort_Permutation. apply NoDup_elements. }
  split.
  - apply StronglySorted_increasing_strings; [|done].
    apply StronglySorted_merge_sort; apply _.
  - intros a. by rewrite merge_sort_Permutation, elem_of_elements.
Qed.

Lemma on_variables_members g ns vars :
  Guard.on_variables g ns = Ok vars →
  ∃ all, Guard.on_variables g None = Ok all
         ∧ ∀ v, v ∈ vars ↔ v ∈ all ∧ (ns = None ∨ Some (Variable_.namespace v) = ns).
Proof.
  unfold Guard.on_variables.
  destruct (rmap Dependency.on_variable _) as [e|vs]; simpl; [done|].
  intros [= <-]. eexists. split; [reflexivity|]. intros v.
  destruct (sorted_filter_elements_facts
              (fun variable => ns = None ∨ Some (Variable_.namespace variable) = ns)
              (list_to_set vs)) as (_ & _ & H1).
  destruct (sorted_filter_elements_facts
              (fun variable => @None str = None ∨ Some (Variable_.namespace variable) = None)
              (list_to_set vs)) as (_ & _ & H2).
  rewrite H1, H2. split.
  - intros [? ?]. split; [split; [by left | done] | done].
  - intros [[_ ?] ?]. done.
Qed.

(** X30. The namespaces of a guard partition its variables:
    [on_variables_namespaces] returns, in strictly increasing order, the
    namespaces of the variables of [on_variables()], and for each
    namespace [on_variables(namespace)] returns the variables of
    [on_variables()] that have it. *)
Theorem namespaces_partition (g : Guard.t) (all : list Variable_.t) :
  Guard.on_variables g None = Ok all →
  ∃ nss,
    on_variables_namespaces g = Ok nss
    ∧ increasing nss
    ∧ (∀ ns, ns ∈ nss ↔ ∃ v, v ∈ all ∧ Variable_.namespace v = ns)
    ∧ ∀ ns, ∃ vars,
        Guard.on_variables g (Some ns) = Ok vars
        ∧ (∀ v, v ∈ vars ↔ v ∈ all ∧ Variable_.namespace v = ns)
        ∧ (vars ≠ [] ↔ ns ∈ nss).
Proof.
  intros Hall. unfold on_variables_namespaces. rewrite Hall. simpl.
  destruct (sorted_strings_facts (list_to_set (Variable_.namespace <$> all))) as [Hinc Hmem].
  eexists. split; [reflexivity|]. split; [done|].
  assert (∀ ns, ns ∈ sorted_strings (elements (list_to_set (C := gset str)
                                                (Variable_.namespace <$> all)))
                ↔ ∃ v, v ∈ all ∧ Variable_.namespace v = ns) as Hns.
  { intros ns. rewrite Hmem, elem_of_list_to_set, list_elem_of_fmap. split.
    - intros (v & -> & Hv). by exists v.
    - intros (v & Hv & <-). by exists v. }
  split; [done|]. intros ns.
  destruct (Guard.on_variables g (Some ns)) as [e|vars] eqn:E.
  - exfalso. unfold Guard.on_variables in E, Hall.
    destruct (rmap Dependency.on_variable _); simpl in *; done.
  - destruct (on_variables_members g (Some ns) vars E) as (all' & Hall' & Hv).
    rewrite Hall in Hall'. injection Hall' as <-.
    assert (∀ v, v ∈ vars ↔ v ∈ all ∧ Variable_.namespace v = ns) as Hv'.
    { intros v. rewrite Hv. split.
      - intros [? [?|[= ?]]]; done.
      - intros [? <-]. split; [done | by right]. }
    exists vars. split; [done|]. split; [done|]. rewrite Hns. split.
    + intros Hne. destruct vars as [|v vars]; [done|]. exists v. apply Hv'. by left.
    + intros (v & Hin) ->. apply Hv' in Hin. by apply elem_of_nil in Hin.
Qed.

Lemma namespaces_partition_witness :
  ∃ nss,
    on_variables_namespaces
      (Guard.mk [Dependency.mk (py "$WEB_PORT = '80'"); Dependency.mk (py "$DB_HOST != ''");
                 Dependency.mk (py "$WEB_HOST in ['a']")]) = Ok nss
    ∧ increasing nss.
Proof.
  destruct (namespaces_partition
              (Guard.mk [Dependency.mk (py "$WEB_PORT = '80'");
                         Dependency.mk (py "$DB_HOST != ''");
                         Dependency.mk (py "$WEB_HOST in ['a']")])
              [Variable_.mk (py "DB_HOST"); Variable_.mk (py "WEB_HOST");
               Variable_.mk (py "WEB_PORT")]) as (nss & H1 & H2 & _).
  - vm_compute. reflexivity.
  - exists nss. split; [exact H1 | exact H2].
Defined.
